(** * Event ingestion pipeline of bd-web: a shallow embedding

    The development follows [scripts/import-rss-events.js] (the current
    version of the importer): JavaScript strings and regular expressions,
    the date/time resolver [parseDateTime], the content extractor
    [parseEventDetails], the store-facing helpers and the reconciliation
    engine [processRSSItem], [processFeed] and [main].

    Effects are explicit: the content store is a state that every request
    threads through, and everything the script cannot control (clock, time
    zone database, HTML parser, network, request failures) is read from an
    environment record. *)

From Stdlib Require Import String Ascii.
From Stdlib Require Import List NArith ZArith Bool Lia.
Import ListNotations.

Set Implicit Arguments.

(* ================================================================== *)
(** ** JavaScript strings *)
(* ================================================================== *)

Module JS.

(** A JavaScript string is a sequence of UTF-16 code units. *)
Definition jsstring := list N.

(** ASCII literals of the source are written with [js "..."]. *)
Definition js (s : string) : jsstring :=
  List.map N_of_ascii (list_ascii_of_string s).

Fixpoint eqb (a b : jsstring) : bool :=
  match a, b with
  | [], [] => true
  | x :: a', y :: b' => N.eqb x y && eqb a' b'
  | _, _ => false
  end.

Definition memN (c : N) (l : list N) : bool := existsb (N.eqb c) l.

Definition in_range (lo hi c : N) : bool := (N.leb lo c && N.leb c hi)%bool.

(** [\d], [\w] and [\s] of ECMAScript (non-unicode mode). [\s] is
    WhiteSpace plus LineTerminator, the very set [String.prototype.trim]
    strips. *)
Definition is_digit (c : N) : bool := in_range 48 57 c.

Definition is_word (c : N) : bool :=
  (in_range 65 90 c || in_range 97 122 c || is_digit c || N.eqb c 95)%bool.

Definition space_units : list N :=
  [9; 10; 11; 12; 13; 32; 160; 5760; 8232; 8233; 8239; 8287; 12288; 65279]%N.

Definition is_space (c : N) : bool :=
  (memN c space_units || in_range 8192 8202 c)%bool.

(** [.] matches everything except the four line terminators. *)
Definition is_dot (c : N) : bool := negb (memN c [10; 13; 8232; 8233]%N).

Fixpoint drop_while (p : N -> bool) (s : jsstring) : jsstring :=
  match s with
  | c :: t => if p c then drop_while p t else s
  | [] => []
  end.

Definition trim (s : jsstring) : jsstring :=
  rev (drop_while is_space (rev (drop_while is_space s))).

Fixpoint starts_with (p s : jsstring) : bool :=
  match p, s with
  | [], _ => true
  | x :: p', y :: s' => N.eqb x y && starts_with p' s'
  | _ :: _, [] => false
  end.

(** [s.includes(p)] *)
Fixpoint includes (p s : jsstring) : bool :=
  starts_with p s ||
  match s with
  | [] => false
  | _ :: t => includes p t
  end.

(** [arr.indexOf(x)] on an array of strings; [None] is -1. *)
Fixpoint indexOf (x : jsstring) (l : list jsstring) (i : Z) : option Z :=
  match l with
  | [] => None
  | y :: t => if eqb y x then Some i else indexOf x t (i + 1)
  end.

(** [toUpperCase] on the ASCII and Latin-1 letters; other code units are
    left alone (no pattern or literal of the script has a cased character
    beyond Latin-1). *)
Definition upper (c : N) : N :=
  if in_range 97 122 c then (c - 32)%N
  else if (in_range 224 254 c && negb (N.eqb c 247))%bool then (c - 32)%N
  else c.

Definition toUpperCase (s : jsstring) : jsstring := List.map upper s.

(** Truthiness of a value that is either [null]/[undefined] or a string. *)
Definition truthy (v : option jsstring) : bool :=
  match v with
  | Some (_ :: _) => true
  | _ => false
  end.

(** [a || b] on such values. *)
Definition or_else (a b : option jsstring) : option jsstring :=
  if truthy a then a else b.

(** [parseInt(s, 10)] on a run of decimal digits. JavaScript numbers are
    doubles; they are exact up to 2^53, far above every year, day, hour and
    minute a feed carries, and are modelled by [Z]. *)
Definition parseInt (s : jsstring) : Z :=
  fold_left (fun acc c => (acc * 10 + (Z.of_N c - 48))%Z) s 0%Z.

Fixpoint digits_of (fuel : nat) (n : Z) (acc : jsstring) : jsstring :=
  match fuel with
  | O => acc
  | S f =>
      let acc' := Z.to_N (48 + n mod 10) :: acc in
      if (n <? 10)%Z then acc' else digits_of f (n / 10)%Z acc'
  end.

(** [String(n)] for an integer. *)
Definition String_ (n : Z) : jsstring :=
  if (n <? 0)%Z
  then 45%N :: digits_of (S (Z.to_nat (Z.log2 (- n)))) (- n) []
  else digits_of (S (Z.to_nat (Z.log2 n))) n [].

(** [s.padStart(w, '0')] *)
Definition padStart0 (w : nat) (s : jsstring) : jsstring :=
  repeat 48%N (w - List.length s) ++ s.

Definition pad2 (n : Z) : jsstring := padStart0 2 (String_ n).

End JS.

Import JS.

(* ================================================================== *)
(** ** Regular expressions *)
(* ================================================================== *)

Module Regex.

(** The fragment of ECMAScript patterns the script uses. Character
    classes are predicates on code units, so that the [i] flag is part of
    the class. Quantifiers are greedy and backtrack. *)
Inductive re : Type :=
| Eps
| Cls (p : N -> bool)
| Cat (a b : re)
| Alt (a b : re)
| Star (a : re)
| Grp (i : nat) (a : re)
| Bol
| Eol.

Definition caps := list (nat * jsstring).

(** A matcher state: the index reached, the input still to read, and the
    captures made so far. *)
Record mstate := MState { m_pos : nat; m_rest : jsstring; m_caps : caps }.

Definition advance (s : mstate) : option (N * mstate) :=
  match m_rest s with
  | [] => None
  | c :: t => Some (c, MState (S (m_pos s)) t (m_caps s))
  end.

(** Backtracking matcher in continuation-passing style, as in the
    ECMAScript specification: [k] is what remains to be matched. An
    iteration of [Star] that consumes nothing is rejected. *)
Fixpoint run (r : re) (k : mstate -> option mstate) (s : mstate)
  : option mstate :=
  match r with
  | Eps => k s
  | Cls p =>
      match advance s with
      | Some (c, s') => if p c then k s' else None
      | None => None
      end
  | Cat a b => run a (run b k) s
  | Alt a b =>
      match run a k s with
      | Some x => Some x
      | None => run b k s
      end
  | Star a =>
      (fix loop (fuel : nat) (s : mstate) {struct fuel} : option mstate :=
         match fuel with
         | O => k s
         | S fuel' =>
             match run a (fun s' =>
                            if Nat.ltb (m_pos s) (m_pos s')
                            then loop fuel' s' else None) s with
             | Some x => Some x
             | None => k s
             end
         end) (length (m_rest s)) s
  | Grp i a =>
      run a (fun s' =>
               k (MState (m_pos s') (m_rest s')
                    ((i, firstn (m_pos s' - m_pos s) (m_rest s)) :: m_caps s')))
          s
  | Bol => if Nat.eqb (m_pos s) 0 then k s else None
  | Eol => match m_rest s with [] => k s | _ => None end
  end.

Definition Plus (a : re) : re := Cat a (Star a).
Definition Opt (a : re) : re := Alt a Eps.

Definition chr (c : N) : re := Cls (N.eqb c).

(** A literal character under the [i] flag. *)
Definition chri (c : N) : re := Cls (fun x => N.eqb (upper x) (upper c)).

(** A bracketed class under the [i] flag: some member has the same
    canonical form as the input code unit. *)
Definition seti (l : list N) : re :=
  Cls (fun x => existsb (fun a => N.eqb (upper a) (upper x)) l).

Fixpoint lit (s : jsstring) : re :=
  match s with
  | [] => Eps
  | c :: t => Cat (chr c) (lit t)
  end.

Fixpoint liti (s : jsstring) : re :=
  match s with
  | [] => Eps
  | c :: t => Cat (chri c) (liti t)
  end.

Fixpoint cats (l : list re) : re :=
  match l with
  | [] => Eps
  | [r] => r
  | r :: t => Cat r (cats t)
  end.

Fixpoint alts (l : list re) : re :=
  match l with
  | [] => Cls (fun _ => false)
  | [r] => r
  | r :: t => Alt r (alts t)
  end.

(** A match: where it starts and ends, and its captures. *)
Record rmatch := RMatch { r_start : nat; r_end : nat; r_caps : caps }.

(** Match anchored at the current position of [s]. *)
Definition match_here (r : re) (s : mstate) : option rmatch :=
  match run r (fun s' => Some s') s with
  | Some s' => Some (RMatch (m_pos s) (m_pos s') (m_caps s'))
  | None => None
  end.

(** Leftmost match: try every start index in turn. *)
Fixpoint search (r : re) (pos : nat) (rest : jsstring) : option rmatch :=
  match match_here r (MState pos rest []) with
  | Some m => Some m
  | None =>
      match rest with
      | [] => None
      | _ :: t => search r (S pos) t
      end
  end.

Definition exec (r : re) (s : jsstring) : option rmatch := search r 0 s.

(** [r.test(s)] *)
Definition test (r : re) (s : jsstring) : bool :=
  match exec r s with Some _ => true | None => false end.

Fixpoint lookup_cap (i : nat) (c : caps) : jsstring :=
  match c with
  | [] => []
  | (j, v) :: t => if Nat.eqb i j then v else lookup_cap i t
  end.

Definition slice (a b : nat) (s : jsstring) : jsstring :=
  firstn (b - a) (skipn a s).

(** [s.match(r)] for a pattern with [n] groups: the array
    [whole; $1; ...; $n], or [None] for [null]. *)
Definition match_ (r : re) (n : nat) (s : jsstring) : option (list jsstring) :=
  match exec r s with
  | None => None
  | Some m =>
      Some (slice (r_start m) (r_end m) s
              :: List.map (fun i => lookup_cap i (r_caps m)) (seq 1 n))
  end.

(** [s.replace(r, f)] without the [g] flag: the first match is replaced
    by what [f] builds from the captures. *)
Definition replace (r : re) (f : caps -> jsstring) (s : jsstring) : jsstring :=
  match exec r s with
  | None => s
  | Some m => firstn (r_start m) s ++ f (r_caps m) ++ skipn (r_end m) s
  end.

(** [s.split(r)]: cut at every non-empty match. *)
Fixpoint split_from (r : re) (fuel : nat) (s : jsstring) (p q : nat)
  : list jsstring :=
  match fuel with
  | O => [skipn p s]
  | S fuel' =>
      if Nat.leb (length s) q then [skipn p s]
      else
        match match_here r (MState q (skipn q s) []) with
        | Some m =>
            if Nat.eqb (r_end m) p then split_from r fuel' s p (S q)
            else slice p q s :: split_from r fuel' s (r_end m) (r_end m)
        | None => split_from r fuel' s p (S q)
        end
  end.

Definition split (r : re) (s : jsstring) : list jsstring :=
  match s with
  | [] => match match_here r (MState 0 [] []) with
          | Some _ => []
          | None => [[]]
          end
  | _ => split_from r (S (length s)) s 0 0
  end.

End Regex.

Import Regex.

(* ================================================================== *)
(** ** Dates: clock, time zone and the dayjs calls of the script *)
(* ================================================================== *)

Module Dayjs.

Local Open Scope Z_scope.

(** What the date library reads from its host. The two string readers
    belong to dayjs (with its customParseFormat plugin); the script only
    ever hands them strings it has built itself. *)
Record Host := {
  (** [Date.now()], in milliseconds since the epoch *)
  clock : Z;
  (** offset from UTC, in minutes, of America/New_York at an instant, as
      the host's [Intl.DateTimeFormat] reports it *)
  zone_offset : Z -> Z;
  (** [dayjs.utc(s, 'YYYY-MM-DDTHH:mm:ss').valueOf()]; [None] is NaN *)
  utc_parse : jsstring -> option Z;
  (** [dayjs(s).valueOf()], read in the host's local zone; [None] is NaN *)
  local_parse : jsstring -> option Z
}.

(** A dayjs instance: an instant (NaN for an invalid one) shown at an
    offset from UTC. *)
Record dayjs := { d_ts : option Z; d_offset : Z }.

Definition isValid (d : dayjs) : bool :=
  match d_ts d with Some _ => true | None => false end.

(** Days since 1970-01-01 of a proleptic Gregorian date, and back. *)
Definition days_from_civil (y m d : Z) : Z :=
  let y' := if m <=? 2 then y - 1 else y in
  let era := y' / 400 in
  let yoe := y' - era * 400 in
  let mp := (m + 9) mod 12 in
  let doy := (153 * mp + 2) / 5 + d - 1 in
  let doe := yoe * 365 + yoe / 4 - yoe / 100 + doy in
  era * 146097 + doe - 719468.

Definition civil_from_days (z : Z) : Z * Z * Z :=
  let z := z + 719468 in
  let era := z / 146097 in
  let doe := z - era * 146097 in
  let yoe := (doe - doe / 1460 + doe / 36524 - doe / 146096) / 365 in
  let y := yoe + era * 400 in
  let doy := doe - (365 * yoe + yoe / 4 - yoe / 100) in
  let mp := (5 * doy + 2) / 153 in
  let d := doy - (153 * mp + 2) / 5 + 1 in
  let m := if mp <? 10 then mp + 3 else mp - 9 in
  (if m <=? 2 then y + 1 else y, m, d).

(** [Date.UTC(y, M, d, h, mi, s)] with a zero-based month: fields out of
    range carry over into the next unit. *)
Definition date_utc (y M d h mi s : Z) : Z :=
  let day := days_from_civil (y + M / 12) (M mod 12 + 1) 1 + d - 1 in
  day * 86400000 + h * 3600000 + mi * 60000 + s * 1000.

(** [fixOffset] of the timezone plugin: find the instant whose wall clock
    in the zone is [localTS], starting from the guess [o0]. *)
Definition fixOffset (h : Host) (localTS o0 : Z) : Z * Z :=
  let utcGuess := localTS - o0 * 60 * 1000 in
  let o2 := zone_offset h utcGuess in
  if o0 =? o2 then (utcGuess, o0)
  else
    let utcGuess' := utcGuess - (o2 - o0) * 60 * 1000 in
    let o3 := zone_offset h utcGuess' in
    if o2 =? o3 then (utcGuess', o2)
    else (localTS - Z.min o2 o3 * 60 * 1000, Z.max o2 o3).

(** [dayjs.tz(input, 'YYYY-MM-DDTHH:mm:ss', 'America/New_York')]. [None]
    stands for a thrown exception: with an unreadable input the instant is
    NaN and the zone lookup raises a RangeError. *)
Definition tz (h : Host) (input : jsstring) : option dayjs :=
  let previousOffset := zone_offset h (clock h) in
  match utc_parse h input with
  | None => None
  | Some localTs =>
      let '(targetTs, targetOffset) := fixOffset h localTs previousOffset in
      Some {| d_ts := Some targetTs; d_offset := targetOffset |}
  end.

(** [d.format('YYYY-MM-DDTHH:mm:ss')] *)
Definition format (d : dayjs) : jsstring :=
  match d_ts d with
  | None => js "Invalid Date"
  | Some t =>
      let wall := t + d_offset d * 60000 in
      let ms := wall mod 86400000 in
      let '(y, m, dd) := civil_from_days (wall / 86400000) in
      padStart0 4 (String_ y) ++ js "-" ++ pad2 m ++ js "-" ++ pad2 dd
        ++ js "T" ++ pad2 (ms / 3600000) ++ js ":" ++ pad2 (ms / 60000 mod 60)
        ++ js ":" ++ pad2 (ms / 1000 mod 60)
  end.

(** [dayjs(s)] and [dayjs()] *)
Definition dayjs_of (h : Host) (s : jsstring) : dayjs :=
  {| d_ts := local_parse h s; d_offset := 0 |}.

Definition dayjs_now (h : Host) : dayjs :=
  {| d_ts := Some (clock h); d_offset := 0 |}.

(** [a.isBefore(b)]: a comparison with NaN is false. *)
Definition isBefore (a b : dayjs) : bool :=
  match d_ts a, d_ts b with
  | Some x, Some y => x <? y
  | _, _ => false
  end.

(** *** A reference host

    US Eastern time under the rule in force since 2007 (daylight time from
    the second Sunday of March, 07:00 UTC, to the first Sunday of November,
    06:00 UTC), and a reader that takes a string of the exact shape
    [YYYY-MM-DDTHH:mm:ss] with non-zero year, month and day the way dayjs
    does without its strict flag: the fields are not range-checked and
    carry over through [Date.UTC]. Any other input is declined. *)
Definition weekday (days : Z) : Z := (days + 4) mod 7.

Definition first_sunday_on_or_after (days : Z) : Z :=
  days + (7 - weekday days) mod 7.

Definition us_eastern_offset (t : Z) : Z :=
  let '(y, _, _) := civil_from_days (t / 86400000) in
  let dst_start :=
    (first_sunday_on_or_after (days_from_civil y 3 1) + 7) * 86400000
    + 7 * 3600000 in
  let dst_end :=
    first_sunday_on_or_after (days_from_civil y 11 1) * 86400000
    + 6 * 3600000 in
  if (dst_start <=? t) && (t <? dst_end) then -240 else -300.

Definition all_digits (s : jsstring) : bool := forallb is_digit s.

Definition read_iso (s : jsstring) : option (Z * Z * Z * Z * Z * Z) :=
  match s with
  | [y1; y2; y3; y4; 45; m1; m2; 45; d1; d2; 84; h1; h2; 58; i1; i2; 58; s1; s2]%N =>
      if all_digits [y1; y2; y3; y4; m1; m2; d1; d2; h1; h2; i1; i2; s1; s2]
      then
        let y := parseInt [y1; y2; y3; y4] in
        let mo := parseInt [m1; m2] in
        let d := parseInt [d1; d2] in
        if (y =? 0) || (mo =? 0) || (d =? 0) then None
        else Some (y, mo, d, parseInt [h1; h2], parseInt [i1; i2],
                   parseInt [s1; s2])
      else None
  | _ => None
  end.

Definition lenient_utc (s : jsstring) : option Z :=
  match read_iso s with
  | Some (y, mo, d, h, mi, se) => Some (date_utc y (mo - 1) d h mi se)
  | None => None
  end.

(** A host in the UTC zone whose clock reads [now]. *)
Definition reference_host (now : Z) : Host :=
  {| clock := now;
     zone_offset := us_eastern_offset;
     utc_parse := lenient_utc;
     local_parse := lenient_utc |}.

End Dayjs.

Import Dayjs.

(* ================================================================== *)
(** ** Date/time resolver *)
(* ================================================================== *)

Definition digits : re := Plus (Cls is_digit).
Definition spaces0 : re := Star (Cls is_space).
Definition spaces1 : re := Plus (Cls is_space).

(** The code units between the brackets of the time-range pattern, as the
    source file holds them: U+00E2 U+20AC U+201D, U+00E2 U+20AC U+201C and
    the escaped hyphen. *)
Definition dash_class : list N := [226; 8364; 8221; 226; 8364; 8220; 45]%N.

(** [\d+:\d+\s*[AP]M] *)
Definition time_token : re :=
  cats [digits; chr 58; digits; spaces0; seti [65; 80]%N; chri 77].

(** [/(\d+:\d+\s*[AP]M)\s*[...\-]\s*(\d+:\d+\s*[AP]M)/i] *)
Definition timeRangePattern : re :=
  cats [Grp 1 time_token; spaces0; seti dash_class; spaces0; Grp 2 time_token].

(** [/(\d)([AP]M)/i] *)
Definition meridiemGluePattern : re :=
  Cat (Grp 1 (Cls is_digit)) (Grp 2 (Cat (seti [65; 80]%N) (chri 77))).

(** [/(AM|PM)/i] as a group *)
Definition ampm (i : nat) : re :=
  Grp i (Alt (liti (js "AM")) (liti (js "PM"))).

(** [(\w+)\s+(\d+),\s+(\d+)\s+(\d+):(\d+)\s+(AM|PM)] *)
Definition date_fields : list re :=
  [Grp 1 (Plus (Cls is_word)); spaces1; Grp 2 digits; chr 44; spaces1;
   Grp 3 digits; spaces1; Grp 4 digits; chr 58; Grp 5 digits; spaces1;
   ampm 6].

(** [/^[^,]+,\s+(\w+)\s+(\d+),\s+(\d+)\s+(\d+):(\d+)\s+(AM|PM)\s*$/i] *)
Definition dateTimePattern : re :=
  cats ([Bol; Plus (Cls (fun c => negb (N.eqb c 44))); chr 44; spaces1]
          ++ date_fields ++ [spaces0; Eol]).

(** [/(\w+)\s+(\d+),\s+(\d+)\s+(\d+):(\d+)\s+(AM|PM)/i] *)
Definition lenientPattern : re := cats date_fields.

Definition monthNames : list jsstring :=
  List.map js ["January"; "February"; "March"; "April"; "May"; "June";
               "July"; "August"; "September"; "October"; "November";
               "December"]%string.

Record components := {
  c_year : Z; c_month : Z; c_day : Z; c_hour : Z; c_minute : Z
}.

Definition nth_str (m : list jsstring) (i : nat) : jsstring := nth i m [].

(** [parseComponents]; [None] is the thrown "Invalid month name". *)
Definition parseComponents (m : list jsstring) : option components :=
  let monthName := nth_str m 1 in
  match indexOf monthName monthNames 0 with
  | None => None
  | Some month =>
      let day := parseInt (nth_str m 2) in
      let year := parseInt (nth_str m 3) in
      let hour := parseInt (nth_str m 4) in
      let minute := parseInt (nth_str m 5) in
      let ampm := toUpperCase (nth_str m 6) in
      let hour :=
        if (JS.eqb ampm (js "PM") && negb (hour =? 12)%Z)%bool
        then (hour + 12)%Z else hour in
      let hour :=
        if (JS.eqb ampm (js "AM") && (hour =? 12)%Z)%bool then 0%Z else hour in
      Some {| c_year := year; c_month := month; c_day := day;
              c_hour := hour; c_minute := minute |}
  end.

(** The ISO-like string built from the components. *)
Definition iso_of (c : components) : jsstring :=
  String_ (c_year c) ++ js "-" ++ pad2 (c_month c + 1) ++ js "-"
    ++ pad2 (c_day c) ++ js "T" ++ pad2 (c_hour c) ++ js ":"
    ++ pad2 (c_minute c) ++ js ":00".

(** The object [parseDateTime] returns. *)
Record DateTimes := {
  startDateTime : option jsstring;
  endDateTime : option jsstring
}.

Definition no_dates : DateTimes :=
  {| startDateTime := None; endDateTime := None |}.

(** Strict pattern on both strings, else lenient pattern on both; [None]
    when neither reads them. *)
Definition match_date_strings (trimmedStart trimmedEnd : jsstring)
  : option (list jsstring * list jsstring) :=
  match match_ dateTimePattern 6 trimmedStart,
        match_ dateTimePattern 6 trimmedEnd with
  | Some startMatch, Some endMatch => Some (startMatch, endMatch)
  | _, _ =>
      match match_ lenientPattern 6 trimmedStart,
            match_ lenientPattern 6 trimmedEnd with
      | Some sl, Some el => Some (trimmedStart :: tl sl, trimmedEnd :: tl el)
      | _, _ => None
      end
  end.

Definition normalize_time (t : jsstring) : jsstring :=
  replace meridiemGluePattern
          (fun c => lookup_cap 1 c ++ js " " ++ lookup_cap 2 c) t.

(** [`${dateStr} ${time}`] for a time token of the range, trimmed and
    normalized first, and trimmed again as a whole. *)
Definition combined (dateStr token : jsstring) : jsstring :=
  trim (dateStr ++ js " " ++ normalize_time (trim token)).

Definition parseDateTime (h : Host) (dateStr timeStr : option jsstring)
  : DateTimes :=
  match dateStr, timeStr with
  | Some ((_ :: _) as dateStr), Some ((_ :: _) as timeStr) =>
      match match_ timeRangePattern 2 timeStr with
      | None => no_dates
      | Some timeMatch =>
          let trimmedStart := combined dateStr (nth_str timeMatch 1) in
          let trimmedEnd := combined dateStr (nth_str timeMatch 2) in
          match match_date_strings trimmedStart trimmedEnd with
          | None => no_dates
          | Some (startMatch, endMatch) =>
              match parseComponents startMatch, parseComponents endMatch with
              | Some startComponents, Some endComponents =>
                  match tz h (iso_of startComponents) with
                  | None => no_dates
                  | Some startDateTimeNY =>
                      match tz h (iso_of endComponents) with
                      | None => no_dates
                      | Some endDateTimeNY =>
                          if (negb (isValid startDateTimeNY)
                              || negb (isValid endDateTimeNY))%bool
                          then no_dates
                          else {| startDateTime := Some (format startDateTimeNY);
                                  endDateTime := Some (format endDateTimeNY) |}
                      end
                  end
              | _, _ => no_dates
              end
          end
      end
  | _, _ => no_dates
  end.

(* ================================================================== *)
(** ** HTML documents and the cheerio queries of the script *)
(* ================================================================== *)

Module Cheerio.

(** A parsed document is a forest of elements and text. *)
#[warnings="-register-all"]
Inductive node : Type :=
| Text (s : jsstring)
| Elem (tag : jsstring) (attrs : list (jsstring * jsstring)) (kids : list node).

(** The HTML parser and serializer are cheerio's: [load] is
    [cheerio.load(html)] and [inner_html] serializes the children of an
    element, as [.html()] does. *)
Record Lib := {
  load : jsstring -> list node;
  inner_html : list node -> jsstring
}.

Fixpoint text (n : node) : jsstring :=
  match n with
  | Text s => s
  | Elem _ _ ks => flat_map text ks
  end.

(** A node and everything below it, in document order. *)
Fixpoint subtree (n : node) : list node :=
  n :: match n with
       | Text _ => []
       | Elem _ _ ks => flat_map subtree ks
       end.

Definition is_tag (t : jsstring) (n : node) : bool :=
  match n with
  | Elem t' _ _ => JS.eqb t t'
  | Text _ => false
  end.

(** [$('tag')] *)
Definition select_tag (t : jsstring) (doc : list node) : list node :=
  filter (is_tag t) (flat_map subtree doc).

(** [$(el).find('tag')] *)
Definition find_tag (t : jsstring) (n : node) : list node :=
  match n with
  | Text _ => []
  | Elem _ _ ks => select_tag t ks
  end.

Fixpoint assoc (k : jsstring) (l : list (jsstring * jsstring))
  : option jsstring :=
  match l with
  | [] => None
  | (k', v) :: t => if JS.eqb k k' then Some v else assoc k t
  end.

(** [sel.attr(name)]: the attribute of the first element of the selection. *)
Definition attr (name : jsstring) (sel : list node) : option jsstring :=
  match sel with
  | Elem _ attrs _ :: _ => assoc name attrs
  | _ => None
  end.

(** [sel.first().text()] and [sel.first().html()] *)
Definition first_text (sel : list node) : jsstring :=
  match sel with
  | n :: _ => text n
  | [] => []
  end.

Definition first_html (L : Lib) (sel : list node) : option jsstring :=
  match sel with
  | Elem _ _ ks :: _ => Some (inner_html L ks)
  | _ => None
  end.

(** [cheerio.load(fragment).text()] *)
Definition fragment_text (L : Lib) (fragment : jsstring) : jsstring :=
  flat_map text (load L fragment).

(** Class tokens are separated by ASCII white space. *)
Definition is_html_space (c : N) : bool := memN c [9; 10; 12; 13; 32]%N.

Fixpoint tokens (s cur : jsstring) : list jsstring :=
  match s with
  | [] => [rev cur]
  | c :: t => if is_html_space c then rev cur :: tokens t [] else tokens t (c :: cur)
  end.

Definition has_class (c : jsstring) (n : node) : bool :=
  match n with
  | Elem _ attrs _ =>
      match assoc (js "class") attrs with
      | Some v => existsb (JS.eqb c) (tokens v [])
      | None => false
      end
  | Text _ => false
  end.

(** [$('.c tag')]: the [tag] elements that have an ancestor of class [c]. *)
Fixpoint select_under (c t : jsstring) (inside : bool) (n : node) : list node :=
  match n with
  | Text _ => []
  | Elem tg _ ks =>
      (if (inside && JS.eqb t tg)%bool then [n] else [])
        ++ flat_map (select_under c t (inside || has_class c n)) ks
  end.

Definition select_class_tag (c t : jsstring) (doc : list node) : list node :=
  flat_map (select_under c t false) doc.

End Cheerio.

Import Cheerio.

(* ================================================================== *)
(** ** Content extractor *)
(* ================================================================== *)

Definition weekdays : list jsstring :=
  List.map js ["Monday"; "Tuesday"; "Wednesday"; "Thursday"; "Friday";
               "Saturday"; "Sunday"]%string.

Definition digit : re := Cls is_digit.

(** [/(?:Monday|...|Sunday).*\d{4}/] *)
Definition dateLinePattern : re :=
  cats [alts (List.map lit weekdays); Star (Cls is_dot);
        digit; digit; digit; digit].

(** [[^\w\s]+] *)
Definition glyphs : re := Plus (Cls (fun c => negb (is_word c || is_space c))).

(** [/Time:/i], [/^[^\w\s]+\s*/], [/^[^\w\s]+\s*Time:\s*/i], [/^[^\w\s]+/],
    [/<br\s*\/?>/i] and [/bitplebs/i] *)
Definition timeLinePattern : re := liti (js "Time:").
Definition leadingGlyphPattern : re := cats [Bol; glyphs; spaces0].
Definition timePrefixPattern : re :=
  cats [Bol; glyphs; spaces0; liti (js "Time:"); spaces0].
Definition glyphStartPattern : re := Cat Bol glyphs.
Definition brPattern : re :=
  cats [chr 60; chri 98; chri 114; spaces0; Opt (chr 47); chr 62].
Definition bitplebsPattern : re := liti (js "bitplebs").

(** [s.split('\n')] *)
Fixpoint split_lines (s cur : jsstring) : list jsstring :=
  match s with
  | [] => [rev cur]
  | c :: t => if N.eqb c 10 then rev cur :: split_lines t [] else split_lines t (c :: cur)
  end.

Definition strip (p : re) (line : jsstring) : jsstring :=
  trim (replace p (fun _ => []) line).

(** What the loop over the blockquote lines accumulates. *)
Record LineState := {
  ls_date : option jsstring;
  ls_time : option jsstring;
  ls_venueName : option jsstring;
  ls_venueAddress : option jsstring
}.

(** One turn of the loop, at index [i] of [lines]. *)
Definition scan_line (lines : list jsstring) (st : LineState) (i : nat)
  : LineState :=
  let line := nth i lines [] in
  let dateStr :=
    if (negb (truthy (ls_date st)) && test dateLinePattern line)%bool
    then Some (strip leadingGlyphPattern line) else ls_date st in
  let timeStr :=
    if (negb (truthy (ls_time st)) && test timeLinePattern line)%bool
    then Some (strip timePrefixPattern line) else ls_time st in
  if (negb (truthy (ls_venueName st)) && Nat.ltb 0 i
      && test glyphStartPattern line && negb (includes (js "Time") line))%bool
  then
    let venueName := Some (strip leadingGlyphPattern line) in
    let venueAddress :=
      if Nat.ltb (i + 1) (List.length lines) then
        let nextLine := trim (nth (i + 1) lines []) in
        if (truthy (Some nextLine) && negb (includes (js "Time") nextLine)
            && negb (test glyphStartPattern nextLine))%bool
        then Some nextLine else ls_venueAddress st
      else ls_venueAddress st in
    {| ls_date := dateStr; ls_time := timeStr;
       ls_venueName := venueName; ls_venueAddress := venueAddress |}
  else
    {| ls_date := dateStr; ls_time := timeStr;
       ls_venueName := ls_venueName st;
       ls_venueAddress := ls_venueAddress st |}.

Definition scan_lines (lines : list jsstring) : LineState :=
  fold_left (scan_line lines) (seq 0 (List.length lines))
            {| ls_date := None; ls_time := None;
               ls_venueName := None; ls_venueAddress := None |}.

(** The [$('p').each] loop: returning [false] from the callback stops it. *)
Fixpoint description_parts (ps : list node) : list jsstring :=
  match ps with
  | [] => []
  | el :: rest =>
      let t := trim (text el) in
      if (includes (js "Time:") t || includes (js "Find Hotels") t)%bool then []
      else if (truthy (Some t) && Nat.eqb (List.length (find_tag (js "img") el)) 0)%bool
           then t :: description_parts rest
           else description_parts rest
  end.

(** [parts.join('\n\n')] *)
Fixpoint join_blank (parts : list jsstring) : jsstring :=
  match parts with
  | [] => []
  | [x] => x
  | x :: t => x ++ [10; 10]%N ++ join_blank t
  end.

(** The [$('a').each] loop: the first Luma link and the first Meetup link. *)
Definition scan_link (acc : option jsstring * option jsstring) (el : node)
  : option jsstring * option jsstring :=
  let '(lumaUrl, meetupUrl) := acc in
  let href := attr (js "href") [el] in
  if negb (truthy href) then acc
  else
    let h := match href with Some h => h | None => [] end in
    let lumaUrl :=
      if (includes (js "lu.ma/") h && negb (truthy lumaUrl))%bool
      then href else lumaUrl in
    let meetupUrl :=
      if ((includes (js "meetup.com/") h || includes (js "meetu.ps/") h)
          && negb (truthy meetupUrl))%bool
      then href else meetupUrl in
    (lumaUrl, meetupUrl).

Definition content_links (doc : list node) : option jsstring * option jsstring :=
  fold_left scan_link (select_tag (js "a") doc) (None, None).

(** Luma before Meetup. *)
Definition content_rsvp (doc : list node) : option jsstring :=
  let '(lumaUrl, meetupUrl) := content_links doc in
  if truthy lumaUrl then lumaUrl
  else if truthy meetupUrl then meetupUrl
  else None.

Record Parsed := {
  p_dateStr : option jsstring;
  p_timeStr : option jsstring;
  p_venueName : option jsstring;
  p_venueAddress : option jsstring;
  p_imageUrl : option jsstring;
  p_description : jsstring;
  p_rsvpUrl : option jsstring
}.

(** [parseEventDetails]; [None] is the returned [null]. *)
Definition parseEventDetails (L : Lib) (htmlContent : jsstring) : option Parsed :=
  let doc := load L htmlContent in
  let blockquote := firstn 1 (select_tag (js "blockquote") doc) in
  let blockquoteHtml := first_html L blockquote in
  let blockquoteText := first_text blockquote in
  if negb (truthy (Some blockquoteText)) then None
  else
    let lines :=
      match blockquoteHtml with
      | Some ((_ :: _) as html) =>
          List.map (fun line => trim (fragment_text L line)) (split brPattern html)
      | _ => List.map trim (split_lines blockquoteText [])
      end in
    let st := scan_lines lines in
    Some {| p_dateStr := ls_date st;
            p_timeStr := ls_time st;
            p_venueName := ls_venueName st;
            p_venueAddress := ls_venueAddress st;
            p_imageUrl := attr (js "src") (select_tag (js "img") doc);
            p_description :=
              join_blank (description_parts (select_tag (js "p") doc));
            p_rsvpUrl := content_rsvp doc |}.

(* ================================================================== *)
(** ** The content store *)
(* ================================================================== *)

(** The fields of an event record, as the create payload names them. *)
Module Fld.
Inductive t : Set :=
| title | description | start_date_time | end_date_time | location | image
| external_url | external_id | rsvp_url | source_feed | is_imported
| raw_description | parsed_venue_name | parsed_venue_address | tags | status.

Definition eq_dec (a b : t) : {a = b} + {a <> b}.
Proof. decide equality. Defined.

Definition eqb (a b : t) : bool := if eq_dec a b then true else false.
End Fld.

Module Store.

(** JSON values; [VNull] stands for both [null] and [undefined]. *)
Inductive value : Type :=
| VNull
| VBool (b : bool)
| VNum (n : Z)
| VStr (s : jsstring).

Definition truthy_v (v : value) : bool :=
  match v with
  | VNull => false
  | VBool b => b
  | VNum n => negb (n =? 0)%Z
  | VStr s => truthy (Some s)
  end.

Definition of_str (s : option jsstring) : value :=
  match s with Some x => VStr x | None => VNull end.

(** Store-assigned ids are positive numbers. *)
Definition of_id (i : option positive) : value :=
  match i with Some x => VNum (Zpos x) | None => VNull end.

(** A JSON object with the keys of an event. *)
Definition obj := list (Fld.t * value).

Fixpoint get (f : Fld.t) (o : obj) : value :=
  match o with
  | [] => VNull
  | (k, v) :: rest => if Fld.eqb f k then v else get f rest
  end.

Definition keys (o : obj) : list Fld.t := List.map fst o.

Record Event := { ev_id : positive; ev_data : obj }.
Record Venue := { v_id : positive; v_name : jsstring; v_address : jsstring }.
Record Tag := { t_id : positive; t_name : jsstring }.

Definition field (f : Fld.t) (e : Event) : value := get f (ev_data e).

(** A partial update overrides the fields it names. *)
Definition patch_event (p : obj) (e : Event) : Event :=
  {| ev_id := ev_id e; ev_data := p ++ ev_data e |}.

(** The requests the script sends to the store. *)
Inductive Request : Type :=
| ListEvents (external_url : jsstring)
| CreateEvent (data : obj)
| UpdateEvent (id : positive) (patch : obj)
| ListVenues (name : jsstring)
| CreateVenue (name address : jsstring)
| ListTags (name : jsstring)
| CreateTag (name : jsstring)
| UploadFile (source : jsstring).

Inductive Op : Set :=
| OpListEvents | OpCreateEvent | OpUpdateEvent | OpListVenues
| OpCreateVenue | OpListTags | OpCreateTag | OpUploadFile.

Definition op_of (r : Request) : Op :=
  match r with
  | ListEvents _ => OpListEvents
  | CreateEvent _ => OpCreateEvent
  | UpdateEvent _ _ => OpUpdateEvent
  | ListVenues _ => OpListVenues
  | CreateVenue _ _ => OpCreateVenue
  | ListTags _ => OpListTags
  | CreateTag _ => OpCreateTag
  | UploadFile _ => OpUploadFile
  end.

(** The store: its collections in insertion order, the next id it will
    hand out, and the log of every request it has received. *)
Record t := {
  events : list Event;
  venues : list Venue;
  tags : list Tag;
  files : list positive;
  next_id : positive;
  requests : list Request
}.

Definition empty : t :=
  {| events := []; venues := []; tags := []; files := [];
     next_id := 1%positive; requests := [] |}.

Definition log (r : Request) (s : t) : t :=
  {| events := events s; venues := venues s; tags := tags s;
     files := files s; next_id := next_id s;
     requests := requests s ++ [r] |}.

Definition has_url (url : jsstring) (e : Event) : bool :=
  match field Fld.external_url e with
  | VStr u => JS.eqb u url
  | _ => false
  end.

(** What a request does when the store accepts it. *)
Definition insert_event (data : obj) (s : t) : positive * t :=
  (next_id s,
   {| events := events s ++ [{| ev_id := next_id s; ev_data := data |}];
      venues := venues s; tags := tags s; files := files s;
      next_id := Pos.succ (next_id s); requests := requests s |}).

Definition modify_event (id : positive) (p : obj) (s : t) : t :=
  {| events := List.map (fun e => if Pos.eqb (ev_id e) id
                                  then patch_event p e else e) (events s);
     venues := venues s; tags := tags s; files := files s;
     next_id := next_id s; requests := requests s |}.

Definition insert_venue (name address : jsstring) (s : t) : positive * t :=
  (next_id s,
   {| events := events s;
      venues := venues s ++ [{| v_id := next_id s; v_name := name;
                                v_address := address |}];
      tags := tags s; files := files s;
      next_id := Pos.succ (next_id s); requests := requests s |}).

Definition insert_tag (name : jsstring) (s : t) : positive * t :=
  (next_id s,
   {| events := events s; venues := venues s;
      tags := tags s ++ [{| t_id := next_id s; t_name := name |}];
      files := files s;
      next_id := Pos.succ (next_id s); requests := requests s |}).

Definition insert_file (s : t) : positive * t :=
  (next_id s,
   {| events := events s; venues := venues s; tags := tags s;
      files := files s ++ [next_id s];
      next_id := Pos.succ (next_id s); requests := requests s |}).

End Store.

Import Store.

(* ================================================================== *)
(** ** Environment and effects *)
(* ================================================================== *)

Record Item := {
  title : jsstring;
  link : jsstring;
  guid : jsstring;
  contentEncoded : jsstring;
  contentSnippet : option jsstring
}.

(** Everything the script reaches outside itself, apart from the store's
    contents. A request of a kind the store [refuses] is answered with an
    error, which [directusRequest] throws. *)
Record Env := {
  host : Host;
  cheerio : Lib;
  (** [fetch(url)] followed by [response.text()]; [None] when the fetch
      rejects or the status is not ok *)
  fetch_text : jsstring -> option jsstring;
  (** whether an image URL can be downloaded (and is a well-formed URL) *)
  fetch_image : jsstring -> bool;
  (** [parser.parseURL(url)]; [None] when it throws *)
  parseURL : jsstring -> option (list Item);
  refuses : Op -> bool
}.

(** Computations that read and update the store. *)
Definition M (A : Type) : Type := Store.t -> A * Store.t.

Definition ret {A} (a : A) : M A := fun s => (a, s).

Definition bind {A B} (m : M A) (f : A -> M B) : M B :=
  fun s => let '(a, s') := m s in f a s'.

Notation "x <- m ;; k" := (bind m (fun x => k))
  (at level 61, m at next level, right associativity).

(** [directusRequest] and the upload: the request reaches the store (and
    its log); [None] is the thrown error of a refused request. *)
Definition send {A} (E : Env) (r : Request) (accept : Store.t -> A * Store.t)
  : M (option A) :=
  fun s =>
    let s := log r s in
    if refuses E (op_of r) then (None, s)
    else let '(a, s') := accept s in (Some a, s').

(** [GET items/Events?filter[external_url][_eq]=...&limit=1] *)
Definition listEvents (E : Env) (url : jsstring) : M (option (list Event)) :=
  send E (ListEvents url)
       (fun s => (firstn 1 (filter (has_url url) (events s)), s)).

(** [POST items/Events] *)
Definition createEvent (E : Env) (data : obj) : M (option positive) :=
  send E (CreateEvent data) (insert_event data).

(** [PATCH items/Events/:id] *)
Definition updateEvent (E : Env) (id : positive) (p : obj) : M (option unit) :=
  send E (UpdateEvent id p) (fun s => (tt, modify_event id p s)).

Definition listVenues (E : Env) (name : jsstring) : M (option (list Venue)) :=
  send E (ListVenues name)
       (fun s => (firstn 1 (filter (fun v => JS.eqb (v_name v) name) (venues s)), s)).

Definition createVenue (E : Env) (name address : jsstring) : M (option positive) :=
  send E (CreateVenue name address) (insert_venue name address).

Definition listTags (E : Env) (name : jsstring) : M (option (list Tag)) :=
  send E (ListTags name)
       (fun s => (firstn 1 (filter (fun t => JS.eqb (t_name t) name) (tags s)), s)).

Definition createTag (E : Env) (name : jsstring) : M (option positive) :=
  send E (CreateTag name) (insert_tag name).

Definition uploadFile (E : Env) (source : jsstring) : M (option positive) :=
  send E (UploadFile source) insert_file.

(* ================================================================== *)
(** ** Helpers of the reconciliation engine *)
(* ================================================================== *)

(** [scrapeEventRsvpLink]: every failure is caught and becomes [null]. *)
Definition scrapeEventRsvpLink (E : Env) (eventUrl : jsstring)
  : option jsstring :=
  match fetch_text E eventUrl with
  | None => None
  | Some html =>
      let doc := load (cheerio E) html in
      let websiteLink :=
        attr (js "href")
             (select_class_tag (js "single_event_website") (js "a") doc) in
      if truthy websiteLink then websiteLink else None
  end.

(** [downloadAndUploadImage] *)
Definition downloadAndUploadImage (E : Env) (imageUrl : option jsstring)
  : M (option positive) :=
  match imageUrl with
  | Some ((_ :: _) as url) =>
      if fetch_image E url then uploadFile E url else ret None
  | _ => ret None
  end.

(** [findOrCreateVenue] *)
Definition findOrCreateVenue (E : Env) (venueName venueAddress : option jsstring)
  : M (option positive) :=
  match venueName with
  | Some ((_ :: _) as name) =>
      response <- listVenues E name ;;
      match response with
      | None => ret None
      | Some (v :: _) => ret (Some (v_id v))
      | Some [] =>
          createVenue E name
            (match or_else venueAddress (Some []) with
             | Some a => a
             | None => []
             end)
      end
  | _ => ret None
  end.

(** [findOrCreateTag] *)
Definition findOrCreateTag (E : Env) (tagName : jsstring) : M (option positive) :=
  match tagName with
  | [] => ret None
  | _ =>
      response <- listTags E tagName ;;
      match response with
      | None => ret None
      | Some (t :: _) => ret (Some (t_id t))
      | Some [] => createTag E tagName
      end
  end.

(* ================================================================== *)
(** ** Reconciliation engine *)
(* ================================================================== *)

Module Status.
Inductive t : Set := created | updated | skipped | failed.
End Status.

Inductive Reason : Set :=
| parse_error | date_parse_error | past_event
| fields_updated | already_exists | create_error.

(** The object [processRSSItem] returns. *)
Record Result := {
  status : Status.t;
  reason : option Reason;
  id : option positive
}.

Definition result (s : Status.t) (r : option Reason) (i : option positive)
  : Result := {| status := s; reason := r; id := i |}.

(** The sparse patch [updatesNeeded] for an event that already exists:
    image, RSVP URL and tag, each only when the stored field is empty and
    the item has something to put there. *)
Definition updatesNeeded (E : Env) (item : Item) (parsed : Parsed)
    (rsvpUrl : option jsstring) (existingEvent : Event) : M obj :=
  imagePart <-
    (if (negb (truthy_v (field Fld.image existingEvent))
         && truthy (p_imageUrl parsed))%bool
     then
       imageId <- downloadAndUploadImage E (p_imageUrl parsed) ;;
       ret (match imageId with
            | Some i => [(Fld.image, VNum (Zpos i))]
            | None => []
            end)
     else ret []) ;;
  let rsvpPart :=
    if (negb (truthy_v (field Fld.rsvp_url existingEvent))
        && truthy rsvpUrl)%bool
    then [(Fld.rsvp_url, of_str rsvpUrl)] else [] in
  tagPart <-
    (if (test bitplebsPattern (title item)
         && negb (truthy_v (field Fld.tags existingEvent)))%bool
     then
       tagId <- findOrCreateTag E (js "bitplebs") ;;
       ret (match tagId with
            | Some i => [(Fld.tags, VNum (Zpos i))]
            | None => []
            end)
     else ret []) ;;
  ret (imagePart ++ rsvpPart ++ tagPart).

(** The payload of a create request. *)
Definition eventData (item : Item) (feedSource : jsstring) (parsed : Parsed)
    (dt : DateTimes) (rsvpUrl : option jsstring)
    (venueId imageId tagId : option positive) : obj :=
  [ (Fld.title, VStr (title item));
    (Fld.description,
     of_str (or_else (or_else (Some (p_description parsed))
                              (contentSnippet item)) (Some [])));
    (Fld.start_date_time, of_str (startDateTime dt));
    (Fld.end_date_time, of_str (or_else (endDateTime dt) (startDateTime dt)));
    (Fld.location, of_id venueId);
    (Fld.image, of_id imageId);
    (Fld.external_url, VStr (link item));
    (Fld.external_id, VStr (guid item));
    (Fld.rsvp_url, of_str (or_else rsvpUrl None));
    (Fld.source_feed, VStr feedSource);
    (Fld.is_imported, VBool true);
    (Fld.raw_description, VStr (contentEncoded item));
    (Fld.parsed_venue_name, of_str (p_venueName parsed));
    (Fld.parsed_venue_address, of_str (p_venueAddress parsed));
    (Fld.tags, of_id tagId);
    (Fld.status, VStr (js "published")) ].

(** The tail of [processRSSItem]: nothing was found, create the event. *)
Definition createNewEvent (E : Env) (item : Item) (feedSource : jsstring)
    (parsed : Parsed) (dt : DateTimes) (rsvpUrl : option jsstring)
  : M Result :=
  imageId <-
    (if truthy (p_imageUrl parsed)
     then downloadAndUploadImage E (p_imageUrl parsed) else ret None) ;;
  venueId <-
    (if truthy (p_venueName parsed)
     then findOrCreateVenue E (p_venueName parsed) (p_venueAddress parsed)
     else ret None) ;;
  tagId <-
    (if test bitplebsPattern (title item)
     then findOrCreateTag E (js "bitplebs") else ret None) ;;
  response <-
    createEvent E (eventData item feedSource parsed dt rsvpUrl
                             venueId imageId tagId) ;;
  match response with
  | Some newId => ret (result Status.created None (Some newId))
  | None => ret (result Status.failed (Some create_error) None)
  end.

(** The final RSVP URL: the scraped link, else the link of the content. *)
Definition resolveRsvpUrl (E : Env) (item : Item) (parsed : Parsed)
  : option jsstring :=
  or_else (scrapeEventRsvpLink E (link item)) (p_rsvpUrl parsed).

Definition processRSSItem (E : Env) (item : Item) (feedSource : jsstring)
  : M Result :=
  let externalUrl := link item in
  match parseEventDetails (cheerio E) (contentEncoded item) with
  | None => ret (result Status.failed (Some parse_error) None)
  | Some parsed =>
      let rsvpUrl := resolveRsvpUrl E item parsed in
      let dt := parseDateTime (host E) (p_dateStr parsed) (p_timeStr parsed) in
      match startDateTime dt with
      | Some ((_ :: _) as start) =>
          let eventDate := dayjs_of (host E) start in
          let now := dayjs_now (host E) in
          if isBefore eventDate now
          then ret (result Status.skipped (Some past_event) None)
          else
            response <- listEvents E externalUrl ;;
            match response with
            | Some (existingEvent :: _) =>
                patch <- updatesNeeded E item parsed rsvpUrl existingEvent ;;
                match patch with
                | [] =>
                    ret (result Status.skipped (Some already_exists)
                                (Some (ev_id existingEvent)))
                | _ =>
                    answer <- updateEvent E (ev_id existingEvent) patch ;;
                    match answer with
                    | Some _ =>
                        ret (result Status.updated (Some fields_updated)
                                    (Some (ev_id existingEvent)))
                    | None =>
                        ret (result Status.skipped (Some already_exists)
                                    (Some (ev_id existingEvent)))
                    end
                end
            | _ => createNewEvent E item feedSource parsed dt rsvpUrl
            end
      | _ => ret (result Status.failed (Some date_parse_error) None)
      end
  end.

(** The counters of a feed and of the whole run. *)
Record Counters := {
  total : nat;
  created : nat;
  updated : nat;
  skipped : nat;
  failed : nat
}.

Definition zero : Counters :=
  {| total := 0; created := 0; updated := 0; skipped := 0; failed := 0 |}.

Definition count (results : Counters) (r : Result) : Counters :=
  match status r with
  | Status.created =>
      {| total := total results; created := S (created results);
         updated := updated results; skipped := skipped results;
         failed := failed results |}
  | Status.updated =>
      {| total := total results; created := created results;
         updated := S (updated results); skipped := skipped results;
         failed := failed results |}
  | Status.skipped =>
      {| total := total results; created := created results;
         updated := updated results; skipped := S (skipped results);
         failed := failed results |}
  | Status.failed =>
      {| total := total results; created := created results;
         updated := updated results; skipped := skipped results;
         failed := S (failed results) |}
  end.

Record FeedConfig := { url : jsstring; source : jsstring; name : jsstring }.

Definition RSS_FEEDS : list FeedConfig :=
  [ {| url := js "https://bitcoinonly.events/tag/washington-dc/feed/";
       source := js "washington-dc"; name := js "Washington DC" |};
    {| url := js "https://bitcoinonly.events/tag/maryland/feed/";
       source := js "maryland"; name := js "Maryland" |};
    {| url := js "https://bitcoinonly.events/tag/virginia/feed/";
       source := js "virginia"; name := js "Virginia" |} ].

(** The [for ... of feed.items] loop of [processFeed]. *)
Fixpoint forEachItem (E : Env) (feedSource : jsstring) (items : list Item)
    (results : Counters) : M Counters :=
  match items with
  | [] => ret results
  | item :: rest =>
      r <- processRSSItem E item feedSource ;;
      forEachItem E feedSource rest (count results r)
  end.

Definition processFeed (E : Env) (feedConfig : FeedConfig) : M Counters :=
  match parseURL E (url feedConfig) with
  | None => ret zero
  | Some items =>
      forEachItem E (source feedConfig) items
        {| total := List.length items; created := 0; updated := 0;
           skipped := 0; failed := 0 |}
  end.

Definition add (a b : Counters) : Counters :=
  {| total := total a + total b; created := created a + created b;
     updated := updated a + updated b; skipped := skipped a + skipped b;
     failed := failed a + failed b |}.

(** The loop of [main] over the configured feeds. *)
Fixpoint forEachFeed (E : Env) (feeds : list FeedConfig)
    (overallResults : Counters) : M Counters :=
  match feeds with
  | [] => ret overallResults
  | feedConfig :: rest =>
      results <- processFeed E feedConfig ;;
      forEachFeed E rest (add overallResults results)
  end.

(** [main], once a token has been found: the results of all feeds. *)
Definition main (E : Env) : M Counters := forEachFeed E RSS_FEEDS zero.

(* ================================================================== *)
(** ** A sample feed, used to run the definitions on concrete inputs *)
(* ================================================================== *)

Module Sample.

(** A toy serializer (attributes are not printed) and a toy parser that
    knows the sample documents and reads any other string as text. *)
Fixpoint serialize (n : node) : jsstring :=
  match n with
  | Text s => s
  | Elem t _ ks =>
      if JS.eqb t (js "br") then js "<br>"
      else js "<" ++ t ++ js ">" ++ flat_map serialize ks
             ++ js "</" ++ t ++ js ">"
  end.

Definition br : node := Elem (js "br") [] [].

Definition blockquote (dateLine timeLine : jsstring) : node :=
  Elem (js "blockquote") []
       [ Text dateLine; br; Text timeLine; br;
         Text (js "# The Pub"); br; Text (js "1 Main St, Washington, DC") ].

Definition paragraphs : list node :=
  [ Elem (js "p") [] [Elem (js "img") [(js "src", js "https://img.example/a.jpg")] []];
    Elem (js "p") [] [Text (js "An evening of sound money talk.")] ].

Definition links : node :=
  Elem (js "p") []
       [ Elem (js "a") [(js "href", js "https://www.meetup.com/g/e/1/")]
              [Text (js "Meetup")];
         Elem (js "a") [(js "href", js "https://lu.ma/abc")]
              [Text (js "Luma")] ].

(** The well-formed item again, with another image. *)
Definition other_doc : list node :=
  [ Elem (js "p") [] [Elem (js "img") [(js "src", js "https://img.example/b.jpg")] []];
    blockquote (js "# Monday, January 26, 2026")
               (js "# Time: 6:00 PM - 10:00 PM EST") ].

Definition other_html : jsstring := js "<good item, new image>".

(** A well-formed item, one without a blockquote, and one whose month
    name is in lower case. *)
Definition good_doc : list node :=
  paragraphs
    ++ [blockquote (js "# Monday, January 26, 2026")
                   (js "# Time: 6:00 PM - 10:00 PM EST"); links].

Definition bare_doc : list node := paragraphs ++ [links].

Definition past_doc : list node :=
  paragraphs
    ++ [blockquote (js "# Monday, January 27, 2025")
                   (js "# Time: 6:00 PM - 10:00 PM EST"); links].

Definition odd_doc : list node :=
  paragraphs
    ++ [blockquote (js "# Monday, january 26, 2026")
                   (js "# Time: 6:00 PM - 10:00 PM EST"); links].

Definition page_doc : list node :=
  [ Elem (js "div") [(js "class", js "row single_event_website")]
         [ Elem (js "span") []
                [Elem (js "a") [(js "href", js "https://venue.example/rsvp")]
                      [Text (js "Website")]] ] ].

Definition good_html : jsstring := js "<good item>".
Definition bare_html : jsstring := js "<item without blockquote>".
Definition odd_html : jsstring := js "<item with odd month>".
Definition past_html : jsstring := js "<item of last year>".
Definition page_html : jsstring := js "<event page>".

Fixpoint lookup (k : jsstring) (table : list (jsstring * list node))
  : list node :=
  match table with
  | [] => [Text k]
  | (k', d) :: rest => if JS.eqb k k' then d else lookup k rest
  end.

Definition lib : Lib :=
  {| load := fun s =>
       lookup s [(good_html, good_doc); (bare_html, bare_doc);
                 (odd_html, odd_doc); (other_html, other_doc);
                 (past_html, past_doc);
                 (page_html, page_doc)];
     inner_html := flat_map serialize |}.

Definition item_of (html : jsstring) : Item :=
  {| title := js "DC BitPlebs Meetup";
     link := js "https://bitcoinonly.events/events/dc-bitplebs/";
     guid := js "https://bitcoinonly.events/?p=1";
     contentEncoded := html;
     contentSnippet := None |}.

Definition item : Item := item_of good_html.

(** Two more items of the feed: an event of last year, and an item
    without a blockquote. *)
Definition past_item : Item :=
  {| title := js "Last year's meetup";
     link := js "https://bitcoinonly.events/events/last-year/";
     guid := js "https://bitcoinonly.events/?p=2";
     contentEncoded := past_html;
     contentSnippet := None |}.

Definition bare_item : Item :=
  {| title := js "Announcement";
     link := js "https://bitcoinonly.events/events/announcement/";
     guid := js "https://bitcoinonly.events/?p=3";
     contentEncoded := bare_html;
     contentSnippet := Some (js "No details yet.") |}.

(** 2026-01-01T12:00:00Z and 2026-02-01T12:00:00Z *)
Definition new_year : Z := 1767268800000.
Definition february : Z := 1769947200000.

Definition feed_source : jsstring := js "washington-dc".

(** An environment in which the three items sit in the first feed, the
    page of the first can be fetched and images download; [refused] says
    which requests the store turns down. *)
Definition env_with (now : Z) (refused : Op -> bool) : Env :=
  {| host := reference_host now;
     cheerio := lib;
     fetch_text := fun u => if JS.eqb u (link item) then Some page_html else None;
     fetch_image := fun _ => true;
     parseURL := fun u =>
       if JS.eqb u (js "https://bitcoinonly.events/tag/washington-dc/feed/")
       then Some [item; past_item; bare_item] else Some [];
     refuses := refused |}.

(** A healthy store, and one that turns down the existence query. *)
Definition env (now : Z) : Env := env_with now (fun _ => false).

Definition env_unreadable (now : Z) : Env :=
  env_with now (fun o => match o with OpListEvents => true | _ => false end).

(** A store that turns down uploads. *)
Definition env_no_upload (now : Z) : Env :=
  env_with now (fun o => match o with OpUploadFile => true | _ => false end).

(** The same environment with the event pages out of reach. *)
Definition offline (E : Env) : Env :=
  {| host := host E; cheerio := cheerio E;
     fetch_text := fun _ => None;
     fetch_image := fetch_image E; parseURL := parseURL E;
     refuses := refuses E |}.

(** What the extractor reads in the well-formed item. *)
Definition parsed : Parsed :=
  {| p_dateStr := Some (js "Monday, January 26, 2026");
     p_timeStr := Some (js "6:00 PM - 10:00 PM EST");
     p_venueName := Some (js "The Pub");
     p_venueAddress := Some (js "1 Main St, Washington, DC");
     p_imageUrl := Some (js "https://img.example/a.jpg");
     p_description :=
       js "An evening of sound money talk." ++ [10; 10]%N ++ js "MeetupLuma";
     p_rsvpUrl := Some (js "https://lu.ma/abc") |}.

End Sample.

(* ================================================================== *)
(** ** Notions used to state the results *)
(* ================================================================== *)

(** The three dash glyphs a time range may carry. *)
Definition hyphen : N := 45.
Definition en_dash : N := 8211.
Definition em_dash : N := 8212.

(** A time range written with dash [d] between two time tokens. *)
Definition time_range (startToken : jsstring) (d : N) (endToken : jsstring)
  : jsstring :=
  startToken ++ js " " ++ [d] ++ js " " ++ endToken.

(** The library cannot make an instant of an ISO string: the call throws,
    or the instance it returns is invalid. *)
Definition unreadable (h : Host) (iso : jsstring) : Prop :=
  match tz h iso with
  | None => True
  | Some d => isValid d = false
  end.

(** The ways the resolver gives up on a pair of strings. *)
Inductive DateFailure (h : Host) : option jsstring -> option jsstring -> Prop :=
| MissingInput d t :
    (truthy d && truthy t)%bool = false -> DateFailure h d t
| NoTimeRange d t :
    match_ timeRangePattern 2 t = None -> DateFailure h (Some d) (Some t)
| UnrecognizedDate d t tm :
    match_ timeRangePattern 2 t = Some tm ->
    match_date_strings (combined d (nth_str tm 1)) (combined d (nth_str tm 2))
    = None ->
    DateFailure h (Some d) (Some t)
| InvalidMonth d t tm startMatch endMatch :
    match_ timeRangePattern 2 t = Some tm ->
    match_date_strings (combined d (nth_str tm 1)) (combined d (nth_str tm 2))
    = Some (startMatch, endMatch) ->
    indexOf (nth_str startMatch 1) monthNames 0 = None
    \/ indexOf (nth_str endMatch 1) monthNames 0 = None ->
    DateFailure h (Some d) (Some t)
| UnreadableInstant d t tm startMatch endMatch sc ec :
    match_ timeRangePattern 2 t = Some tm ->
    match_date_strings (combined d (nth_str tm 1)) (combined d (nth_str tm 2))
    = Some (startMatch, endMatch) ->
    parseComponents startMatch = Some sc ->
    parseComponents endMatch = Some ec ->
    unreadable h (iso_of sc) \/ unreadable h (iso_of ec) ->
    DateFailure h (Some d) (Some t).

(** The requests sent between two states of the store. *)
Definition sent (s s' : Store.t) : list Request :=
  skipn (List.length (requests s)) (requests s').

(** At most one stored event per source URL. *)
Definition one_per_url (s : Store.t) : Prop :=
  forall u, (List.length (filter (has_url u) (events s)) <= 1)%nat.

(** The event an existence query for [u] finds: the first with that URL. *)
Definition found (u : jsstring) (s : Store.t) : option Event :=
  hd_error (filter (has_url u) (events s)).

(** Ids are unique among the stored events. *)
Definition unique_ids (s : Store.t) : Prop :=
  NoDup (List.map ev_id (events s)).

(** The fields a re-import may fill in. *)
Definition backfill_field (f : Fld.t) : bool :=
  match f with
  | Fld.image | Fld.rsvp_url | Fld.tags => true
  | _ => false
  end.

(** What the item offers for a back-fill field. *)
Definition offered (E : Env) (item : Item) (parsed : Parsed)
    (f : Fld.t) (v : value) : Prop :=
  match f with
  | Fld.image => truthy (p_imageUrl parsed) = true /\ exists i, v = VNum (Zpos i)
  | Fld.rsvp_url =>
      truthy (resolveRsvpUrl E item parsed) = true
      /\ v = of_str (resolveRsvpUrl E item parsed)
  | Fld.tags =>
      test bitplebsPattern (title item) = true /\ exists i, v = VNum (Zpos i)
  | _ => False
  end.

(** [e'] is [e] after a run: same id, and every field that was set, and
    every field other than image, RSVP URL and tag, is as it was. *)
Definition kept (e e' : Event) : Prop :=
  ev_id e' = ev_id e
  /\ forall f, truthy_v (field f e) = true \/ backfill_field f = false ->
               field f e' = field f e.

(** The hrefs of the content, in document order, empty ones left out. *)
Definition hrefs (doc : list node) : list jsstring :=
  flat_map (fun el => match attr (js "href") [el] with
                      | Some ((_ :: _) as h) => [h]
                      | _ => []
                      end)
           (select_tag (js "a") doc).

Definition is_luma (h : jsstring) : bool := includes (js "lu.ma/") h.

Definition is_meetup (h : jsstring) : bool :=
  (includes (js "meetup.com/") h || includes (js "meetu.ps/") h)%bool.

(** Two environments that differ at most in the pages they serve. *)
Definition same_but_pages (E1 E2 : Env) : Prop :=
  host E1 = host E2 /\ cheerio E1 = cheerio E2
  /\ fetch_image E1 = fetch_image E2 /\ refuses E1 = refuses E2.

(** Successive runs of the whole pipeline, each in its own environment. *)
Definition pipeline_runs (Es : list Env) (s : Store.t) : Store.t :=
  fold_left (fun s E => snd (main E s)) Es s.

(** The items a run processes, with the source label of their feed, in
    processing order. *)
Definition work_of (E : Env) (feeds : list FeedConfig)
  : list (Item * jsstring) :=
  flat_map (fun feedConfig =>
              match parseURL E (url feedConfig) with
              | None => []
              | Some items =>
                  List.map (fun item => (item, source feedConfig)) items
              end)
           feeds.

Definition work (E : Env) : list (Item * jsstring) := work_of E RSS_FEEDS.

(** Their results, in the same order, each with the requests the item
    sent to the store. *)
Fixpoint workResults (E : Env) (w : list (Item * jsstring))
  : M (list (Result * list Request)) :=
  match w with
  | [] => ret []
  | (item, feedSource) :: rest =>
      fun s =>
        let '(r, s1) := processRSSItem E item feedSource s in
        let '(rs, s2) := workResults E rest s1 in
        ((r, sent s s1) :: rs, s2)
  end.

(** Requests that touch neither the events nor their listing. *)
Definition aux_request (q : Request) : bool :=
  match q with
  | ListEvents _ | CreateEvent _ | UpdateEvent _ _ => false
  | _ => true
  end.

(** A step that leaves the events alone: it only uploads files and finds
    or creates venues and tags. *)
Record aux_only (E : Env) (s s1 : Store.t) : Prop := {
  aux_events : events s1 = events s;
  aux_requests :
    exists new, requests s1 = requests s ++ new
                /\ forallb aux_request new = true;
  aux_tags : refuses E OpCreateTag = true -> tags s1 = tags s
}.

(** The image of an item can be stored: it has a URL, the download works
    and the store takes the upload. *)
Definition image_available (E : Env) (imageUrl : option jsstring) : bool :=
  match imageUrl with
  | Some ((_ :: _) as u) => (fetch_image E u && negb (refuses E OpUploadFile))%bool
  | _ => false
  end.

(** A tag can be neither found nor created. *)
Definition tag_unavailable (E : Env) (tagName : jsstring) (s : Store.t) : bool :=
  (refuses E OpListTags
   || (negb (existsb (fun t => JS.eqb (t_name t) tagName) (tags s))
       && refuses E OpCreateTag))%bool.

(** What a re-import would add to a stored event [e]. *)
Definition wants_image (E : Env) (parsed : Parsed) (e : Event) : bool :=
  (negb (truthy_v (field Fld.image e))
   && image_available E (p_imageUrl parsed))%bool.

Definition wants_rsvp (rsvpUrl : option jsstring) (e : Event) : bool :=
  (negb (truthy_v (field Fld.rsvp_url e)) && truthy rsvpUrl)%bool.

Definition wants_tag (E : Env) (item : Item) (e : Event) (s : Store.t) : bool :=
  (test bitplebsPattern (title item)
   && negb (truthy_v (field Fld.tags e))
   && negb (tag_unavailable E (js "bitplebs") s))%bool.

(** The answers [processRSSItem] gives for an event that exists already. *)
Definition skip_existing (e : Event) : Result :=
  result Status.skipped (Some already_exists) (Some (ev_id e)).

Definition update_existing (e : Event) : Result :=
  result Status.updated (Some fields_updated) (Some (ev_id e)).

(** A link that is either absent or not empty. *)
Definition settled_link (v : option jsstring) : Prop :=
  v = None \/ truthy v = true.


(** An item that passes extraction, date resolution and the past check:
    the only items for which the store is consulted. *)
Definition candidate (E : Env) (item : Item) : option Parsed :=
  match parseEventDetails (cheerio E) (contentEncoded item) with
  | None => None
  | Some parsed =>
      match startDateTime (parseDateTime (host E) (p_dateStr parsed)
                                         (p_timeStr parsed)) with
      | Some ((_ :: _) as start) =>
          if isBefore (dayjs_of (host E) start) (dayjs_now (host E))
          then None else Some parsed
      | _ => None
      end
  end.

(** The stored event [e] already has whatever the item could add. *)
Definition complete (E : Env) (item : Item) (parsed : Parsed) (e : Event)
    (s : Store.t) : bool :=
  (negb (wants_image E parsed e)
   && negb (wants_rsvp (resolveRsvpUrl E item parsed) e)
   && negb (wants_tag E item e s))%bool.

(** Processing the item again would neither create nor update an event. *)
Definition quiet (E : Env) (item : Item) (s : Store.t) : Prop :=
  match candidate E item with
  | None => True
  | Some parsed =>
      match found (link item) s with
      | Some e =>
          refuses E OpUpdateEvent = true \/ complete E item parsed e s = true
      | None => refuses E OpCreateEvent = true
      end
  end.

(** The item has been processed with result [r], and the store has moved
    on to [s]: it is quiet, and if it was created, its event is there,
    under the id of [r], with nothing left to back-fill. *)
Definition done_as (E : Env) (item : Item) (r : Result) (s : Store.t) : Prop :=
  quiet E item s
  /\ (status r = Status.created ->
      exists parsed e,
        candidate E item = Some parsed
        /\ found (link item) s = Some e
        /\ complete E item parsed e s = true
        /\ id r = Some (ev_id e)).

(** [e'] is a later state of [e]: same id, and what was set is still set. *)
Definition grown (e e' : Event) : Prop :=
  ev_id e' = ev_id e
  /\ forall f, truthy_v (field f e) = true -> truthy_v (field f e') = true.

(** How the store moves while items are processed. *)
Record evolves (E : Env) (s s' : Store.t) : Prop := {
  ev_found :
    forall u e, found u s = Some e ->
                exists e', found u s' = Some e' /\ grown e e';
  ev_absent :
    refuses E OpCreateEvent = true ->
    forall u, found u s = None -> found u s' = None;
  ev_tags :
    tag_unavailable E (js "bitplebs") s' = tag_unavailable E (js "bitplebs") s
}.

(** A result that counts neither as created nor as updated. *)
Definition unchanged (r : Result) : Prop :=
  status r = Status.skipped \/ status r = Status.failed.

(** A request that writes no event. *)
Definition no_event_write (q : Request) : bool :=
  match q with
  | CreateEvent _ | UpdateEvent _ _ => false
  | _ => true
  end.

(** A second run leaves an item alone: it is skipped or fails again, and
    an item the first run created is skipped as already existing, under
    the id it was given, without an update request (its patch is empty). *)
Definition idle_after (first second : Result * list Request) : Prop :=
  unchanged (fst second)
  /\ (status (fst first) = Status.created ->
      fst second = result Status.skipped (Some already_exists) (id (fst first))
      /\ forallb no_event_write (snd second) = true).

(* ================================================================== *)
(** ** Further hosts, pages and notions used to state the results *)
(* ================================================================== *)

(** *** A host on US Pacific time

    The zone the script asks for by name is America/New_York on every
    host; what differs is the zone in which [dayjs(s)] reads a string
    without offset. *)

(** US Pacific time: the rule of US Eastern time, three hours later. *)
Definition us_pacific_offset (t : Z) : Z :=
  (us_eastern_offset (t - 3 * 3600000) - 180)%Z.

(** The instant whose wall clock, in a zone, reads [localTs]. *)
Definition read_in_zone (offset : Z -> Z) (localTs : Z) : Z :=
  (let guess := localTs - offset localTs * 60000 in
   localTs - offset guess * 60000)%Z.

Definition pacific_host (now : Z) : Host :=
  {| clock := now;
     zone_offset := us_eastern_offset;
     utc_parse := lenient_utc;
     local_parse := fun s =>
       option_map (read_in_zone us_pacific_offset) (lenient_utc s) |}.

(** 2026-01-27T00:00:00Z, which is 19:00 on January 26 in New York. *)
Definition seven_pm_eastern : Z := 1769472000000.

(** An environment with another host, or another HTML library. *)
Definition with_host (h : Host) (E : Env) : Env :=
  {| host := h; cheerio := cheerio E; fetch_text := fetch_text E;
     fetch_image := fetch_image E; parseURL := parseURL E;
     refuses := refuses E |}.

Definition with_lib (L : Lib) (E : Env) : Env :=
  {| host := host E; cheerio := L; fetch_text := fetch_text E;
     fetch_image := fetch_image E; parseURL := parseURL E;
     refuses := refuses E |}.

Definition with_pages (pages : jsstring -> option jsstring) (E : Env) : Env :=
  {| host := host E; cheerio := cheerio E; fetch_text := pages;
     fetch_image := fetch_image E; parseURL := parseURL E;
     refuses := refuses E |}.

(** *** The website field of an event page, in the words of the
    selector: the anchors that have an ancestor of the class. *)

(** Every node below [n], [n] included, with its ancestors (nearest
    first), in document order. *)
Fixpoint with_ancestors (anc : list node) (n : node)
  : list (list node * node) :=
  (anc, n) :: match n with
              | Text _ => []
              | Elem _ _ ks => flat_map (with_ancestors (n :: anc)) ks
              end.

(** A [t] element with an ancestor of class [c]. *)
Definition under_class (c t : jsstring) (p : list node * node) : bool :=
  (is_tag t (snd p) && existsb (has_class c) (fst p))%bool.

Definition website_class : jsstring := js "single_event_website".

Definition in_website_field (p : list node * node) : bool :=
  (is_tag (js "a") (snd p) && existsb (has_class website_class) (fst p))%bool.

Definition website_anchors (doc : list node) : list node :=
  List.map snd (filter in_website_field (flat_map (with_ancestors []) doc)).

(** The href of the first of them, when it is not empty. *)
Definition website_link (doc : list node) : option jsstring :=
  match website_anchors doc with
  | Elem _ attrs _ :: _ =>
      match assoc (js "href") attrs with
      | Some ((_ :: _) as h) => Some h
      | _ => None
      end
  | _ => None
  end.

(** What the scrape of an event page should give. *)
Definition website_of (E : Env) (eventUrl : jsstring) : option jsstring :=
  match fetch_text E eventUrl with
  | Some html => website_link (load (cheerio E) html)
  | None => None
  end.

(** *** The domain of a link *)

Fixpoint after_scheme (s : jsstring) : option jsstring :=
  match s with
  | [] => None
  | c :: t =>
      if starts_with (js "://") s then Some (skipn 3 s) else after_scheme t
  end.

Fixpoint take_until (stop : N -> bool) (s : jsstring) : jsstring :=
  match s with
  | [] => []
  | c :: t => if stop c then [] else c :: take_until stop t
  end.

(** The host name of an absolute URL: what stands between "://" and the
    next "/", "?" or "#". *)
Definition url_host (href : jsstring) : jsstring :=
  match after_scheme href with
  | Some rest => take_until (fun c => memN c [47; 63; 35]%N) rest
  | None => []
  end.

Definition ends_with (suffix s : jsstring) : bool :=
  starts_with (rev suffix) (rev s).

(** The link points to [domain] or to one of its subdomains. *)
Definition on_domain (domain href : jsstring) : bool :=
  (JS.eqb (url_host href) domain
   || ends_with (js "." ++ domain) (url_host href))%bool.

Definition rsvp_domain (href : jsstring) : bool :=
  (on_domain (js "lu.ma") href || on_domain (js "meetup.com") href
   || on_domain (js "meetu.ps") href)%bool.

(** *** More sample pages *)

Module More.

Import Sample.

(** A date that is not in the calendar. *)
Definition feb30_doc : list node :=
  paragraphs
    ++ [blockquote (js "# Monday, February 30, 2026")
                   (js "# Time: 6:00 PM - 10:00 PM EST"); links].

Definition blog_link : jsstring := js "https://blog.example/why-we-left-lu.ma/".
Definition meetup_link : jsstring := js "https://www.meetup.com/g/e/1/".
Definition tracker_link : jsstring :=
  js "https://tracker.example/out?to=meetup.com/&id=7".

Definition anchor (href : jsstring) (label : jsstring) : node :=
  Elem (js "a") [(js "href", href)] [Text label].

(** A Meetup link, then a link to a page about Luma. *)
Definition blog_doc : list node :=
  paragraphs
    ++ [blockquote (js "# Monday, January 26, 2026")
                   (js "# Time: 6:00 PM - 10:00 PM EST");
        Elem (js "p") [] [anchor meetup_link (js "Meetup");
                          anchor blog_link (js "Why we left")]].

(** One link, to neither site. *)
Definition tracker_doc : list node :=
  paragraphs
    ++ [blockquote (js "# Monday, January 26, 2026")
                   (js "# Time: 6:00 PM - 10:00 PM EST");
        Elem (js "p") [] [anchor tracker_link (js "Details")]].

(** An event page with links around its website field. *)
Definition portal_doc : list node :=
  [ Elem (js "nav") []
         [anchor (js "https://bitcoinonly.events/") (js "Home")];
    Elem (js "div") [(js "class", js "row single_event_website")]
         [ Elem (js "span") []
                [anchor (js "https://venue.example/rsvp") (js "Website")] ];
    Elem (js "footer") [(js "class", js "single_event_footer")]
         [anchor (js "https://lu.ma/other") (js "More events")] ].

Definition feb30_html : jsstring := js "<item of February 30>".
Definition blog_html : jsstring := js "<item with a blog link>".
Definition tracker_html : jsstring := js "<item with a tracker link>".
Definition portal_html : jsstring := js "<event page with navigation>".

Definition pages : list (jsstring * list node) :=
  [(feb30_html, feb30_doc); (blog_html, blog_doc);
   (tracker_html, tracker_doc); (portal_html, portal_doc)].

Definition lib : Lib :=
  {| load := fun s =>
       match find (fun p => JS.eqb s (fst p)) pages with
       | Some p => snd p
       | None => load Sample.lib s
       end;
     inner_html := inner_html Sample.lib |}.

(** On the day the sample clock shows, every event page is the portal. *)
Definition env : Env :=
  with_pages (fun _ => Some portal_html)
             (with_lib lib (Sample.env new_year)).

End More.
(* ================================================================== *)
(** ** Further notions: counters, names and the requests of an item *)
(* ================================================================== *)

(** Every item of a feed is counted in exactly one of the four buckets. *)
Definition accounted (c : Counters) : Prop :=
  total c = (created c + updated c + skipped c + failed c)%nat.

(** At most one record per name. *)
Definition one_per_name {A} (name : A -> jsstring) (l : list A) : Prop :=
  forall n, (List.length (filter (fun x => JS.eqb (name x) n) l) <= 1)%nat.

Definition names_unique (s : Store.t) : Prop :=
  one_per_name t_name (tags s) /\ one_per_name v_name (venues s).

(** The requests of each kind in a list of requests. *)
Definition is_create (q : Request) : bool :=
  match q with CreateEvent _ => true | _ => false end.

Definition is_update (q : Request) : bool :=
  match q with UpdateEvent _ _ => true | _ => false end.

Definition is_query (q : Request) : bool :=
  match q with ListEvents _ => true | _ => false end.

(** The write to the events that ends the requests of an item, if any. *)
Inductive EventWrite (E : Env) (item : Item) (s : Store.t)
  : list Request -> Prop :=
| NoWrite : EventWrite E item s []
| WriteUpdate e patch :
    refuses E OpListEvents = false ->
    found (link item) s = Some e ->
    patch <> [] ->
    EventWrite E item s [UpdateEvent (ev_id e) patch]
| WriteCreate data :
    refuses E OpListEvents = true \/ found (link item) s = None ->
    EventWrite E item s [CreateEvent data].

(** The answers of [processRSSItem], by status. *)
Definition well_formed_result (r : Result) : Prop :=
  match status r with
  | Status.created => reason r = None /\ id r <> None
  | Status.updated => reason r = Some fields_updated /\ id r <> None
  | Status.skipped =>
      (reason r = Some past_event /\ id r = None)
      \/ (reason r = Some already_exists /\ id r <> None)
  | Status.failed =>
      (reason r = Some parse_error \/ reason r = Some date_parse_error
       \/ reason r = Some create_error)
      /\ id r = None
  end.

(** The record [r] of a collection answers to [name] under id [i]. *)
Definition tag_named (n : jsstring) (i : positive) (t : Tag) : Prop :=
  t_id t = i /\ t_name t = n.

Definition venue_named (n : jsstring) (i : positive) (v : Venue) : Prop :=
  v_id v = i /\ v_name v = n.

(** The counters that a list of results amounts to. *)
Definition has_status (st : Status.t) (r : Result) : bool :=
  match status r, st with
  | Status.created, Status.created
  | Status.updated, Status.updated
  | Status.skipped, Status.skipped
  | Status.failed, Status.failed => true
  | _, _ => false
  end.

Definition tally (rs : list Result) : Counters :=
  {| total := List.length rs;
     created := List.length (filter (has_status Status.created) rs);
     updated := List.length (filter (has_status Status.updated) rs);
     skipped := List.length (filter (has_status Status.skipped) rs);
     failed := List.length (filter (has_status Status.failed) rs) |}.

(** The results of a run, item by item. *)
Definition results_of (E : Env) (s : Store.t) : list Result :=
  List.map fst (fst (workResults E (work E) s)).

Definition one_if (b : bool) : nat := if b then 1%nat else 0%nat.

(** A computation that keeps a property of the store. *)
Definition preserves (P : Store.t -> Prop) {A} (m : M A) : Prop :=
  forall s, P s -> P (snd (m s)).

(** A store that answers no lookup: every list request is turned down. *)
Definition env_no_lookup (now : Z) : Env :=
  Sample.env_with now (fun o => match o with
                                | OpListEvents | OpListVenues | OpListTags => true
                                | _ => false
                                end).
(* ================================================================== *)
(** ** Notions for the matcher and the resolver on well-formed input *)
(* ================================================================== *)

(** The matcher state after [pre] has been read, with [rest] to read. *)
Definition at_ (pre rest : jsstring) (c : caps) : mstate :=
  MState (List.length pre) rest c.

(** Started after [pre], the pattern [r] hands over after [pre'], and an
    answer of what follows there is the answer of the whole: no way the
    matcher tries earlier succeeds. *)
Definition matches_to (r : re) (pre rest : jsstring) (c : caps)
    (pre' rest' : jsstring) (c' : caps) : Prop :=
  forall k x, k (at_ pre' rest' c') = Some x -> run r k (at_ pre rest c) = Some x.

(** [r] reads exactly [w] before [rest], and makes no capture. *)
Definition reads (r : re) (w rest : jsstring) : Prop :=
  forall pre c, matches_to r pre (w ++ rest) c (pre ++ w) rest c.

(** The input does not go on with a code unit of the class. *)
Definition stops (p : N -> bool) (rest : jsstring) : Prop :=
  match rest with
  | [] => True
  | c :: _ => p c = false
  end.

(** A run of decimal digits, a run of word characters. *)
Definition number (s : jsstring) : Prop :=
  s <> [] /\ forallb is_digit s = true.

Definition word (s : jsstring) : Prop :=
  s <> [] /\ forallb is_word s = true.

(** The name of a weekday, or whatever stands for it: it has no comma
    and does not begin with white space. *)
Definition comma_free (s : jsstring) : Prop :=
  forallb (fun c => negb (N.eqb c 44)) s = true
  /\ match s with
     | c :: _ => is_space c = false
     | [] => False
     end.

(** "AM" ([pm = false]) or "PM" ([pm = true]), in any letter case. *)
Definition meridiem (pm : bool) (s : jsstring) : Prop :=
  match s with
  | [a; m] => upper a = (if pm then 80 else 65)%N /\ upper m = 77%N
  | _ => False
  end.

(** Hours of the twelve-hour clock on the twenty-four-hour clock, as
    [parseComponents] converts them. *)
Definition hour24 (hour : Z) (pm : bool) : Z :=
  if pm then (if (hour =? 12)%Z then hour else hour + 12)%Z
  else (if (hour =? 12)%Z then 0 else hour)%Z.

(** The components a date line and a time token stand for. *)
Definition components_of (month : Z) (day year hour minute : jsstring)
    (pm : bool) : components :=
  {| c_year := parseInt year; c_month := month; c_day := parseInt day;
     c_hour := hour24 (parseInt hour) pm; c_minute := parseInt minute |}.

(** What the date library makes of two sets of components. *)
Definition instants (h : Host) (sc ec : components) : DateTimes :=
  match tz h (iso_of sc), tz h (iso_of ec) with
  | Some a, Some b =>
      if (negb (isValid a) || negb (isValid b))%bool then no_dates
      else {| startDateTime := Some (format a);
              endDateTime := Some (format b) |}
  | _, _ => no_dates
  end.

(** A date line and a time token, as the feed writes them. *)
Definition date_line (weekday month day year : jsstring) : jsstring :=
  weekday ++ js ", " ++ month ++ js " " ++ day ++ js ", " ++ year.

Definition time_of_day (hour minute ampm : jsstring) : jsstring :=
  hour ++ js ":" ++ minute ++ js " " ++ ampm.

(** The classes [[AP]] and [M] under the [i] flag. *)
Definition is_ap (x : N) : bool :=
  existsb (fun a => N.eqb (upper a) (upper x)) [65; 80]%N.

Definition is_m (x : N) : bool := N.eqb (upper x) (upper 77).

(** A digit with AM or PM right after it, at the start of the string or
    somewhere in it. *)
Definition glue_at (s : jsstring) : bool :=
  match s with
  | d :: a :: m :: _ => (is_digit d && is_ap a && is_m m)%bool
  | _ => false
  end.

Fixpoint glued (s : jsstring) : bool :=
  (glue_at s || match s with
                | [] => false
                | _ :: t => glued t
                end)%bool.
(* ================================================================== *)
(** ** Notions for the content extractor *)
(* ================================================================== *)

(** The paragraph at which the description ends: its text holds "Time:"
    or "Find Hotels". *)
Definition ends_description (el : node) : bool :=
  (includes (js "Time:") (trim (text el))
   || includes (js "Find Hotels") (trim (text el)))%bool.

(** A paragraph that says something: its text is not blank and it holds
    no image. *)
Definition says_something (el : node) : bool :=
  (truthy (Some (trim (text el)))
   && Nat.eqb (List.length (find_tag (js "img") el)) 0)%bool.

(** The paragraphs before the first that ends the description. *)
Fixpoint before_end (ps : list node) : list node :=
  match ps with
  | [] => []
  | el :: rest => if ends_description el then [] else el :: before_end rest
  end.
(* ================================================================== *)
(** ** Times written with or without a space before AM or PM *)
(* ================================================================== *)

Definition time_written (space : bool) (hour minute ampm : jsstring)
  : jsstring :=
  hour ++ js ":" ++ minute ++ (if space then js " " else []) ++ ampm.
(* ================================================================== *)
(** ** The lines of a blockquote, as the feed writes them *)
(* ================================================================== *)

(** A code unit of [[^\w\s]]: an emoji half, a bullet, a punctuation
    mark. *)
Definition is_glyph (c : N) : bool := negb (is_word c || is_space c).

(** A run of such code units, and a run of white space, maybe empty. *)
Definition symbols (s : jsstring) : Prop :=
  s <> [] /\ forallb is_glyph s = true.

Definition blanks (s : jsstring) : Prop := forallb is_space s = true.

(** A text that begins with a word character and does not end with white
    space. *)
Definition plain (s : jsstring) : Prop :=
  match s with
  | c :: _ => is_word c = true
  | [] => False
  end
  /\ match rev s with
     | z :: _ => is_space z = false
     | [] => False
     end.

(** A line that opens with symbols, and the line of the time, which has
    the label "Time:" after them. *)
Definition row (g sp body : jsstring) : jsstring := g ++ sp ++ body.

Definition time_row (g sp sp' time : jsstring) : jsstring :=
  g ++ sp ++ js "Time:" ++ sp' ++ time.

(** The pattern hands over at [s'] when started at [s]: some way through
    it leads there, so that it succeeds if what follows does. *)
Definition passes (r : re) (s s' : mstate) : Prop :=
  forall k, k s' <> None -> run r k s <> None.

(** The label "Time:", in any letter case, at the start of the string. *)
Definition label_at (s : jsstring) : bool :=
  match s with
  | t :: i :: m :: e :: c :: _ =>
      (N.eqb (upper t) 84 && N.eqb (upper i) 73 && N.eqb (upper m) 77
       && N.eqb (upper e) 69 && N.eqb (upper c) 58)%bool
  | _ => false
  end.

Fixpoint labelled (s : jsstring) : bool :=
  (label_at s || match s with
                 | [] => false
                 | _ :: t => labelled t
                 end)%bool.

(** The state of the line loop once its four fields are found. *)
Definition fields_found (date time venue address : jsstring) : LineState :=
  {| ls_date := Some date; ls_time := Some time;
     ls_venueName := Some venue; ls_venueAddress := Some address |}.

(** Where a field of the loop comes from: a line that the test of the
    field accepts. *)
Definition line (lines : list jsstring) (i : nat) : jsstring := nth i lines [].

Definition venue_line (lines : list jsstring) (i : nat) : Prop :=
  (0 < i < List.length lines)%nat
  /\ test glyphStartPattern (line lines i) = true
  /\ includes (js "Time") (line lines i) = false.

Definition date_from (lines : list jsstring) (d : jsstring) : Prop :=
  exists i, (i < List.length lines)%nat
            /\ test dateLinePattern (line lines i) = true
            /\ d = strip leadingGlyphPattern (line lines i).

Definition time_from (lines : list jsstring) (t : jsstring) : Prop :=
  exists i, (i < List.length lines)%nat
            /\ test timeLinePattern (line lines i) = true
            /\ t = strip timePrefixPattern (line lines i).

Definition venue_from (lines : list jsstring) (v : jsstring) : Prop :=
  exists i, venue_line lines i
            /\ v = strip leadingGlyphPattern (line lines i).

Definition address_from (lines : list jsstring) (a : jsstring) : Prop :=
  exists i, venue_line lines i
            /\ (i + 1 < List.length lines)%nat
            /\ a = trim (line lines (i + 1))
            /\ a <> []
            /\ includes (js "Time") a = false
            /\ test glyphStartPattern a = false.

Definition sound (lines : list jsstring) (st : LineState) : Prop :=
  (forall d, ls_date st = Some d -> date_from lines d)
  /\ (forall t, ls_time st = Some t -> time_from lines t)
  /\ (forall v, ls_venueName st = Some v -> venue_from lines v)
  /\ (forall a, ls_venueAddress st = Some a -> address_from lines a).
(* ================================================================== *)
(** ** References from events to venues, files and tags *)
(* ================================================================== *)

Definition venue_stored (s : Store.t) (i : positive) : Prop :=
  exists v, In v (venues s) /\ v_id v = i.

Definition file_stored (s : Store.t) (i : positive) : Prop := In i (files s).

Definition tag_stored (s : Store.t) (i : positive) : Prop :=
  exists t, In t (tags s) /\ t_id t = i.

(** The venue, the image and the tag an event points to are in the
    store. *)
Definition event_valid (s : Store.t) (e : Event) : Prop :=
  (forall i, field Fld.location e = VNum (Zpos i) -> venue_stored s i)
  /\ (forall i, field Fld.image e = VNum (Zpos i) -> file_stored s i)
  /\ (forall i, field Fld.tags e = VNum (Zpos i) -> tag_stored s i).

Definition refs_valid (s : Store.t) : Prop :=
  forall e, In e (events s) -> event_valid s e.

(** [s'] has the events of [s], and its venues, files and tags, maybe
    with more of these. *)
Definition extends (s s' : Store.t) : Prop :=
  events s' = events s
  /\ incl (venues s) (venues s')
  /\ incl (files s) (files s')
  /\ incl (tags s) (tags s').

(** A helper that leaves the events alone and whose answer, when it has
    one, is the id of a record of the store. *)
Definition helper_ok (holds : Store.t -> positive -> Prop)
    (m : M (option positive)) : Prop :=
  forall s, extends s (snd (m s))
            /\ forall i, fst (m s) = Some i -> holds (snd (m s)) i.
(* ================================================================== *)
(** ** The date/time resolver: results *)
(* ================================================================== *)

Section DateTime.

Variable h : Host.

Lemma padStart0_app_nonempty (w : nat) (s t : jsstring) :
  padStart0 w s ++ js "-" ++ t <> [].
Proof.
  unfold padStart0. destruct (repeat 48%N (w - List.length s) ++ s); discriminate.
Qed.

(** A formatted instant is never the empty string. *)
Lemma format_nonempty (d : dayjs) : format d <> [].
Proof.
  unfold format. destruct (d_ts d); [|discriminate].
  destruct (civil_from_days _) as [[y m] dd].
  apply padStart0_app_nonempty.
Qed.

Lemma format_truthy (d : dayjs) : truthy (Some (format d)) = true.
Proof.
  pose proof (format_nonempty d). simpl. destruct (format d); congruence.
Qed.

(** The resolver answers with two formatted instants or with two nulls. *)
Lemma parseDateTime_shape (dateStr timeStr : option jsstring) :
  parseDateTime h dateStr timeStr = no_dates
  \/ exists a b,
       parseDateTime h dateStr timeStr
       = {| startDateTime := Some (format a); endDateTime := Some (format b) |}.
Proof.
  unfold parseDateTime.
  repeat match goal with
         | |- context [match ?x with _ => _ end] => destruct x
         end; eauto.
Qed.

Lemma parseComponents_month (m : list jsstring) :
  indexOf (nth_str m 1) monthNames 0 = None -> parseComponents m = None.
Proof. unfold parseComponents. intros ->. reflexivity. Qed.

(** Every failure mode ends in the pair of nulls. *)
Lemma DateFailure_no_dates (d t : option jsstring) :
  DateFailure h d t -> parseDateTime h d t = no_dates.
Proof.
  intros F. destruct F as
      [d t Hm | d t Ht | d t tm Ht Hd | d t tm sm em Ht Hd Hmo
       | d t tm sm em sc ec Ht Hd Hs He Hu].
  - unfold parseDateTime.
    destruct d as [[|? ?]|]; destruct t as [[|? ?]|]; try reflexivity;
      discriminate.
  - unfold parseDateTime. destruct d; destruct t; try reflexivity.
    rewrite Ht. reflexivity.
  - unfold parseDateTime. destruct d; destruct t; try reflexivity.
    rewrite Ht, Hd. reflexivity.
  - unfold parseDateTime. destruct d; destruct t; try reflexivity.
    rewrite Ht, Hd.
    destruct Hmo as [Hmo | Hmo]; rewrite (parseComponents_month _ Hmo).
    + reflexivity.
    + destruct (parseComponents sm); reflexivity.
  - unfold parseDateTime. destruct d; destruct t; try reflexivity.
    rewrite Ht, Hd, Hs, He. unfold unreadable in Hu.
    destruct (tz h (iso_of sc)) as [a|]; [|reflexivity].
    destruct (tz h (iso_of ec)) as [b|]; [|reflexivity].
    destruct Hu as [Hu | Hu]; rewrite Hu; simpl; [reflexivity|].
    destruct (isValid a); reflexivity.
Qed.

End DateTime.

(** With a hyphen the sample range is resolved as written: 18:00 and
    22:00 on 2026-01-26, as civil time. *)
Lemma hyphen_range_resolved :
  parseDateTime (reference_host Sample.new_year)
                (Some (js "Monday, January 26, 2026"))
                (Some (time_range (js "6:00 PM") hyphen (js "10:00 PM EST")))
  = {| startDateTime := Some (js "2026-01-26T18:00:00");
       endDateTime := Some (js "2026-01-26T22:00:00") |}.
Proof. vm_compute. reflexivity. Qed.

(** C5. On the date "Monday, January 26, 2026" and the time range
    "6:00 PM — 10:00 PM EST", written with U+2014, the resolver of the
    script returns null for both instants, whatever the host: the bracket
    of its time-range pattern holds U+00E2, U+20AC, U+201D, U+201C and the
    hyphen, and no em dash. *)
Theorem em_dash_range_unresolved (h : Host) :
  parseDateTime h (Some (js "Monday, January 26, 2026"))
                (Some (time_range (js "6:00 PM") em_dash (js "10:00 PM EST")))
  = no_dates.
Proof. vm_compute. reflexivity. Qed.

(** C6. The three dash variants of one range do not parse alike: on
    every host the en dash and the em dash variant return nulls, while
    the hyphen variant of the same date and time tokens resolves. *)
Theorem dash_variants_disagree :
  let parse h d :=
    parseDateTime h (Some (js "Monday, January 26, 2026"))
                  (Some (time_range (js "6:00 PM") d (js "10:00 PM"))) in
  (forall h, parse h en_dash = no_dates /\ parse h em_dash = no_dates)
  /\ parse (reference_host Sample.new_year) hyphen
     = {| startDateTime := Some (js "2026-01-26T18:00:00");
          endDateTime := Some (js "2026-01-26T22:00:00") |}
  /\ parse (reference_host Sample.new_year) hyphen
     <> parse (reference_host Sample.new_year) em_dash.
Proof.
  cbv zeta. split; [|split].
  - intros h. split; vm_compute; reflexivity.
  - vm_compute. reflexivity.
  - vm_compute. discriminate.
Qed.

(** C7. A day beyond the end of its month is not rejected. On the date
    "Monday, February 30, 2026" the resolver does not return nulls: the
    string 2026-02-30T18:00:00 it builds passes the validity check, since
    the date library carries the day over, and the instants returned are
    those of March 2. The item does not fail with date_parse_error: an
    event is created with that start. *)
Theorem february_30_is_resolved :
  parseDateTime (reference_host Sample.new_year)
                (Some (js "Monday, February 30, 2026"))
                (Some (js "6:00 PM - 10:00 PM EST"))
  = {| startDateTime := Some (js "2026-03-02T18:00:00");
       endDateTime := Some (js "2026-03-02T22:00:00") |}
  /\ parseDateTime (reference_host Sample.new_year)
                   (Some (js "Monday, February 30, 2026"))
                   (Some (js "6:00 PM - 10:00 PM EST"))
     <> no_dates
  /\ let E := with_lib More.lib (Sample.env Sample.new_year) in
     let x := processRSSItem E (Sample.item_of More.feb30_html)
                             Sample.feed_source Store.empty in
     option_map p_dateStr
                (parseEventDetails (cheerio E) More.feb30_html)
     = Some (Some (js "Monday, February 30, 2026"))
     /\ fst x = result Status.created None (Some 4%positive)
     /\ List.map (field Fld.start_date_time) (events (snd x))
        = [VStr (js "2026-03-02T18:00:00")].
Proof.
  split; [vm_compute; reflexivity|]. split; [vm_compute; discriminate|].
  cbv zeta. split; [vm_compute; reflexivity|].
  split; vm_compute; reflexivity.
Qed.

(** The failure modes on concrete strings. *)
Example missing_time_fails (h : Host) :
  parseDateTime h (Some (js "Monday, January 26, 2026")) None = no_dates.
Proof. reflexivity. Qed.

Example no_time_range_fails (h : Host) :
  parseDateTime h (Some (js "Monday, January 26, 2026")) (Some (js "6 PM"))
  = no_dates.
Proof. vm_compute. reflexivity. Qed.

Example unrecognized_date_fails (h : Host) :
  parseDateTime h (Some (js "next Monday")) (Some (js "6:00 PM - 10:00 PM"))
  = no_dates.
Proof. vm_compute. reflexivity. Qed.

Example invalid_month_fails (h : Host) :
  parseDateTime h (Some (js "Monday, Janvier 26, 2026"))
                (Some (js "6:00 PM - 10:00 PM"))
  = no_dates.
Proof. vm_compute. reflexivity. Qed.

Example short_year_fails :
  parseDateTime (reference_host Sample.new_year)
                (Some (js "Monday, January 26, 26"))
                (Some (js "6:00 PM - 10:00 PM"))
  = no_dates.
Proof. vm_compute. reflexivity. Qed.

(* ================================================================== *)
(** ** Strings, objects and requests: basic facts *)
(* ================================================================== *)

Lemma eqb_eq (a b : jsstring) : JS.eqb a b = true <-> a = b.
Proof.
  revert b. induction a as [|x a IH]; intros [|y b]; simpl; split;
    try congruence; try reflexivity; try discriminate.
  - intros H. apply andb_true_iff in H as [Hx Hab].
    apply N.eqb_eq in Hx. apply IH in Hab. congruence.
  - intros H. injection H as -> ->. rewrite N.eqb_refl. simpl.
    apply IH. reflexivity.
Qed.

Lemma eqb_refl (a : jsstring) : JS.eqb a a = true.
Proof. apply eqb_eq. reflexivity. Qed.

Lemma Fld_eqb_refl (f : Fld.t) : Fld.eqb f f = true.
Proof. unfold Fld.eqb. destruct (Fld.eq_dec f f); congruence. Qed.

Lemma Fld_eqb_neq (f g : Fld.t) : f <> g -> Fld.eqb f g = false.
Proof. unfold Fld.eqb. destruct (Fld.eq_dec f g); congruence. Qed.

Lemma get_app (f : Fld.t) (p o : obj) :
  get f (p ++ o) = if existsb (Fld.eqb f) (keys p) then get f p else get f o.
Proof.
  induction p as [|[k v] p IH]; simpl; [reflexivity|].
  destruct (Fld.eqb f k); simpl; [reflexivity | apply IH].
Qed.

Lemma filter_nil_existsb {A} (p : A -> bool) (l : list A) :
  filter p l = [] <-> existsb p l = false.
Proof.
  induction l as [|x l IH]; simpl; [tauto|].
  destruct (p x); simpl; [split; discriminate | exact IH].
Qed.

Lemma sent_app (s s' : Store.t) (new : list Request) :
  requests s' = requests s ++ new -> sent s s' = new.
Proof.
  intros H. unfold sent. rewrite H.
  rewrite skipn_app, skipn_all, Nat.sub_diag. reflexivity.
Qed.

Lemma sent_same (s : Store.t) : sent s s = [].
Proof. apply sent_app. rewrite app_nil_r. reflexivity. Qed.

(* ================================================================== *)
(** ** Requests and helpers *)
(* ================================================================== *)

Section Helpers.

Variable E : Env.

Lemma send_eq {A} (r : Request) (accept : Store.t -> A * Store.t) (s : Store.t) :
  send E r accept s
  = if refuses E (op_of r) then (None, log r s)
    else (Some (fst (accept (log r s))), snd (accept (log r s))).
Proof.
  unfold send. destruct (refuses E (op_of r)); [reflexivity|].
  destruct (accept (log r s)); reflexivity.
Qed.

Lemma aux_only_refl (s : Store.t) : aux_only E s s.
Proof.
  split; [reflexivity | | reflexivity].
  exists []. rewrite app_nil_r. split; reflexivity.
Qed.

Lemma aux_only_trans (s1 s2 s3 : Store.t) :
  aux_only E s1 s2 -> aux_only E s2 s3 -> aux_only E s1 s3.
Proof.
  intros [e1 [n1 [r1 a1]] t1] [e2 [n2 [r2 a2]] t2]. split.
  - congruence.
  - exists (n1 ++ n2). rewrite r2, r1, app_assoc. split; [reflexivity|].
    rewrite forallb_app, a1, a2. reflexivity.
  - intros H. rewrite (t2 H), (t1 H). reflexivity.
Qed.

Lemma aux_only_log (q : Request) (s : Store.t) :
  aux_request q = true -> aux_only E s (log q s).
Proof.
  intros H. split; [reflexivity | | reflexivity].
  exists [q]. simpl. rewrite H. split; reflexivity.
Qed.

(** The upload either is refused or yields a fresh file id. *)
Lemma uploadFile_spec (u : jsstring) (s : Store.t) :
  aux_only E s (snd (uploadFile E u s))
  /\ fst (uploadFile E u s)
     = if refuses E OpUploadFile then None else Some (next_id s).
Proof.
  unfold uploadFile. rewrite send_eq. simpl.
  destruct (refuses E OpUploadFile); simpl.
  - split; [|reflexivity]. apply aux_only_log. reflexivity.
  - split; [|reflexivity].
    split; simpl; [reflexivity | | reflexivity].
    exists [UploadFile u]. split; reflexivity.
Qed.

Lemma downloadAndUploadImage_spec (imageUrl : option jsstring) (s : Store.t) :
  aux_only E s (snd (downloadAndUploadImage E imageUrl s))
  /\ (fst (downloadAndUploadImage E imageUrl s) = None
      <-> image_available E imageUrl = false).
Proof.
  unfold downloadAndUploadImage, image_available.
  destruct imageUrl as [[|c u]|]; simpl;
    try (split; [apply aux_only_refl | tauto]).
  destruct (fetch_image E (c :: u)); simpl.
  - destruct (uploadFile_spec (c :: u) s) as [Ha Hr]. split; [exact Ha|].
    rewrite Hr. destruct (refuses E OpUploadFile); simpl; split; congruence.
  - split; [apply aux_only_refl | tauto].
Qed.

Lemma findOrCreateVenue_spec (venueName venueAddress : option jsstring)
    (s : Store.t) :
  aux_only E s (snd (findOrCreateVenue E venueName venueAddress s)).
Proof.
  unfold findOrCreateVenue.
  destruct venueName as [[|c n]|]; simpl; try apply aux_only_refl.
  unfold bind, listVenues. rewrite send_eq. simpl.
  destruct (refuses E OpListVenues); simpl.
  - apply aux_only_log. reflexivity.
  - destruct (filter _ (venues s)) as [|v ?]; simpl.
    + unfold createVenue. rewrite send_eq. simpl.
      destruct (refuses E OpCreateVenue); simpl.
      * eapply aux_only_trans; apply aux_only_log; reflexivity.
      * split; simpl; [reflexivity | | reflexivity].
        eexists [_; _]. simpl. rewrite <- app_assoc. split; reflexivity.
    + apply aux_only_log. reflexivity.
Qed.

Lemma findOrCreateTag_spec (c : N) (n : jsstring) (s : Store.t) :
  aux_only E s (snd (findOrCreateTag E (c :: n) s))
  /\ (fst (findOrCreateTag E (c :: n) s) = None
      <-> tag_unavailable E (c :: n) s = true).
Proof.
  unfold findOrCreateTag, tag_unavailable.
  unfold bind, listTags. rewrite send_eq. simpl op_of.
  destruct (refuses E OpListTags); simpl.
  - split; [apply aux_only_log; reflexivity | tauto].
  - destruct (filter (fun t => JS.eqb (t_name t) (c :: n)) (tags s))
      as [|t l] eqn:Hf.
    + apply filter_nil_existsb in Hf. simpl in Hf. rewrite Hf. simpl.
      unfold createTag. rewrite send_eq. simpl.
      destruct (refuses E OpCreateTag) eqn:Hc; simpl.
      * split; [|tauto].
        eapply aux_only_trans; apply aux_only_log; reflexivity.
      * split; [|split; discriminate].
        split; simpl; [reflexivity | | congruence].
        eexists [_; _]. simpl. rewrite <- app_assoc. split; reflexivity.
    + assert (Hx : existsb (fun t => JS.eqb (t_name t) (c :: n)) (tags s) = true).
      { destruct (existsb _ (tags s)) eqn:Hx; [reflexivity|].
        apply filter_nil_existsb in Hx. simpl in Hx. congruence. }
      simpl in Hx. rewrite Hx. simpl.
      split; [apply aux_only_log; reflexivity | split; discriminate].
Qed.

End Helpers.

(* ================================================================== *)
(** ** The engine, step by step *)
(* ================================================================== *)

Arguments findOrCreateTag : simpl never.
Arguments findOrCreateVenue : simpl never.
Arguments downloadAndUploadImage : simpl never.
Arguments updatesNeeded : simpl never.
Arguments createNewEvent : simpl never.
Arguments parseEventDetails : simpl never.
Arguments parseDateTime : simpl never.
Arguments test : simpl never.
Arguments js : simpl never.

Section Engine.

Variable E : Env.

Lemma tag_unavailable_aux (n : jsstring) (s s1 : Store.t) :
  aux_only E s s1 -> tag_unavailable E n s1 = tag_unavailable E n s.
Proof.
  intros [_ _ Ht]. unfold tag_unavailable.
  destruct (refuses E OpCreateTag).
  - rewrite Ht; reflexivity.
  - rewrite !andb_false_r. reflexivity.
Qed.

Lemma bitplebs_cons : exists c n, js "bitplebs" = c :: n.
Proof. eexists. eexists. reflexivity. Qed.

(** The patch for an existing event, field by field. *)
Lemma updatesNeeded_spec (item : Item) (parsed : Parsed)
    (rsvpUrl : option jsstring) (e : Event) (s : Store.t) :
  aux_only E s (snd (updatesNeeded E item parsed rsvpUrl e s))
  /\ exists i t,
       fst (updatesNeeded E item parsed rsvpUrl e s)
       = (if wants_image E parsed e then [(Fld.image, VNum (Zpos i))] else [])
           ++ (if wants_rsvp rsvpUrl e then [(Fld.rsvp_url, of_str rsvpUrl)] else [])
           ++ (if wants_tag E item e s then [(Fld.tags, VNum (Zpos t))] else []).
Proof.
  unfold updatesNeeded, wants_image, wants_rsvp, wants_tag, bind, ret.
  set (imageStep :=
         if (negb (truthy_v (field Fld.image e)) && truthy (p_imageUrl parsed))%bool
         then _ else _).
  assert (Him : aux_only E s (snd (imageStep s))
                /\ exists i, fst (imageStep s)
                   = if (negb (truthy_v (field Fld.image e))
                         && image_available E (p_imageUrl parsed))%bool
                     then [(Fld.image, VNum (Zpos i))] else []).
  { subst imageStep.
    destruct (truthy_v (field Fld.image e)); simpl.
    - split; [apply aux_only_refl | exists 1%positive; reflexivity].
    - destruct (truthy (p_imageUrl parsed)) eqn:Hu; simpl.
      + destruct (downloadAndUploadImage_spec E (p_imageUrl parsed) s) as [Ha Hr].
        destruct (downloadAndUploadImage E (p_imageUrl parsed) s) as [[i|] s1];
          simpl in *.
        * split; [exact Ha|]. exists i.
          destruct (image_available E (p_imageUrl parsed)); [reflexivity|].
          destruct Hr as [_ Hr]. discriminate (Hr eq_refl).
        * split; [exact Ha|]. exists 1%positive.
          destruct Hr as [Hr _]. rewrite (Hr eq_refl). reflexivity.
      + split; [apply aux_only_refl|]. exists 1%positive.
        unfold image_available.
        destruct (p_imageUrl parsed) as [[|? ?]|]; try reflexivity.
        discriminate. }
  destruct Him as [Ha1 [i Hi]].
  destruct (imageStep s) as [imagePart s1]. simpl in Ha1, Hi. subst imagePart.
  set (tagStep :=
         if (test bitplebsPattern (title item)
             && negb (truthy_v (field Fld.tags e)))%bool
         then _ else _).
  assert (Htag : aux_only E s1 (snd (tagStep s1))
                 /\ exists t, fst (tagStep s1)
                    = if (test bitplebsPattern (title item)
                          && negb (truthy_v (field Fld.tags e))
                          && negb (tag_unavailable E (js "bitplebs") s1))%bool
                      then [(Fld.tags, VNum (Zpos t))] else []).
  { subst tagStep.
    destruct (test bitplebsPattern (title item)
              && negb (truthy_v (field Fld.tags e)))%bool; simpl.
    - destruct bitplebs_cons as [c [n Hn]]. rewrite Hn.
      destruct (findOrCreateTag_spec E c n s1) as [Ha Hr].
      destruct (findOrCreateTag E (c :: n) s1) as [[t|] s2]; simpl in *.
      + split; [exact Ha|]. exists t.
        destruct (tag_unavailable E (c :: n) s1); [|reflexivity].
        destruct Hr as [_ Hr]. discriminate (Hr eq_refl).
      + split; [exact Ha|]. exists 1%positive.
        destruct Hr as [Hr _]. rewrite (Hr eq_refl). reflexivity.
    - split; [apply aux_only_refl | exists 1%positive; reflexivity]. }
  destruct Htag as [Ha2 [t Ht]].
  destruct (tagStep s1) as [tagPart s2]. simpl in Ha2, Ht. subst tagPart.
  simpl. split; [eapply aux_only_trans; eassumption|].
  exists i, t. rewrite (tag_unavailable_aux _ Ha1). reflexivity.
Qed.

(** Creating a new event: the auxiliary steps, then the create request. *)
Lemma createNewEvent_spec (item : Item) (feedSource : jsstring)
    (parsed : Parsed) (dt : DateTimes) (rsvpUrl : option jsstring)
    (s : Store.t) :
  exists s1 venueId imageId tagId,
    aux_only E s s1
    /\ (imageId = None <-> image_available E (p_imageUrl parsed) = false)
    /\ (tagId = None <->
        test bitplebsPattern (title item) = false
        \/ tag_unavailable E (js "bitplebs") s = true)
    /\ let data := eventData item feedSource parsed dt rsvpUrl
                             venueId imageId tagId in
       createNewEvent E item feedSource parsed dt rsvpUrl s
       = if refuses E OpCreateEvent
         then (result Status.failed (Some create_error) None,
               log (CreateEvent data) s1)
         else (result Status.created None (Some (next_id s1)),
               snd (insert_event data (log (CreateEvent data) s1))).
Proof.
  unfold createNewEvent, bind, ret.
  (* image *)
  assert (Him : aux_only E s (snd ((if truthy (p_imageUrl parsed)
                                    then downloadAndUploadImage E (p_imageUrl parsed)
                                    else fun s => (None, s)) s))
                /\ (fst ((if truthy (p_imageUrl parsed)
                          then downloadAndUploadImage E (p_imageUrl parsed)
                          else fun s => (None, s)) s) = None
                    <-> image_available E (p_imageUrl parsed) = false)).
  { destruct (truthy (p_imageUrl parsed)) eqn:Hu.
    - apply downloadAndUploadImage_spec.
    - simpl. split; [apply aux_only_refl|]. unfold image_available.
      destruct (p_imageUrl parsed) as [[|? ?]|]; try tauto. discriminate. }
  destruct Him as [Ha1 Hi].
  match type of Ha1 with
  | aux_only _ _ (snd ?x) => destruct x as [imageId s1]
  end.
  simpl in Ha1, Hi.
  (* venue *)
  assert (Hv : aux_only E s1 (snd ((if truthy (p_venueName parsed)
                                    then findOrCreateVenue E (p_venueName parsed)
                                                           (p_venueAddress parsed)
                                    else fun s => (None, s)) s1))).
  { destruct (truthy (p_venueName parsed)).
    - apply findOrCreateVenue_spec.
    - apply aux_only_refl. }
  match type of Hv with
  | aux_only _ _ (snd ?x) => destruct x as [venueId s2]
  end.
  simpl in Hv.
  (* tag *)
  assert (Ht : aux_only E s2 (snd ((if test bitplebsPattern (title item)
                                    then findOrCreateTag E (js "bitplebs")
                                    else fun s => (None, s)) s2))
               /\ (fst ((if test bitplebsPattern (title item)
                         then findOrCreateTag E (js "bitplebs")
                         else fun s => (None, s)) s2) = None
                   <-> test bitplebsPattern (title item) = false
                       \/ tag_unavailable E (js "bitplebs") s2 = true)).
  { destruct (test bitplebsPattern (title item)).
    - destruct bitplebs_cons as [c [n Hn]]. rewrite Hn.
      destruct (findOrCreateTag_spec E c n s2) as [Ha Hr].
      split; [exact Ha|]. rewrite Hr. split; [tauto|].
      intros [H|H]; [discriminate | exact H].
    - simpl. split; [apply aux_only_refl | tauto]. }
  destruct Ht as [Ha3 Ht].
  match type of Ha3 with
  | aux_only _ _ (snd ?x) => destruct x as [tagId s3]
  end.
  simpl in Ha3, Ht.
  assert (Ha : aux_only E s s3)
    by (eapply aux_only_trans; [eapply aux_only_trans|]; eassumption).
  exists s3, venueId, imageId, tagId.
  split; [exact Ha|]. split; [exact Hi|]. split.
  - rewrite <- (tag_unavailable_aux (js "bitplebs")
                                    (aux_only_trans Ha1 Hv)). exact Ht.
  - simpl. unfold createEvent. rewrite send_eq. simpl op_of.
    destruct (refuses E OpCreateEvent); reflexivity.
Qed.

(** [processRSSItem], with its requests spelled out. *)
Lemma processRSSItem_eq (item : Item) (feedSource : jsstring) (s : Store.t) :
  processRSSItem E item feedSource s
  = match parseEventDetails (cheerio E) (contentEncoded item) with
    | None => (result Status.failed (Some parse_error) None, s)
    | Some parsed =>
        let rsvpUrl := resolveRsvpUrl E item parsed in
        let dt := parseDateTime (host E) (p_dateStr parsed) (p_timeStr parsed) in
        match startDateTime dt with
        | Some ((_ :: _) as start) =>
            if isBefore (dayjs_of (host E) start) (dayjs_now (host E))
            then (result Status.skipped (Some past_event) None, s)
            else
              let s0 := log (ListEvents (link item)) s in
              match (if refuses E OpListEvents then None
                     else found (link item) s) with
              | Some e =>
                  let '(patch, s1) := updatesNeeded E item parsed rsvpUrl e s0 in
                  match patch with
                  | [] => (skip_existing e, s1)
                  | _ =>
                      let s2 := log (UpdateEvent (ev_id e) patch) s1 in
                      if refuses E OpUpdateEvent then (skip_existing e, s2)
                      else (update_existing e, modify_event (ev_id e) patch s2)
                  end
              | None => createNewEvent E item feedSource parsed dt rsvpUrl s0
              end
        | _ => (result Status.failed (Some date_parse_error) None, s)
        end
    end.
Proof.
  unfold processRSSItem.
  destruct (parseEventDetails _ _) as [parsed|]; [|reflexivity].
  cbv zeta.
  destruct (startDateTime _) as [[|c start]|]; try reflexivity.
  destruct (isBefore _ _); [reflexivity|].
  unfold bind at 1. unfold listEvents. rewrite send_eq. simpl op_of.
  destruct (refuses E OpListEvents); [reflexivity|].
  unfold found. simpl.
  destruct (filter (has_url (link item)) (events s)) as [|e l]; [reflexivity|].
  simpl. unfold bind at 1.
  destruct (updatesNeeded _ _ _ _ _ _) as [patch s1].
  destruct patch as [|p ps]; [reflexivity|].
  unfold bind, updateEvent. rewrite send_eq. simpl op_of.
  destruct (refuses E OpUpdateEvent); reflexivity.
Qed.

End Engine.

(* ================================================================== *)
(** ** What one item sends to the store and does to the events *)
(* ================================================================== *)

Section Footprint.

Variable E : Env.

Lemma aux_only_after_log (q : Request) (s s1 : Store.t) :
  aux_only E (log q s) s1 ->
  events s1 = events s
  /\ exists new, requests s1 = requests s ++ q :: new
                 /\ forallb aux_request new = true.
Proof.
  intros [He [new [Hr Ha]] _]. split; [exact He|].
  exists new. split; [|exact Ha]. rewrite Hr. simpl.
  rewrite <- app_assoc. reflexivity.
Qed.

Lemma In_aux (q : Request) (new : list Request) :
  forallb aux_request new = true -> In q new -> aux_request q = true.
Proof. intros H Hin. rewrite forallb_forall in H. apply H, Hin. Qed.

(** Every entry of an update patch fills an empty back-fill field with
    something the item offers. *)
Lemma patch_backfills (item : Item) (parsed : Parsed) (e : Event)
    (s : Store.t) (f : Fld.t) (v : value) :
  In (f, v) (fst (updatesNeeded E item parsed (resolveRsvpUrl E item parsed) e s)) ->
  backfill_field f = true
  /\ truthy_v (field f e) = false
  /\ truthy_v v = true
  /\ offered E item parsed f v.
Proof.
  destruct (updatesNeeded_spec E item parsed (resolveRsvpUrl E item parsed) e s)
    as [_ [i [t ->]]].
  unfold wants_image, wants_rsvp, wants_tag.
  intros Hin. apply in_app_or in Hin as [Hin | Hin];
    [|apply in_app_or in Hin as [Hin | Hin]].
  - destruct (truthy_v (field Fld.image e)) eqn:Hf; simpl in Hin; [tauto|].
    destruct (image_available E (p_imageUrl parsed)) eqn:Ha;
      simpl in Hin; [|tauto].
    destruct Hin as [[= <- <-]|[]]. repeat split; try assumption.
    + unfold image_available in Ha.
      destruct (p_imageUrl parsed) as [[|? ?]|]; try discriminate. reflexivity.
    + exists i. reflexivity.
  - destruct (truthy_v (field Fld.rsvp_url e)) eqn:Hf; simpl in Hin; [tauto|].
    destruct (truthy (resolveRsvpUrl E item parsed)) eqn:Ha;
      simpl in Hin; [|tauto].
    destruct Hin as [[= <- <-]|[]]. repeat split; try assumption.
    destruct (resolveRsvpUrl E item parsed) as [[|? ?]|]; try discriminate.
    reflexivity.
  - destruct (test bitplebsPattern (title item)) eqn:Ht; simpl in Hin; [|tauto].
    destruct (truthy_v (field Fld.tags e)) eqn:Hf; simpl in Hin; [tauto|].
    destruct (tag_unavailable E (js "bitplebs") s); simpl in Hin; [tauto|].
    destruct Hin as [[= <- <-]|[]]. repeat split; try assumption.
    exists t. reflexivity.
Qed.

(** The requests of one item: auxiliary ones, the existence query, and
    at most one write to the events, an update of the event found or a
    create when none was found. *)
Lemma sent_processRSSItem (item : Item) (feedSource : jsstring)
    (s : Store.t) (q : Request) :
  In q (sent s (snd (processRSSItem E item feedSource s))) ->
  aux_request q = true
  \/ q = ListEvents (link item)
  \/ (exists parsed e,
        parseEventDetails (cheerio E) (contentEncoded item) = Some parsed
        /\ refuses E OpListEvents = false
        /\ found (link item) s = Some e
        /\ q = UpdateEvent (ev_id e)
                 (fst (updatesNeeded E item parsed (resolveRsvpUrl E item parsed)
                                     e (log (ListEvents (link item)) s))))
  \/ (exists parsed c start venueId imageId tagId,
        parseEventDetails (cheerio E) (contentEncoded item) = Some parsed
        /\ startDateTime (parseDateTime (host E) (p_dateStr parsed)
                                        (p_timeStr parsed)) = Some (c :: start)
        /\ (refuses E OpListEvents = true \/ found (link item) s = None)
        /\ q = CreateEvent
                 (eventData item feedSource parsed
                    (parseDateTime (host E) (p_dateStr parsed) (p_timeStr parsed))
                    (resolveRsvpUrl E item parsed) venueId imageId tagId)).
Proof.
  rewrite processRSSItem_eq.
  destruct (parseEventDetails _ _) as [parsed|] eqn:Hp;
    [|simpl; rewrite sent_same; intros []].
  cbv zeta.
  destruct (startDateTime _) as [[|c start]|] eqn:Hs;
    try (simpl; rewrite sent_same; intros []).
  destruct (isBefore _ _); [simpl; rewrite sent_same; intros []|].
  set (s0 := log (ListEvents (link item)) s).
  destruct (if refuses E OpListEvents then None else found (link item) s)
    as [e|] eqn:Hf.
  - destruct (refuses E OpListEvents) eqn:Hl; [discriminate|].
    pose proof (updatesNeeded_spec E item parsed (resolveRsvpUrl E item parsed) e s0)
      as [Ha _].
    destruct (updatesNeeded _ _ _ _ _ _) as [patch s1] eqn:Hu. simpl in Ha.
    destruct (aux_only_after_log Ha) as [_ [new [Hr Hnew]]].
    assert (Hbase : forall q, In q (ListEvents (link item) :: new) ->
                      aux_request q = true \/ q = ListEvents (link item)).
    { intros q' [<-|Hin]; [right; reflexivity|].
      left. eapply In_aux; eassumption. }
    assert (Hupd : forall q,
               In q (ListEvents (link item) :: new ++ [UpdateEvent (ev_id e) patch]) ->
               aux_request q = true \/ q = ListEvents (link item)
               \/ q = UpdateEvent (ev_id e) patch).
    { intros q' Hin. change (In q' ((ListEvents (link item) :: new)
                                      ++ [UpdateEvent (ev_id e) patch])) in Hin.
      apply in_app_or in Hin as [Hin | [<-|[]]]; [|tauto].
      destruct (Hbase _ Hin); tauto. }
    destruct patch as [|p ps].
    + simpl. rewrite (sent_app _ _ _ Hr). intros Hin.
      destruct (Hbase _ Hin); tauto.
    + assert (Hsent : forall s2, requests s2
                        = requests s ++ ListEvents (link item)
                            :: new ++ [UpdateEvent (ev_id e) (p :: ps)] ->
                        In q (sent s s2) ->
                        aux_request q = true \/ q = ListEvents (link item)
                        \/ q = UpdateEvent (ev_id e) (p :: ps)).
      { intros s2 H2. rewrite (sent_app _ _ _ H2). apply Hupd. }
      assert (H2 : requests (log (UpdateEvent (ev_id e) (p :: ps)) s1)
                   = requests s ++ ListEvents (link item)
                       :: new ++ [UpdateEvent (ev_id e) (p :: ps)]).
      { simpl. rewrite Hr, <- app_assoc. reflexivity. }
      intros Hin.
      assert (Hq : aux_request q = true \/ q = ListEvents (link item)
                   \/ q = UpdateEvent (ev_id e) (p :: ps)).
      { destruct (refuses E OpUpdateEvent); simpl in Hin.
        - apply (Hsent _ H2 Hin).
        - apply (Hsent (modify_event (ev_id e) (p :: ps)
                          (log (UpdateEvent (ev_id e) (p :: ps)) s1)) H2 Hin). }
      destruct Hq as [Hq|[Hq|Hq]]; [tauto | tauto |].
      right. right. left. exists parsed, e. repeat split; try assumption.
      fold s0. rewrite Hu. exact Hq.
  - assert (Hnone : refuses E OpListEvents = true \/ found (link item) s = None).
    { destruct (refuses E OpListEvents); [left; reflexivity | right; exact Hf]. }
    destruct (createNewEvent_spec E item feedSource parsed
                (parseDateTime (host E) (p_dateStr parsed) (p_timeStr parsed))
                (resolveRsvpUrl E item parsed) s0)
      as [s1 [venueId [imageId [tagId [Ha [_ [_ Hc]]]]]]].
    cbv zeta in Hc. rewrite Hc. clear Hc.
    destruct (aux_only_after_log Ha) as [_ [new [Hr Hnew]]].
    set (data := eventData _ _ _ _ _ _ _ _).
    assert (H2 : requests (log (CreateEvent data) s1)
                 = requests s ++ (ListEvents (link item) :: new)
                     ++ [CreateEvent data]).
    { simpl. rewrite Hr, <- app_assoc. reflexivity. }
    intros Hin.
    assert (Hsent : forall s2,
               requests s2 = requests s ++ (ListEvents (link item) :: new)
                               ++ [CreateEvent data] ->
               In q (sent s s2) ->
               In q ((ListEvents (link item) :: new) ++ [CreateEvent data])).
    { intros s2 Hs2. rewrite (sent_app _ _ _ Hs2). tauto. }
    assert (Hq : In q ((ListEvents (link item) :: new) ++ [CreateEvent data])).
    { destruct (refuses E OpCreateEvent).
      - apply (Hsent _ H2 Hin).
      - apply (Hsent (snd (insert_event data (log (CreateEvent data) s1)))
                     H2 Hin). }
    apply in_app_or in Hq as [[<-|Hq] | [<-|[]]].
    + tauto.
    + left. eapply In_aux; eassumption.
    + right. right. right.
      exists parsed, c, start, venueId, imageId, tagId. tauto.
Qed.

End Footprint.

Section Events.

Variable E : Env.

(** What one item does to the stored events: nothing, a back-fill of the
    event found, or one new event at the end. *)
Lemma events_processRSSItem (item : Item) (feedSource : jsstring) (s : Store.t) :
  let r := fst (processRSSItem E item feedSource s) in
  let s' := snd (processRSSItem E item feedSource s) in
  (events s' = events s /\ (status r = Status.skipped \/ status r = Status.failed))
  \/ (exists parsed e,
        parseEventDetails (cheerio E) (contentEncoded item) = Some parsed
        /\ refuses E OpListEvents = false
        /\ found (link item) s = Some e
        /\ r = update_existing e
        /\ events s'
           = List.map
               (fun x =>
                  if Pos.eqb (ev_id x) (ev_id e)
                  then patch_event
                         (fst (updatesNeeded E item parsed
                                 (resolveRsvpUrl E item parsed) e
                                 (log (ListEvents (link item)) s))) x
                  else x)
               (events s))
  \/ (exists parsed venueId imageId tagId s1,
        parseEventDetails (cheerio E) (contentEncoded item) = Some parsed
        /\ (refuses E OpListEvents = true \/ found (link item) s = None)
        /\ aux_only E (log (ListEvents (link item)) s) s1
        /\ (imageId = None <-> image_available E (p_imageUrl parsed) = false)
        /\ (tagId = None <->
            test bitplebsPattern (title item) = false
            \/ tag_unavailable E (js "bitplebs") s = true)
        /\ refuses E OpCreateEvent = false
        /\ r = result Status.created None (Some (next_id s1))
        /\ events s'
           = events s
               ++ [{| ev_id := next_id s1;
                      ev_data :=
                        eventData item feedSource parsed
                          (parseDateTime (host E) (p_dateStr parsed)
                                         (p_timeStr parsed))
                          (resolveRsvpUrl E item parsed)
                          venueId imageId tagId |}]).
Proof.
  cbv zeta. rewrite processRSSItem_eq.
  destruct (parseEventDetails _ _) as [parsed|] eqn:Hp;
    [|left; simpl; tauto].
  cbv zeta.
  destruct (startDateTime _) as [[|c start]|] eqn:Hs;
    try (left; simpl; tauto).
  destruct (isBefore _ _); [left; simpl; tauto|].
  set (s0 := log (ListEvents (link item)) s).
  destruct (if refuses E OpListEvents then None else found (link item) s)
    as [e|] eqn:Hf.
  - destruct (refuses E OpListEvents) eqn:Hl; [discriminate|].
    pose proof (updatesNeeded_spec E item parsed (resolveRsvpUrl E item parsed) e s0)
      as [[He _ _] _].
    destruct (updatesNeeded _ _ _ _ _ _) as [patch s1] eqn:Hu. simpl in He.
    destruct patch as [|p ps]; [left; simpl; tauto|].
    destruct (refuses E OpUpdateEvent); [left; simpl; tauto|].
    right. left. exists parsed, e. fold s0. rewrite Hu. simpl. rewrite He.
    repeat split; try assumption; reflexivity.
  - assert (Hnone : refuses E OpListEvents = true \/ found (link item) s = None).
    { destruct (refuses E OpListEvents); [left; reflexivity | right; exact Hf]. }
    destruct (createNewEvent_spec E item feedSource parsed
                (parseDateTime (host E) (p_dateStr parsed) (p_timeStr parsed))
                (resolveRsvpUrl E item parsed) s0)
      as [s1 [venueId [imageId [tagId [Ha [Hi [Ht Hc]]]]]]].
    cbv zeta in Hc. rewrite Hc. clear Hc.
    pose proof (aux_events Ha) as He. simpl in He.
    destruct (refuses E OpCreateEvent) eqn:Hce.
    + left. simpl. tauto.
    + right. right. exists parsed, venueId, imageId, tagId, s1. simpl.
      rewrite He.
      split; [reflexivity|]. split; [exact Hnone|]. split; [exact Ha|].
      split; [exact Hi|]. split; [exact Ht|]. split; [reflexivity|].
      split; reflexivity.
Qed.

End Events.

(* ================================================================== *)
(** ** Rejections before the store is touched *)
(* ================================================================== *)

(** C8. A feed item whose content has no blockquote element makes
    [parseEventDetails] return null; [processRSSItem] answers failed with
    reason parse_error and leaves the store as it was, without sending it a
    single request. *)
Theorem no_blockquote_is_parse_error
    (E : Env) (item : Item) (feedSource : jsstring) (s : Store.t) :
  select_tag (js "blockquote") (load (cheerio E) (contentEncoded item)) = [] ->
  parseEventDetails (cheerio E) (contentEncoded item) = None
  /\ processRSSItem E item feedSource s
     = (result Status.failed (Some parse_error) None, s)
  /\ sent s (snd (processRSSItem E item feedSource s)) = [].
Proof.
  intros H.
  assert (Hp : parseEventDetails (cheerio E) (contentEncoded item) = None).
  { unfold parseEventDetails. rewrite H. reflexivity. }
  split; [exact Hp|].
  rewrite processRSSItem_eq, Hp. simpl. split; [reflexivity | apply sent_same].
Qed.

Lemma no_blockquote_is_parse_error_witness :
  let E := Sample.env Sample.new_year in
  let item := Sample.item_of Sample.bare_html in
  select_tag (js "blockquote") (load (cheerio E) (contentEncoded item)) = []
  /\ processRSSItem E item Sample.feed_source Store.empty
     = (result Status.failed (Some parse_error) None, Store.empty).
Proof.
  split; [vm_compute; reflexivity|].
  apply (no_blockquote_is_parse_error (Sample.env Sample.new_year)
           (Sample.item_of Sample.bare_html) Sample.feed_source Store.empty).
  vm_compute. reflexivity.
Defined.

Lemma parseDateTime_start_truthy (h : Host) (d t : option jsstring)
    (start : jsstring) :
  startDateTime (parseDateTime h d t) = Some start -> start <> [].
Proof.
  destruct (parseDateTime_shape h d t) as [H | [a [b H]]]; rewrite H; simpl.
  - discriminate.
  - intros [= <-]. apply format_nonempty.
Qed.

(** The past check, as the script makes it: when the start, read again
    by [dayjs] in the zone of the host, is before the clock,
    [processRSSItem] answers skipped with reason past_event and the store
    is left as it was: no request is sent. *)
Lemma past_check_skips
    (E : Env) (item : Item) (feedSource : jsstring) (s : Store.t)
    (parsed : Parsed) (start : jsstring) :
  parseEventDetails (cheerio E) (contentEncoded item) = Some parsed ->
  startDateTime (parseDateTime (host E) (p_dateStr parsed) (p_timeStr parsed))
  = Some start ->
  isBefore (dayjs_of (host E) start) (dayjs_now (host E)) = true ->
  processRSSItem E item feedSource s
  = (result Status.skipped (Some past_event) None, s)
  /\ sent s (snd (processRSSItem E item feedSource s)) = [].
Proof.
  intros Hp Hs Hb.
  pose proof (parseDateTime_start_truthy _ _ _ Hs) as Hne.
  rewrite processRSSItem_eq, Hp. cbv zeta. rewrite Hs.
  destruct start as [|c start]; [congruence|].
  rewrite Hb. simpl. split; [reflexivity | apply sent_same].
Qed.

(** C4. The past check does not compare the resolved start instant with
    the current time. The resolver reads "6:00 PM" on January 26, 2026
    as New York time, the instant 23:00 UTC, and returns the civil string
    2026-01-26T18:00:00; the check reads that string again in the zone of
    the host. On a host on Pacific time, at 19:00 New York time of that
    day, the start instant is an hour past, the check takes the string
    for 18:00 Pacific time, three hours ahead, and the event is created. *)
Theorem started_event_is_created_out_west :
  let E := with_host (pacific_host seven_pm_eastern)
                     (Sample.env seven_pm_eastern) in
  let x := processRSSItem E Sample.item Sample.feed_source Store.empty in
  parseEventDetails (cheerio E) (contentEncoded Sample.item)
  = Some Sample.parsed
  /\ startDateTime (parseDateTime (host E) (p_dateStr Sample.parsed)
                                  (p_timeStr Sample.parsed))
     = Some (js "2026-01-26T18:00:00")
  /\ tz (host E) (js "2026-01-26T18:00:00")
     = Some {| d_ts := Some 1769468400000%Z; d_offset := (-300)%Z |}
  /\ (1769468400000 < clock (host E))%Z
  /\ local_parse (host E) (js "2026-01-26T18:00:00")
     = Some 1769479200000%Z
  /\ fst x = result Status.created None (Some 4%positive)
  /\ List.map (field Fld.start_date_time) (events (snd x))
     = [VStr (js "2026-01-26T18:00:00")].
Proof.
  cbv zeta. repeat split; vm_compute; reflexivity.
Qed.

(** The failures the resolver does catch. Each of these makes
    [parseDateTime] return null for both instants, and [processRSSItem]
    answer failed with reason date_parse_error without touching the
    store: a missing date or time; a time string without a time range; a
    date the strict and the lenient pattern both fail to read; a month
    name outside the table; an ISO string the date library cannot make an
    instant of. *)
Lemma date_failures_are_terminal
    (E : Env) (d t : option jsstring) :
  DateFailure (host E) d t ->
  parseDateTime (host E) d t = no_dates
  /\ forall item feedSource s parsed,
       parseEventDetails (cheerio E) (contentEncoded item) = Some parsed ->
       p_dateStr parsed = d -> p_timeStr parsed = t ->
       processRSSItem E item feedSource s
       = (result Status.failed (Some date_parse_error) None, s).
Proof.
  intros F. pose proof (DateFailure_no_dates F) as H. split; [exact H|].
  intros item feedSource s parsed Hp <- <-.
  rewrite processRSSItem_eq, Hp. cbv zeta. rewrite H. reflexivity.
Qed.

Lemma date_failures_are_terminal_witness :
  parseDateTime (reference_host Sample.new_year)
                (Some (js "Monday, january 26, 2026"))
                (Some (js "6:00 PM - 10:00 PM EST"))
  = no_dates
  /\ processRSSItem (Sample.env Sample.new_year)
                    (Sample.item_of Sample.odd_html) Sample.feed_source
                    Store.empty
     = (result Status.failed (Some date_parse_error) None, Store.empty).
Proof.
  assert (F : DateFailure (host (Sample.env Sample.new_year))
                (Some (js "Monday, january 26, 2026"))
                (Some (js "6:00 PM - 10:00 PM EST"))).
  { eapply InvalidMonth.
    - vm_compute. reflexivity.
    - vm_compute. reflexivity.
    - left. vm_compute. reflexivity. }
  destruct (date_failures_are_terminal (Sample.env Sample.new_year) F)
    as [H1 H2].
  split; [exact H1|].
  eapply H2; vm_compute; reflexivity.
Defined.

(* ================================================================== *)
(** ** The create payload *)
(* ================================================================== *)

Section Payload.

Variables (item : Item) (feedSource : jsstring) (parsed : Parsed)
          (dt : DateTimes) (rsvpUrl : option jsstring)
          (venueId imageId tagId : option positive).

Lemma get_end_date_time :
  get Fld.end_date_time
      (eventData item feedSource parsed dt rsvpUrl venueId imageId tagId)
  = of_str (or_else (endDateTime dt) (startDateTime dt)).
Proof. reflexivity. Qed.

Lemma get_external_url :
  get Fld.external_url
      (eventData item feedSource parsed dt rsvpUrl venueId imageId tagId)
  = VStr (link item).
Proof. reflexivity. Qed.

Lemma get_rsvp_url :
  get Fld.rsvp_url
      (eventData item feedSource parsed dt rsvpUrl venueId imageId tagId)
  = of_str (or_else rsvpUrl None).
Proof. reflexivity. Qed.

Lemma get_image :
  get Fld.image
      (eventData item feedSource parsed dt rsvpUrl venueId imageId tagId)
  = of_id imageId.
Proof. reflexivity. Qed.

Lemma get_tags :
  get Fld.tags
      (eventData item feedSource parsed dt rsvpUrl venueId imageId tagId)
  = of_id tagId.
Proof. reflexivity. Qed.

End Payload.

Lemma or_else_end_start (a b : dayjs) :
  or_else (Some (format a)) (Some (format b)) = Some (format a).
Proof. unfold or_else. rewrite format_truthy. reflexivity. Qed.

(** C10. [parseDateTime] returns both instants or neither: the start is
    null exactly when the end is. Hence every create request that
    [processRSSItem] sends carries, as its end_date_time, the (non-empty)
    end instant of the resolver: the fallback to the start instant in
    [endDateTime || startDateTime] never applies. *)
Theorem both_instants_or_neither (E : Env) :
  (forall d t,
      startDateTime (parseDateTime (host E) d t) = None
      <-> endDateTime (parseDateTime (host E) d t) = None)
  /\ forall item feedSource s data,
       In (CreateEvent data)
          (sent s (snd (processRSSItem E item feedSource s))) ->
       exists parsed e,
         parseEventDetails (cheerio E) (contentEncoded item) = Some parsed
         /\ let dt := parseDateTime (host E) (p_dateStr parsed)
                                    (p_timeStr parsed) in
            endDateTime dt = Some e
            /\ e <> []
            /\ get Fld.end_date_time data = VStr e
            /\ or_else (endDateTime dt) (startDateTime dt) = endDateTime dt.
Proof.
  split.
  - intros d t.
    destruct (parseDateTime_shape (host E) d t) as [H | [a [b H]]];
      rewrite H; simpl; split; congruence.
  - intros item feedSource s data Hin.
    apply sent_processRSSItem in Hin
      as [Hin | [Hin | [(parsed & e & _ & _ & _ & Hin) | Hin]]];
      try discriminate.
    destruct Hin as (parsed & c & start & v & i & t & Hp & Hs & _ & [= ->]).
    destruct (parseDateTime_shape (host E) (p_dateStr parsed) (p_timeStr parsed))
      as [H | [a [b H]]]; rewrite H in Hs; simpl in Hs; [discriminate|].
    exists parsed, (format b). split; [exact Hp|].
    cbv zeta. rewrite H. simpl startDateTime. simpl endDateTime.
    rewrite get_end_date_time. simpl startDateTime. simpl endDateTime.
    rewrite or_else_end_start.
    split; [reflexivity|]. split; [apply format_nonempty|].
    split; reflexivity.
Qed.

Lemma both_instants_or_neither_witness :
  exists data e,
    In (CreateEvent data)
       (sent Store.empty
             (snd (processRSSItem (Sample.env Sample.new_year) Sample.item
                                  Sample.feed_source Store.empty)))
    /\ get Fld.end_date_time data = VStr e
    /\ e = js "2026-01-26T22:00:00".
Proof.
  pose (s' := snd (processRSSItem (Sample.env Sample.new_year) Sample.item
                                  Sample.feed_source Store.empty)).
  pose (data := match last (requests s') (ListTags []) with
                | CreateEvent d => d
                | _ => []
                end).
  assert (Hin : In (CreateEvent data) (sent Store.empty s')).
  { vm_compute. do 6 right. left. reflexivity. }
  destruct (both_instants_or_neither (Sample.env Sample.new_year)) as [_ H].
  destruct (H Sample.item Sample.feed_source Store.empty data Hin)
    as (parsed & e & _ & _ & _ & Hg & _).
  exists data, (js "2026-01-26T22:00:00").
  split; [exact Hin|]. split; vm_compute; reflexivity.
Defined.

(* ================================================================== *)
(** ** The RSVP link *)
(* ================================================================== *)

Lemma hrefs_cons (el : node) (els : list node) :
  flat_map (fun el => match attr (js "href") [el] with
                      | Some ((_ :: _) as h) => [h]
                      | _ => []
                      end) (el :: els)
  = match attr (js "href") [el] with
    | Some ((_ :: _) as h) => [h]
    | _ => []
    end
      ++ flat_map (fun el => match attr (js "href") [el] with
                             | Some ((_ :: _) as h) => [h]
                             | _ => []
                             end) els.
Proof. reflexivity. Qed.

Arguments attr : simpl never.
Arguments includes : simpl never.

(** The loop over the anchors keeps the first Luma and the first Meetup
    href. *)
Lemma scan_links_find (els : list node) (l m : option jsstring) :
  settled_link l -> settled_link m ->
  fold_left scan_link els (l, m)
  = (match l with
     | Some _ => l
     | None => find is_luma
                    (flat_map (fun el => match attr (js "href") [el] with
                                         | Some ((_ :: _) as h) => [h]
                                         | _ => []
                                         end) els)
     end,
     match m with
     | Some _ => m
     | None => find is_meetup
                    (flat_map (fun el => match attr (js "href") [el] with
                                         | Some ((_ :: _) as h) => [h]
                                         | _ => []
                                         end) els)
     end).
Proof.
  revert l m. induction els as [|el els IH]; intros l m Hl Hm.
  - simpl. destruct l, m; reflexivity.
  - rewrite hrefs_cons. simpl fold_left.
    destruct (attr (js "href") [el]) as [[|c h]|] eqn:Ha; simpl truthy;
      cbv iota beta; simpl negb; cbv iota.
    + rewrite IH by assumption. reflexivity.
    + unfold is_luma at 1, is_meetup at 1. simpl find.
      fold (is_meetup (c :: h)). fold (is_luma (c :: h)).
      assert (Hl' : forall b, settled_link
                      (if (b && negb (truthy l))%bool then Some (c :: h) else l)).
      { intros b. destruct (b && negb (truthy l))%bool;
          [right; reflexivity | exact Hl]. }
      assert (Hm' : forall b, settled_link
                      (if (b && negb (truthy m))%bool then Some (c :: h) else m)).
      { intros b. destruct (b && negb (truthy m))%bool;
          [right; reflexivity | exact Hm]. }
      unfold is_luma, is_meetup in *.
      rewrite IH by (apply Hl' || apply Hm').
      destruct Hl as [-> | Hl]; destruct Hm as [-> | Hm]; simpl.
      * destruct (includes (js "lu.ma/") (c :: h));
          destruct (includes (js "meetup.com/") (c :: h)
                    || includes (js "meetu.ps/") (c :: h))%bool; reflexivity.
      * rewrite Hm. rewrite andb_false_r. destruct m; [|discriminate].
        destruct (includes (js "lu.ma/") (c :: h)); reflexivity.
      * rewrite Hl. rewrite andb_false_r. destruct l; [|discriminate].
        destruct (includes (js "meetup.com/") (c :: h)
                  || includes (js "meetu.ps/") (c :: h))%bool; reflexivity.
      * rewrite Hl, Hm. rewrite !andb_false_r.
        destruct l; [|discriminate]. destruct m; [|discriminate]. reflexivity.
    + rewrite IH by assumption. reflexivity.
Qed.

Lemma content_links_find (doc : list node) :
  content_links doc = (find is_luma (hrefs doc), find is_meetup (hrefs doc)).
Proof.
  unfold content_links, hrefs.
  rewrite scan_links_find by (left; reflexivity). reflexivity.
Qed.

Lemma hrefs_nonempty (doc : list node) (h : jsstring) :
  In h (hrefs doc) -> h <> [].
Proof.
  unfold hrefs. intros Hin. apply in_flat_map in Hin as [el [_ Hin]].
  destruct (attr (js "href") [el]) as [[|c x]|]; simpl in Hin; try tauto.
  destruct Hin as [<-|[]]. discriminate.
Qed.

Lemma find_href_truthy (p : jsstring -> bool) (doc : list node) (h : jsstring) :
  find p (hrefs doc) = Some h -> truthy (Some h) = true.
Proof.
  intros H. apply find_some in H as [Hin _].
  apply hrefs_nonempty in Hin. destruct h; [congruence | reflexivity].
Qed.

Lemma content_rsvp_find (doc : list node) :
  content_rsvp doc
  = match find is_luma (hrefs doc), find is_meetup (hrefs doc) with
    | Some luma, _ => Some luma
    | None, Some meetup => Some meetup
    | None, None => None
    end.
Proof.
  unfold content_rsvp. rewrite content_links_find.
  destruct (find is_luma (hrefs doc)) as [l|] eqn:Hl.
  - rewrite (find_href_truthy _ _ Hl). reflexivity.
  - simpl. destruct (find is_meetup (hrefs doc)) as [m|] eqn:Hm.
    + rewrite (find_href_truthy _ _ Hm). reflexivity.
    + reflexivity.
Qed.

Lemma parsed_rsvpUrl (L : Lib) (html : jsstring) (parsed : Parsed) :
  parseEventDetails L html = Some parsed ->
  p_rsvpUrl parsed = content_rsvp (load L html).
Proof.
  unfold parseEventDetails.
  destruct (negb _); [discriminate|]. intros [= <-]. reflexivity.
Qed.

Lemma scraped_settled (E : Env) (u : jsstring) :
  settled_link (scrapeEventRsvpLink E u).
Proof.
  unfold scrapeEventRsvpLink, settled_link.
  destruct (fetch_text E u); [|left; reflexivity].
  destruct (truthy _) eqn:H; [right; exact H | left; reflexivity].
Qed.

Lemma resolveRsvpUrl_settled (E : Env) (item : Item) (parsed : Parsed) :
  parseEventDetails (cheerio E) (contentEncoded item) = Some parsed ->
  settled_link (resolveRsvpUrl E item parsed).
Proof.
  intros Hp. unfold resolveRsvpUrl, or_else.
  destruct (truthy (scrapeEventRsvpLink E (link item))) eqn:Hs;
    [right; exact Hs|].
  rewrite (parsed_rsvpUrl _ _ Hp), content_rsvp_find.
  destruct (find is_luma _) as [l|] eqn:Hl.
  - right. apply (find_href_truthy _ _ Hl).
  - destruct (find is_meetup _) as [m|] eqn:Hm.
    + right. apply (find_href_truthy _ _ Hm).
    + left. reflexivity.
Qed.

Arguments scrapeEventRsvpLink : simpl never.

Lemma processRSSItem_pages (E E' : Env) (item : Item) (feedSource : jsstring)
    (s : Store.t) :
  same_but_pages E E' ->
  scrapeEventRsvpLink E' (link item) = scrapeEventRsvpLink E (link item) ->
  processRSSItem E' item feedSource s = processRSSItem E item feedSource s.
Proof.
  destruct E as [h c ft fi pu rf], E' as [h' c' ft' fi' pu' rf'].
  unfold same_but_pages. simpl. intros (<- & <- & <- & <-) Hs.
  unfold processRSSItem, resolveRsvpUrl. simpl. rewrite Hs. reflexivity.
Qed.

(** Induction on documents: an element inherits from its children. *)
Lemma node_rose_ind (P : node -> Prop) :
  (forall s, P (Text s)) ->
  (forall tag attrs kids, Forall P kids -> P (Elem tag attrs kids)) ->
  forall n, P n.
Proof.
  intros HT HE. fix IH 1. intros [s | tag attrs kids]; [apply HT|].
  apply HE. induction kids as [|k kids IHk]; constructor;
    [apply IH | exact IHk].
Qed.

(** The selection [$('.c tag')] holds the [tag] elements that have an
    ancestor of class [c], in document order. *)
Lemma select_under_ancestors (c t : jsstring) (n : node) :
  forall anc,
    select_under c t (existsb (has_class c) anc) n
    = List.map snd (filter (under_class c t) (with_ancestors anc n)).
Proof.
  induction n as [s | tag attrs kids IH] using node_rose_ind; intros anc.
  - reflexivity.
  - cbn [select_under with_ancestors filter].
    unfold under_class at 1. cbn [fst snd is_tag].
    rewrite andb_comm.
    assert (Hk : flat_map (select_under c t
                             (existsb (has_class c) anc
                              || has_class c (Elem tag attrs kids))) kids
                 = List.map snd
                     (filter (under_class c t)
                        (flat_map
                           (with_ancestors (Elem tag attrs kids :: anc)) kids))).
    { rewrite orb_comm.
      change (has_class c (Elem tag attrs kids) || existsb (has_class c) anc)%bool
        with (existsb (has_class c) (Elem tag attrs kids :: anc)).
      generalize (Elem tag attrs kids :: anc) as anc'. intros anc'.
      induction IH as [|k kids Hk _ IHk]; [reflexivity|].
      cbn [flat_map]. rewrite filter_app, map_app, <- IHk, <- Hk.
      reflexivity. }
    rewrite Hk.
    destruct (JS.eqb t tag && existsb (has_class c) anc)%bool; reflexivity.
Qed.

Lemma select_class_tag_ancestors (c t : jsstring) (doc : list node) :
  select_class_tag c t doc
  = List.map snd (filter (under_class c t) (flat_map (with_ancestors []) doc)).
Proof.
  unfold select_class_tag.
  induction doc as [|n doc IH]; [reflexivity|].
  cbn [flat_map]. rewrite filter_app, map_app, <- IH.
  rewrite <- (select_under_ancestors c t n []). reflexivity.
Qed.

(** The scrape gives the website link of the page it fetches: the href,
    when it is not empty, of the first anchor below an element of class
    single_event_website; null when the fetch fails. *)
Lemma scrape_is_website_link (E : Env) (eventUrl : jsstring) :
  scrapeEventRsvpLink E eventUrl = website_of E eventUrl.
Proof.
  unfold scrapeEventRsvpLink, website_of.
  destruct (fetch_text E eventUrl) as [html|]; [|reflexivity].
  cbv zeta. rewrite select_class_tag_ancestors.
  unfold website_link, website_anchors.
  change (under_class (js "single_event_website") (js "a"))
    with in_website_field.
  destruct (List.map snd _) as [|[x | tag attrs kids] rest]; try reflexivity.
  unfold attr.
  destruct (assoc (js "href") attrs) as [[|ch h]|]; reflexivity.
Qed.




(* ================================================================== *)
(** ** Back-fill *)
(* ================================================================== *)

Lemma found_In (u : jsstring) (s : Store.t) (e : Event) :
  found u s = Some e -> In e (events s) /\ has_url u e = true.
Proof.
  unfold found. intros H.
  destruct (filter (has_url u) (events s)) as [|x l] eqn:Hf; [discriminate|].
  injection H as ->.
  apply filter_In. rewrite Hf. left. reflexivity.
Qed.

Lemma found_None (u : jsstring) (s : Store.t) :
  found u s = None -> filter (has_url u) (events s) = [].
Proof.
  unfold found. destruct (filter (has_url u) (events s)); [reflexivity|discriminate].
Qed.

Lemma unique_id_eq (l : list Event) (x e : Event) :
  NoDup (List.map ev_id l) -> In x l -> In e l -> ev_id x = ev_id e -> x = e.
Proof.
  induction l as [|y l IH]; simpl; [tauto|].
  intros Hnd [-> | Hx] [-> | He] Hid; inversion Hnd as [|? ? Hni Hnd']; subst.
  - reflexivity.
  - exfalso. apply Hni. rewrite Hid. apply in_map, He.
  - exfalso. apply Hni. rewrite <- Hid. apply in_map, Hx.
  - apply IH; assumption.
Qed.

Lemma kept_refl (e : Event) : kept e e.
Proof. split; [reflexivity | intros; reflexivity]. Qed.

Lemma Forall2_kept_refl (l : list Event) : Forall2 kept l l.
Proof. induction l; constructor; [apply kept_refl | assumption]. Qed.

Lemma keys_existsb (f : Fld.t) (p : obj) :
  existsb (Fld.eqb f) (keys p) = true -> exists v, In (f, v) p.
Proof.
  induction p as [|[k v] p IH]; simpl; [discriminate|].
  unfold Fld.eqb at 1. destruct (Fld.eq_dec f k) as [->|]; simpl.
  - intros _. exists v. left. reflexivity.
  - intros H. destruct (IH H) as [v' Hv]. exists v'. right. exact Hv.
Qed.

(** A patch whose keys are empty back-fill fields of [e] keeps [e]. *)
Lemma kept_patch (p : obj) (e : Event) :
  (forall f v, In (f, v) p ->
               backfill_field f = true /\ truthy_v (field f e) = false) ->
  kept e (patch_event p e).
Proof.
  intros Hp. split; [reflexivity|].
  intros f Hf. unfold field, patch_event. simpl. rewrite get_app.
  destruct (existsb (Fld.eqb f) (keys p)) eqn:Hk; [|reflexivity].
  apply keys_existsb in Hk as [v Hv]. destruct (Hp _ _ Hv) as [Hb He].
  destruct Hf; congruence.
Qed.

(** A patch without the external_url key leaves the URL of an event. *)
Lemma has_url_patch (u : jsstring) (p : obj) (x : Event) :
  (forall f v, In (f, v) p -> backfill_field f = true) ->
  has_url u (patch_event p x) = has_url u x.
Proof.
  intros Hp. unfold has_url, field, patch_event. simpl. rewrite get_app.
  destruct (existsb (Fld.eqb Fld.external_url) (keys p)) eqn:Hk; [|reflexivity].
  apply keys_existsb in Hk as [v Hv]. apply Hp in Hv. discriminate.
Qed.

(** C3. For a store with unique ids: every update request that
    [processRSSItem] sends is addressed to the event found by the item's
    source URL, and each entry of its patch is image, rsvp_url or tags,
    empty on that stored event and offered by the item. Every stored event
    keeps its id, every field that was set (a stored image among them) and
    every other field (title, description, dates, ...), whatever the
    item now carries. *)
Theorem backfill_never_overwrites
    (E : Env) (item : Item) (feedSource : jsstring) (s : Store.t) :
  unique_ids s ->
  let s' := snd (processRSSItem E item feedSource s) in
  (forall id patch,
      In (UpdateEvent id patch) (sent s s') ->
      exists parsed e,
        parseEventDetails (cheerio E) (contentEncoded item) = Some parsed
        /\ found (link item) s = Some e
        /\ ev_id e = id
        /\ forall f v, In (f, v) patch ->
             backfill_field f = true
             /\ truthy_v (field f e) = false
             /\ truthy_v v = true
             /\ offered E item parsed f v)
  /\ Forall2 kept (events s) (firstn (List.length (events s)) (events s')).
Proof.
  intros Hu s'. split.
  - intros id patch Hin.
    apply sent_processRSSItem in Hin
      as [Hin | [Hin | [(parsed & e & Hp & _ & Hf & Hin) | Hin]]];
      try discriminate.
    + injection Hin as -> ->. exists parsed, e.
      repeat split; try assumption; eapply patch_backfills; eassumption.
    + destruct Hin as (? & ? & ? & ? & ? & ? & _ & _ & _ & Hin). discriminate.
  - subst s'.
    destruct (events_processRSSItem E item feedSource s)
      as [[He _] | [(parsed & e & Hp & _ & Hf & _ & He)
                   | (parsed & v & i & t & s1 & _ & _ & _ & _ & _ & _ & _ & He)]];
      rewrite He.
    + rewrite firstn_all. apply Forall2_kept_refl.
    + match goal with
      | |- Forall2 _ _ (firstn _ (List.map ?g _)) =>
          rewrite <- (length_map g (events s))
      end.
      rewrite firstn_all.
      destruct (found_In _ _ Hf) as [Hine _].
      assert (Hall : forall l, (forall x, In x l -> In x (events s)) ->
                Forall2 kept l
                  (List.map
                     (fun x => if Pos.eqb (ev_id x) (ev_id e)
                               then patch_event
                                      (fst (updatesNeeded E item parsed
                                              (resolveRsvpUrl E item parsed) e
                                              (log (ListEvents (link item)) s))) x
                               else x) l)).
      { induction l as [|x l IH]; intros Hl; simpl; constructor.
        - destruct (Pos.eqb (ev_id x) (ev_id e)) eqn:Hid; [|apply kept_refl].
          apply Pos.eqb_eq in Hid.
          assert (x = e) as ->
              by (apply (unique_id_eq (events s)); try assumption; apply Hl;
                  left; reflexivity).
          apply kept_patch. intros f w Hw.
          apply patch_backfills in Hw. tauto.
        - apply IH. intros y Hy. apply Hl. right. exact Hy. }
      apply Hall. tauto.
    + rewrite firstn_app, firstn_all, Nat.sub_diag. simpl.
      rewrite app_nil_r. apply Forall2_kept_refl.
Qed.

Lemma backfill_never_overwrites_witness :
  let s1 := snd (processRSSItem (Sample.env_no_upload Sample.new_year)
                                Sample.item Sample.feed_source Store.empty) in
  let s2 := snd (processRSSItem (Sample.env Sample.new_year)
                                Sample.item Sample.feed_source s1) in
  unique_ids s1
  /\ List.map (field Fld.image) (events s1) = [VNull]
  /\ sent s1 s2
     = [ListEvents (link Sample.item);
        UploadFile (js "https://img.example/a.jpg");
        UpdateEvent 3 [(Fld.image, VNum 4)]]
  /\ Forall2 kept (events s1) (firstn (List.length (events s1)) (events s2)).
Proof.
  intros s1 s2.
  assert (Hu : unique_ids s1).
  { vm_compute. constructor; [simpl; tauto | constructor]. }
  split; [exact Hu|]. split; [vm_compute; reflexivity|].
  split; [vm_compute; reflexivity|].
  apply (backfill_never_overwrites (Sample.env Sample.new_year) Sample.item
           Sample.feed_source Hu).
Defined.

(** Re-importing the item with another image leaves the stored image. *)
Example reimport_keeps_image :
  let s1 := snd (processRSSItem (Sample.env Sample.new_year)
                                Sample.item Sample.feed_source Store.empty) in
  let s2 := snd (processRSSItem (Sample.env Sample.new_year)
                                (Sample.item_of Sample.other_html)
                                Sample.feed_source s1) in
  List.map (field Fld.image) (events s1) = [VNum 1]
  /\ p_imageUrl Sample.parsed <> attr (js "src")
                                   (select_tag (js "img") Sample.other_doc)
  /\ events s2 = events s1.
Proof. vm_compute. repeat split; try reflexivity. discriminate. Qed.

(* ================================================================== *)
(** ** One event per source URL *)
(* ================================================================== *)

Lemma filter_map_same {A} (p : A -> bool) (g : A -> A) (l : list A) :
  (forall x, p (g x) = p x) ->
  filter p (List.map g l) = List.map g (filter p l).
Proof.
  intros H. induction l as [|x l IH]; simpl; [reflexivity|].
  rewrite H. destruct (p x); simpl; congruence.
Qed.

Lemma has_url_new (u : jsstring) (i : positive) (item : Item)
    (feedSource : jsstring) (parsed : Parsed) (dt : DateTimes)
    (rsvpUrl : option jsstring) (v im t : option positive) :
  has_url u {| ev_id := i;
               ev_data := eventData item feedSource parsed dt rsvpUrl v im t |}
  = JS.eqb (link item) u.
Proof. reflexivity. Qed.

(** With an answered existence query, one item keeps the invariant. *)
Lemma processRSSItem_one_per_url
    (E : Env) (item : Item) (feedSource : jsstring) (s : Store.t) :
  refuses E OpListEvents = false ->
  one_per_url s ->
  one_per_url (snd (processRSSItem E item feedSource s)).
Proof.
  intros Hl Hs u. specialize (Hs u).
  destruct (events_processRSSItem E item feedSource s)
    as [[He _] | [(parsed & e & Hp & _ & Hf & _ & He)
                 | (parsed & v & i & t & s1 & _ & Hn & _ & _ & _ & _ & _ & He)]];
    rewrite He.
  - exact Hs.
  - rewrite filter_map_same, length_map; [exact Hs|].
    intros x. destruct (Pos.eqb (ev_id x) (ev_id e)); [|reflexivity].
    apply has_url_patch. intros f w Hw. apply patch_backfills in Hw. tauto.
  - destruct Hn as [Hn | Hn]; [congruence|].
    rewrite filter_app, length_app. simpl filter. rewrite has_url_new.
    destruct (JS.eqb (link item) u) eqn:Hu; simpl.
    + apply eqb_eq in Hu. subst u.
      rewrite (found_None _ _ Hn). simpl. lia.
    + lia.
Qed.

Section Preservation.

Variables (E : Env) (P : Store.t -> Prop).

Hypothesis item_preserves :
  forall item feedSource s, P s -> P (snd (processRSSItem E item feedSource s)).

Lemma forEachItem_preserves (feedSource : jsstring) (items : list Item)
    (c : Counters) (s : Store.t) :
  P s -> P (snd (forEachItem E feedSource items c s)).
Proof.
  revert c s. induction items as [|item items IH]; intros c s Hs; simpl.
  - exact Hs.
  - unfold bind.
    pose proof (@item_preserves item feedSource s Hs) as H.
    destruct (processRSSItem E item feedSource s) as [r s1]. apply IH, H.
Qed.

Lemma processFeed_preserves (feedConfig : FeedConfig) (s : Store.t) :
  P s -> P (snd (processFeed E feedConfig s)).
Proof.
  intros Hs. unfold processFeed.
  destruct (parseURL E (url feedConfig)); [|exact Hs].
  apply forEachItem_preserves, Hs.
Qed.

Lemma forEachFeed_preserves (feeds : list FeedConfig) (c : Counters)
    (s : Store.t) :
  P s -> P (snd (forEachFeed E feeds c s)).
Proof.
  revert c s. induction feeds as [|f feeds IH]; intros c s Hs; simpl.
  - exact Hs.
  - unfold bind.
    pose proof (@processFeed_preserves f s Hs) as H.
    destruct (processFeed E f s) as [r s1]. apply IH, H.
Qed.

Lemma main_preserves (s : Store.t) : P s -> P (snd (main E s)).
Proof. apply forEachFeed_preserves. Qed.

End Preservation.

(** Counterexample to C1 as stated: with a store that turns down the
    existence query, two runs over the same feed leave two events with
    the same source URL. *)
Lemma refused_query_duplicates :
  let E := Sample.env_unreadable Sample.new_year in
  let s2 := pipeline_runs [E; E] Store.empty in
  List.length (filter (has_url (link Sample.item)) (events s2)) = 2%nat
  /\ ~ one_per_url s2.
Proof.
  intros E s2.
  assert (H : List.length (filter (has_url (link Sample.item)) (events s2))
              = 2%nat) by (vm_compute; reflexivity).
  split; [exact H|].
  intros Hone. specialize (Hone (link Sample.item)). rewrite H in Hone. lia.
Qed.

(** C1, amended. When the store answers the existence query:
    [processRSSItem] keeps the invariant that no two stored events share a
    source URL, and sends no create request for an item whose URL is found
    in the store. Hence the invariant holds after any number of pipeline
    runs in which the existence queries are answered. *)
Theorem one_event_per_source_url :
  (forall E item feedSource s,
      refuses E OpListEvents = false ->
      (one_per_url s -> one_per_url (snd (processRSSItem E item feedSource s)))
      /\ (found (link item) s <> None ->
          forall data,
            ~ In (CreateEvent data)
                 (sent s (snd (processRSSItem E item feedSource s)))))
  /\ (forall Es s,
         (forall E, In E Es -> refuses E OpListEvents = false) ->
         one_per_url s -> one_per_url (pipeline_runs Es s)).
Proof.
  split.
  - intros E item feedSource s Hl. split.
    + apply processRSSItem_one_per_url, Hl.
    + intros Hf data Hin.
      apply sent_processRSSItem in Hin
        as [Hin | [Hin | [(p & e & _ & _ & _ & Hin) | Hin]]];
        try discriminate.
      destruct Hin as (? & ? & ? & ? & ? & ? & _ & _ & [Hn | Hn] & _);
        congruence.
  - induction Es as [|E Es IH]; intros s HEs Hs; simpl.
    + exact Hs.
    + apply IH.
      * intros E' HE'. apply HEs. right. exact HE'.
      * apply main_preserves; [|exact Hs].
        intros item feedSource s0. apply processRSSItem_one_per_url.
        apply HEs. left. reflexivity.
Qed.

Lemma one_event_per_source_url_witness :
  let E := Sample.env Sample.new_year in
  one_per_url (pipeline_runs [E; E; E] Store.empty)
  /\ List.length (events (pipeline_runs [E; E; E] Store.empty)) = 1%nat.
Proof.
  intros E. split; [|vm_compute; reflexivity].
  destruct one_event_per_source_url as [_ H].
  apply H.
  - intros E' [<- | [<- | [<- | []]]]; reflexivity.
  - intros u. simpl. lia.
Defined.

(* ================================================================== *)
(** ** Running the pipeline again *)
(* ================================================================== *)

Lemma grown_refl (e : Event) : grown e e.
Proof. split; [reflexivity | tauto]. Qed.

Lemma grown_trans (a b c : Event) : grown a b -> grown b c -> grown a c.
Proof.
  intros [Hi1 Hf1] [Hi2 Hf2]. split; [congruence|].
  intros f H. apply Hf2, Hf1, H.
Qed.

Lemma found_app_some (u : jsstring) (l l' : list Event) (e : Event) :
  hd_error (filter (has_url u) l) = Some e ->
  hd_error (filter (has_url u) (l ++ l')) = Some e.
Proof.
  rewrite filter_app. destruct (filter (has_url u) l); [discriminate|].
  intros H. exact H.
Qed.

Section Evolution.

Variable E : Env.

Lemma evolves_refl (s : Store.t) : evolves E s s.
Proof.
  split; [|tauto|reflexivity].
  intros u e H. exists e. split; [exact H | apply grown_refl].
Qed.

Lemma evolves_trans (s1 s2 s3 : Store.t) :
  evolves E s1 s2 -> evolves E s2 s3 -> evolves E s1 s3.
Proof.
  intros [f1 a1 t1] [f2 a2 t2]. split.
  - intros u e H. destruct (f1 u e H) as [e' [H' G']].
    destruct (f2 u e' H') as [e'' [H'' G'']].
    exists e''. split; [exact H'' | eapply grown_trans; eassumption].
  - intros Hc u H. apply a2; [exact Hc|]. apply a1; assumption.
  - congruence.
Qed.

(** A step that only sees the same events and tags. *)
Lemma evolves_same (s s' : Store.t) :
  events s' = events s ->
  tag_unavailable E (js "bitplebs") s' = tag_unavailable E (js "bitplebs") s ->
  evolves E s s'.
Proof.
  intros He Ht. split; [| |exact Ht].
  - intros u e H. exists e. split; [|apply grown_refl].
    unfold found in *. rewrite He. exact H.
  - intros _ u H. unfold found in *. rewrite He. exact H.
Qed.

(** The tags the engine can reach do not depend on the item processed. *)
Lemma processRSSItem_tags (item : Item) (feedSource : jsstring) (s : Store.t) :
  tag_unavailable E (js "bitplebs") (snd (processRSSItem E item feedSource s))
  = tag_unavailable E (js "bitplebs") s.
Proof.
  rewrite processRSSItem_eq.
  destruct (parseEventDetails _ _) as [parsed|]; [|reflexivity].
  cbv zeta.
  destruct (startDateTime _) as [[|c start]|]; try reflexivity.
  destruct (isBefore _ _); [reflexivity|].
  set (s0 := log (ListEvents (link item)) s).
  assert (H0 : forall s1, aux_only E s0 s1 ->
                 tag_unavailable E (js "bitplebs") s1
                 = tag_unavailable E (js "bitplebs") s).
  { intros s1 Ha. rewrite (tag_unavailable_aux (js "bitplebs") Ha).
    reflexivity. }
  destruct (if refuses E OpListEvents then None else found (link item) s)
    as [e|].
  - pose proof (updatesNeeded_spec E item parsed (resolveRsvpUrl E item parsed) e s0)
      as [Ha _].
    destruct (updatesNeeded _ _ _ _ _ _) as [patch s1]. simpl in Ha.
    destruct patch as [|p ps]; [exact (H0 _ Ha)|].
    destruct (refuses E OpUpdateEvent); exact (H0 _ Ha).
  - destruct (createNewEvent_spec E item feedSource parsed
                (parseDateTime (host E) (p_dateStr parsed) (p_timeStr parsed))
                (resolveRsvpUrl E item parsed) s0)
      as [s1 [venueId [imageId [tagId [Ha [_ [_ Hc]]]]]]].
    cbv zeta in Hc. rewrite Hc.
    destruct (refuses E OpCreateEvent); exact (H0 _ Ha).
Qed.

Lemma patch_grows (item : Item) (parsed : Parsed) (e : Event) (s : Store.t)
    (x : Event) :
  grown x (patch_event
             (fst (updatesNeeded E item parsed (resolveRsvpUrl E item parsed) e s))
             x).
Proof.
  split; [reflexivity|]. intros f Hf.
  unfold field, patch_event. simpl. rewrite get_app.
  destruct (existsb _ _) eqn:Hk; [|exact Hf].
  apply keys_existsb in Hk as [v Hv].
  assert (Hv' := Hv). apply patch_backfills in Hv' as (_ & _ & Htr & _).
  (* the patch has at most one entry per key *)
  destruct (updatesNeeded_spec E item parsed (resolveRsvpUrl E item parsed) e s)
    as [_ [i [t Hpatch]]].
  rewrite Hpatch in *.
  destruct (wants_image E parsed e), (wants_rsvp _ e), (wants_tag E item e s);
    simpl in Hv |- *;
    repeat match goal with
           | H : _ \/ _ |- _ => destruct H
           | H : False |- _ => destruct H
           | H : (_, _) = (_, _) |- _ => injection H as <- <-
           end; simpl; try reflexivity; try exact Htr;
      destruct (resolveRsvpUrl E item parsed) as [[|? ?]|]; simpl in *;
      try reflexivity; try discriminate.
Qed.

(** Every item moves the store forward. *)
Lemma processRSSItem_evolves (item : Item) (feedSource : jsstring)
    (s : Store.t) :
  evolves E s (snd (processRSSItem E item feedSource s)).
Proof.
  pose proof (processRSSItem_tags item feedSource s) as Ht.
  destruct (events_processRSSItem E item feedSource s)
    as [[He _] | [(parsed & e & Hp & _ & Hf & _ & He)
                 | (parsed & v & i & t & s1 & _ & _ & _ & _ & _ & Hc & _ & He)]].
  - apply evolves_same; assumption.
  - split; [| |exact Ht].
    + intros u x Hx. unfold found in *. rewrite He.
      rewrite filter_map_same.
      * destruct (filter (has_url u) (events s)) as [|y l]; [discriminate|].
        injection Hx as ->. simpl. eexists. split; [reflexivity|].
        destruct (Pos.eqb (ev_id x) (ev_id e)); [|apply grown_refl].
        apply patch_grows.
      * intros y. destruct (Pos.eqb (ev_id y) (ev_id e)); [|reflexivity].
        apply has_url_patch. intros f w Hw. apply patch_backfills in Hw. tauto.
    + intros _ u Hu. unfold found in *. rewrite He.
      rewrite filter_map_same.
      * destruct (filter (has_url u) (events s)); [reflexivity|discriminate].
      * intros y. destruct (Pos.eqb (ev_id y) (ev_id e)); [|reflexivity].
        apply has_url_patch. intros f w Hw. apply patch_backfills in Hw. tauto.
  - split; [| |exact Ht].
    + intros u x Hx. exists x. split; [|apply grown_refl].
      unfold found in *. rewrite He. apply found_app_some, Hx.
    + congruence.
Qed.

End Evolution.

Section Quiet.

Variable E : Env.

Hypothesis answered : refuses E OpListEvents = false.

Lemma complete_grown (item : Item) (parsed : Parsed) (e e' : Event)
    (s s' : Store.t) :
  grown e e' ->
  tag_unavailable E (js "bitplebs") s' = tag_unavailable E (js "bitplebs") s ->
  complete E item parsed e s = true ->
  complete E item parsed e' s' = true.
Proof.
  intros [_ Hg] Ht. unfold complete, wants_image, wants_rsvp, wants_tag.
  rewrite Ht.
  pose proof (Hg Fld.image) as Hi. pose proof (Hg Fld.rsvp_url) as Hr.
  pose proof (Hg Fld.tags) as Hta.
  destruct (truthy_v (field Fld.image e));
    destruct (truthy_v (field Fld.rsvp_url e));
    destruct (truthy_v (field Fld.tags e));
    try rewrite (Hi eq_refl); try rewrite (Hr eq_refl);
    try rewrite (Hta eq_refl); simpl;
    destruct (truthy_v (field Fld.image e'));
    destruct (truthy_v (field Fld.rsvp_url e'));
    destruct (truthy_v (field Fld.tags e')); simpl;
    destruct (image_available E (p_imageUrl parsed));
    destruct (truthy (resolveRsvpUrl E item parsed));
    destruct (test bitplebsPattern (title item));
    destruct (tag_unavailable E (js "bitplebs") s); simpl; congruence.
Qed.

(** Once an item is done, it stays done while the store moves on. *)
Lemma done_as_evolves (item : Item) (r : Result) (s s' : Store.t) :
  evolves E s s' -> done_as E item r s -> done_as E item r s'.
Proof.
  intros [Hf Ha Ht] [Hq Hc]. split.
  - unfold quiet in *. destruct (candidate E item) as [parsed|]; [|exact I].
    destruct (found (link item) s) as [e|] eqn:He.
    + destruct (Hf _ _ He) as [e' [He' Hg]]. rewrite He'.
      destruct Hq as [Hq | Hq]; [left; exact Hq | right].
      eapply complete_grown; eassumption.
    + rewrite (Ha Hq _ He). exact Hq.
  - intros Hs. destruct (Hc Hs) as (parsed & e & Hp & He & Hco & Hid).
    destruct (Hf _ _ He) as [e' [He' Hg]].
    exists parsed, e'. split; [exact Hp|]. split; [exact He'|].
    split; [eapply complete_grown; eassumption|].
    destruct Hg as [-> _]. exact Hid.
Qed.

Lemma patch_shape_nil (a b c : obj) : a ++ b ++ c = [] -> a = [] /\ b = [] /\ c = [].
Proof.
  intros H. apply app_eq_nil in H as [-> H].
  apply app_eq_nil in H as [-> ->]. tauto.
Qed.

Lemma tag_unavailable_log (q : Request) (s : Store.t) :
  tag_unavailable E (js "bitplebs") (log q s)
  = tag_unavailable E (js "bitplebs") s.
Proof. reflexivity. Qed.

Lemma wants_tag_log (item : Item) (e : Event) (q : Request) (s : Store.t) :
  wants_tag E item e (log q s) = wants_tag E item e s.
Proof. reflexivity. Qed.

(** A complete event gets an empty patch. *)
Lemma complete_no_patch (item : Item) (parsed : Parsed) (e : Event)
    (s : Store.t) :
  complete E item parsed e s = true ->
  fst (updatesNeeded E item parsed (resolveRsvpUrl E item parsed) e
                     (log (ListEvents (link item)) s)) = [].
Proof.
  unfold complete. intros H.
  destruct (updatesNeeded_spec E item parsed (resolveRsvpUrl E item parsed) e
              (log (ListEvents (link item)) s)) as [_ [i [t ->]]].
  rewrite wants_tag_log.
  destruct (wants_image E parsed e); [discriminate|].
  destruct (wants_rsvp _ e); [discriminate|].
  destruct (wants_tag E item e s); [discriminate|]. reflexivity.
Qed.

Lemma no_patch_complete (item : Item) (parsed : Parsed) (e : Event)
    (s : Store.t) :
  fst (updatesNeeded E item parsed (resolveRsvpUrl E item parsed) e
                     (log (ListEvents (link item)) s)) = [] ->
  complete E item parsed e s = true.
Proof.
  unfold complete.
  destruct (updatesNeeded_spec E item parsed (resolveRsvpUrl E item parsed) e
              (log (ListEvents (link item)) s)) as [_ [i [t ->]]].
  rewrite wants_tag_log. intros H. apply patch_shape_nil in H as (Hi & Hr & Ht).
  destruct (wants_image E parsed e); [discriminate|].
  destruct (wants_rsvp _ e); [discriminate|].
  destruct (wants_tag E item e s); [discriminate|]. reflexivity.
Qed.

(** After its patch is applied, an event is complete. *)
Lemma complete_patched (item : Item) (parsed : Parsed) (e : Event)
    (s s' : Store.t) :
  tag_unavailable E (js "bitplebs") s' = tag_unavailable E (js "bitplebs") s ->
  complete E item parsed
           (patch_event
              (fst (updatesNeeded E item parsed (resolveRsvpUrl E item parsed) e
                                  (log (ListEvents (link item)) s))) e)
           s' = true.
Proof.
  intros Ht.
  destruct (updatesNeeded_spec E item parsed (resolveRsvpUrl E item parsed) e
              (log (ListEvents (link item)) s)) as [_ [i [t ->]]].
  rewrite wants_tag_log.
  unfold complete, wants_image, wants_rsvp, wants_tag, field, patch_event.
  rewrite Ht. simpl ev_data.
  destruct (truthy_v (get Fld.image (ev_data e))) eqn:H1;
    destruct (truthy_v (get Fld.rsvp_url (ev_data e))) eqn:H2;
    destruct (truthy_v (get Fld.tags (ev_data e))) eqn:H3;
    destruct (image_available E (p_imageUrl parsed));
    destruct (resolveRsvpUrl E item parsed) as [[|? ?]|];
    destruct (test bitplebsPattern (title item));
    destruct (tag_unavailable E (js "bitplebs") s);
    simpl; rewrite ?H1, ?H2, ?H3; reflexivity.
Qed.

Lemma truthy_of_str_or_else (r : option jsstring) :
  truthy_v (of_str (or_else r None)) = truthy r.
Proof. destruct r as [[|? ?]|]; reflexivity. Qed.

(** A freshly created event is complete. *)
Lemma complete_new (item : Item) (feedSource : jsstring) (parsed : Parsed)
    (dt : DateTimes) (venueId imageId tagId : option positive) (n : positive)
    (s s' : Store.t) :
  (imageId = None <-> image_available E (p_imageUrl parsed) = false) ->
  (tagId = None <->
   test bitplebsPattern (title item) = false
   \/ tag_unavailable E (js "bitplebs") s = true) ->
  tag_unavailable E (js "bitplebs") s' = tag_unavailable E (js "bitplebs") s ->
  complete E item parsed
           {| ev_id := n;
              ev_data := eventData item feedSource parsed dt
                           (resolveRsvpUrl E item parsed)
                           venueId imageId tagId |} s' = true.
Proof.
  intros Hi Ht Hs.
  unfold complete, wants_image, wants_rsvp, wants_tag, field. simpl ev_data.
  rewrite get_image, get_rsvp_url, get_tags, truthy_of_str_or_else, Hs.
  destruct (truthy (resolveRsvpUrl E item parsed)); simpl;
    rewrite ?andb_true_r, ?andb_false_r; simpl.
  - destruct imageId as [i|]; simpl.
    + destruct tagId as [t|]; simpl; [rewrite andb_false_r; reflexivity|].
      destruct Ht as [Ht _]. destruct (Ht eq_refl) as [-> | ->];
        simpl; rewrite ?andb_false_r; reflexivity.
    + destruct Hi as [Hi _]. rewrite (Hi eq_refl). simpl.
      destruct tagId as [t|]; simpl; [rewrite andb_false_r; reflexivity|].
      destruct Ht as [Ht _]. destruct (Ht eq_refl) as [-> | ->];
        simpl; rewrite ?andb_false_r; reflexivity.
  - destruct imageId as [i|]; simpl.
    + destruct tagId as [t|]; simpl; [rewrite andb_false_r; reflexivity|].
      destruct Ht as [Ht _]. destruct (Ht eq_refl) as [-> | ->];
        simpl; rewrite ?andb_false_r; reflexivity.
    + destruct Hi as [Hi _]. rewrite (Hi eq_refl). simpl.
      destruct tagId as [t|]; simpl; [rewrite andb_false_r; reflexivity|].
      destruct Ht as [Ht _]. destruct (Ht eq_refl) as [-> | ->];
        simpl; rewrite ?andb_false_r; reflexivity.
Qed.

End Quiet.

Section Runs.

Variable E : Env.

Hypothesis answered : refuses E OpListEvents = false.

Lemma candidate_some (item : Item) (parsed : Parsed) :
  candidate E item = Some parsed ->
  parseEventDetails (cheerio E) (contentEncoded item) = Some parsed
  /\ exists c start,
       startDateTime (parseDateTime (host E) (p_dateStr parsed)
                                    (p_timeStr parsed)) = Some (c :: start)
       /\ isBefore (dayjs_of (host E) (c :: start)) (dayjs_now (host E)) = false.
Proof.
  unfold candidate.
  destruct (parseEventDetails _ _) as [p|]; [|discriminate].
  destruct (startDateTime _) as [[|c start]|] eqn:Hs; try discriminate.
  destruct (isBefore _ _) eqn:Hb; [discriminate|].
  intros [= ->]. split; [reflexivity|]. exists c, start. tauto.
Qed.

(** [processRSSItem] on an item that is not a candidate. *)
Lemma processRSSItem_no_candidate (item : Item) (feedSource : jsstring)
    (s : Store.t) :
  candidate E item = None ->
  snd (processRSSItem E item feedSource s) = s
  /\ status (fst (processRSSItem E item feedSource s)) <> Status.created
  /\ status (fst (processRSSItem E item feedSource s)) <> Status.updated.
Proof.
  unfold candidate. rewrite processRSSItem_eq.
  destruct (parseEventDetails _ _) as [p|];
    [|intros _; simpl; repeat split; discriminate].
  cbv zeta.
  destruct (startDateTime _) as [[|c start]|];
    try (intros _; simpl; repeat split; discriminate).
  destruct (isBefore _ _); [|discriminate].
  intros _; simpl; repeat split; discriminate.
Qed.

(** [processRSSItem] on a candidate. *)
Lemma processRSSItem_candidate (item : Item) (feedSource : jsstring)
    (s : Store.t) (parsed : Parsed) :
  candidate E item = Some parsed ->
  processRSSItem E item feedSource s
  = let rsvpUrl := resolveRsvpUrl E item parsed in
    let s0 := log (ListEvents (link item)) s in
    match found (link item) s with
    | Some e =>
        let '(patch, s1) := updatesNeeded E item parsed rsvpUrl e s0 in
        match patch with
        | [] => (skip_existing e, s1)
        | _ =>
            let s2 := log (UpdateEvent (ev_id e) patch) s1 in
            if refuses E OpUpdateEvent then (skip_existing e, s2)
            else (update_existing e, modify_event (ev_id e) patch s2)
        end
    | None =>
        createNewEvent E item feedSource parsed
          (parseDateTime (host E) (p_dateStr parsed) (p_timeStr parsed))
          rsvpUrl s0
    end.
Proof.
  intros Hc. destruct (candidate_some _ Hc) as [Hp [c [start [Hs Hb]]]].
  rewrite processRSSItem_eq, Hp. cbv zeta. rewrite Hs, Hb, answered.
  reflexivity.
Qed.

Lemma found_same_events (u : jsstring) (s s' : Store.t) :
  events s' = events s -> found u s' = found u s.
Proof. unfold found. intros ->. reflexivity. Qed.

(** Once processed, an item is done. *)
Lemma processRSSItem_done (item : Item) (feedSource : jsstring) (s : Store.t) :
  done_as E item (fst (processRSSItem E item feedSource s))
          (snd (processRSSItem E item feedSource s)).
Proof.
  unfold done_as, quiet.
  destruct (candidate E item) as [parsed|] eqn:Hc.
  2:{ destruct (processRSSItem_no_candidate item feedSource s Hc)
        as (_ & Hn & _).
      split; [exact I | intros H; contradiction]. }
  pose proof (processRSSItem_tags E item feedSource s) as Htags.
  rewrite (processRSSItem_candidate item feedSource s Hc) in *. cbv zeta in *.
  destruct (found (link item) s) as [e|] eqn:Hf.
  - pose proof (updatesNeeded_spec E item parsed (resolveRsvpUrl E item parsed)
                  e (log (ListEvents (link item)) s)) as [Ha _].
    pose proof (@no_patch_complete E item parsed e s) as Hnp.
    pose proof (@complete_patched E item parsed e s) as Hcp.
    destruct (updatesNeeded _ _ _ _ _ _) as [patch s1] eqn:Hu.
    simpl in Ha, Hnp, Hcp.
    pose proof (aux_events Ha) as He. simpl in He.
    destruct patch as [|p ps].
    + simpl in *. rewrite (found_same_events _ _ _ He), Hf.
      split; [|discriminate]. right.
      eapply complete_grown; [apply grown_refl | exact Htags |].
      apply Hnp. reflexivity.
    + destruct (refuses E OpUpdateEvent) eqn:Hup; simpl in *.
      * rewrite (found_same_events (link item) s
                   (log (UpdateEvent (ev_id e) (p :: ps)) s1) He), Hf.
        split; [left; reflexivity | discriminate].
      * split; [|discriminate].
        assert (Hfound : found (link item)
                           (modify_event (ev_id e) (p :: ps)
                              (log (UpdateEvent (ev_id e) (p :: ps)) s1))
                         = Some (patch_event (p :: ps) e)).
        { unfold found. simpl. rewrite He.
          rewrite filter_map_same.
          - unfold found in Hf.
            destruct (filter (has_url (link item)) (events s)) as [|y l];
              [discriminate|].
            injection Hf as ->. simpl. rewrite Pos.eqb_refl. reflexivity.
          - intros y. destruct (Pos.eqb (ev_id y) (ev_id e)); [|reflexivity].
            apply has_url_patch. intros f w Hw.
            assert (Hw' : In (f, w)
                            (fst (updatesNeeded E item parsed
                                    (resolveRsvpUrl E item parsed) e
                                    (log (ListEvents (link item)) s))))
              by (rewrite Hu; exact Hw).
            apply patch_backfills in Hw'. tauto. }
        rewrite Hfound. right. apply Hcp. exact Htags.
  - destruct (createNewEvent_spec E item feedSource parsed
                (parseDateTime (host E) (p_dateStr parsed) (p_timeStr parsed))
                (resolveRsvpUrl E item parsed) (log (ListEvents (link item)) s))
      as [s1 [venueId [imageId [tagId [Ha [Hi [Ht Hcr]]]]]]].
    cbv zeta in Hcr. rewrite Hcr in *. clear Hcr.
    pose proof (aux_events Ha) as He. simpl in He.
    set (data := eventData item feedSource parsed
                   (parseDateTime (host E) (p_dateStr parsed) (p_timeStr parsed))
                   (resolveRsvpUrl E item parsed) venueId imageId tagId) in *.
    destruct (refuses E OpCreateEvent) eqn:Hce; cbn [fst snd] in *.
    + rewrite (found_same_events (link item) s (log (CreateEvent data) s1) He),
        Hf.
      split; [reflexivity | discriminate].
    + set (new := {| ev_id := next_id s1; ev_data := data |}).
      set (s' := snd (insert_event data (log (CreateEvent data) s1))) in *.
      assert (Hfound : found (link item) s' = Some new).
      { unfold found. subst s'. simpl. rewrite He, filter_app.
        rewrite (found_None _ _ Hf). simpl.
        subst data. rewrite has_url_new, eqb_refl. reflexivity. }
      rewrite Hfound.
      assert (Hco : complete E item parsed new s' = true).
      { eapply complete_new; [exact Hi | exact Ht | exact Htags]. }
      split; [right; exact Hco|].
      intros _. exists parsed, new. repeat split; assumption.
Qed.

Lemma aux_no_event_write (new : list Request) :
  forallb aux_request new = true -> forallb no_event_write new = true.
Proof.
  induction new as [|q new IH]; simpl; [reflexivity|].
  intros H. apply andb_true_iff in H as [Hq Hn]. rewrite (IH Hn), andb_true_r.
  destruct q; try discriminate; reflexivity.
Qed.

(** An item that is done leaves the events alone when processed again. *)
Lemma processRSSItem_idle (item : Item) (feedSource : jsstring)
    (first : Result * list Request) (s : Store.t) :
  done_as E item (fst first) s ->
  events (snd (processRSSItem E item feedSource s)) = events s
  /\ idle_after first
                (fst (processRSSItem E item feedSource s),
                 sent s (snd (processRSSItem E item feedSource s))).
Proof.
  unfold done_as, quiet, idle_after, unchanged. cbn [fst snd].
  intros [Hq Hcr].
  destruct (candidate E item) as [parsed|] eqn:Hc.
  2:{ destruct (processRSSItem_no_candidate item feedSource s Hc)
        as (Hs & Hn1 & Hn2).
      rewrite Hs. split; [reflexivity|]. split.
      - destruct (status (fst (processRSSItem E item feedSource s)));
          tauto.
      - intros H. destruct (Hcr H) as (? & ? & ? & _). discriminate. }
  rewrite (processRSSItem_candidate item feedSource s Hc). cbv zeta.
  destruct (found (link item) s) as [e|] eqn:Hf.
  - pose proof (updatesNeeded_spec E item parsed (resolveRsvpUrl E item parsed)
                  e (log (ListEvents (link item)) s)) as [Ha _].
    pose proof (@complete_no_patch E item parsed e s) as Hnp.
    destruct (updatesNeeded _ _ _ _ _ _) as [patch s1] eqn:Hu.
    simpl in Ha, Hnp.
    pose proof (aux_events Ha) as He. simpl in He.
    destruct (aux_only_after_log Ha) as [_ [new [Hr Hnew]]].
    assert (Hid : status (fst first) = Status.created ->
                  skip_existing e
                  = result Status.skipped (Some already_exists) (id (fst first))
                  /\ patch = []).
    { intros H. destruct (Hcr H) as (p' & e' & Hp' & He' & Hco & Hi).
      injection Hp' as <-. injection He' as <-.
      split; [rewrite Hi; reflexivity | apply Hnp, Hco]. }
    destruct patch as [|p ps].
    + cbn [fst snd]. split; [exact He|]. split; [left; reflexivity|].
      intros H. split; [apply Hid, H|].
      rewrite (sent_app _ _ _ Hr). simpl.
      apply aux_no_event_write, Hnew.
    + destruct Hq as [Hq | Hq]; [|apply Hnp in Hq; discriminate].
      rewrite Hq. cbn [fst snd]. split; [exact He|].
      split; [left; reflexivity|].
      intros H. destruct (Hid H) as [_ Hnil]. discriminate.
  - destruct (createNewEvent_spec E item feedSource parsed
                (parseDateTime (host E) (p_dateStr parsed) (p_timeStr parsed))
                (resolveRsvpUrl E item parsed) (log (ListEvents (link item)) s))
      as [s1 [venueId [imageId [tagId [Ha [_ [_ Hcre]]]]]]].
    cbv zeta in Hcre. rewrite Hcre, Hq. cbn [fst snd].
    pose proof (aux_events Ha) as He. simpl in He.
    split; [exact He|]. split; [right; reflexivity|].
    intros H. destruct (Hcr H) as (? & ? & _ & ? & _). discriminate.
Qed.

End Runs.

Section Pipeline.

Variable E : Env.

Hypothesis answered : refuses E OpListEvents = false.

Lemma workResults_cons (item : Item) (feedSource : jsstring)
    (w : list (Item * jsstring)) (s : Store.t) :
  workResults E ((item, feedSource) :: w) s
  = ((fst (processRSSItem E item feedSource s),
      sent s (snd (processRSSItem E item feedSource s)))
       :: fst (workResults E w (snd (processRSSItem E item feedSource s))),
     snd (workResults E w (snd (processRSSItem E item feedSource s)))).
Proof.
  simpl. destruct (processRSSItem E item feedSource s) as [r s1].
  cbn [fst snd]. destruct (workResults E w s1) as [rs s2]. reflexivity.
Qed.

Lemma workResults_evolves (w : list (Item * jsstring)) (s : Store.t) :
  evolves E s (snd (workResults E w s)).
Proof.
  revert s. induction w as [|[item feedSource] w IH]; intros s.
  - apply evolves_refl.
  - rewrite workResults_cons. cbn [snd].
    eapply evolves_trans; [apply processRSSItem_evolves | apply IH].
Qed.

(** After a run, every item it processed is done. *)
Lemma first_run (w : list (Item * jsstring)) (s : Store.t) :
  Forall2 (fun x r => done_as E (fst x) (fst r) (snd (workResults E w s)))
          w (fst (workResults E w s)).
Proof.
  revert s. induction w as [|[item feedSource] w IH]; intros s.
  - constructor.
  - rewrite workResults_cons. cbn [fst snd]. constructor; [|apply IH].
    cbn [fst]. eapply done_as_evolves; [apply workResults_evolves|].
    apply processRSSItem_done, answered.
Qed.

(** A run over items that are all done changes no event. *)
Lemma second_run (w : list (Item * jsstring))
    (rs : list (Result * list Request)) (s : Store.t) :
  Forall2 (fun x r => done_as E (fst x) (fst r) s) w rs ->
  events (snd (workResults E w s)) = events s
  /\ Forall2 idle_after rs (fst (workResults E w s)).
Proof.
  revert rs s.
  induction w as [|[item feedSource] w IH]; intros rs s H;
    inversion H as [|x r w' rs' Hd Hrest]; subst.
  - split; [reflexivity | constructor].
  - rewrite workResults_cons. cbn [fst snd]. cbn [fst] in Hd.
    destruct (@processRSSItem_idle E answered item feedSource r s Hd)
      as [He Hi].
    assert (Hrest' : Forall2 (fun x r => done_as E (fst x) (fst r)
                                (snd (processRSSItem E item feedSource s)))
                             w rs').
    { clear - Hrest. induction Hrest; constructor; [|assumption].
      eapply done_as_evolves; [apply processRSSItem_evolves | eassumption]. }
    destruct (IH rs' _ Hrest') as [He2 Hi2].
    split; [congruence | constructor; assumption].
Qed.

Lemma workResults_app (w1 w2 : list (Item * jsstring)) (s : Store.t) :
  workResults E (w1 ++ w2) s
  = (fst (workResults E w1 s)
       ++ fst (workResults E w2 (snd (workResults E w1 s))),
     snd (workResults E w2 (snd (workResults E w1 s)))).
Proof.
  revert s. induction w1 as [|[item feedSource] w1 IH]; intros s.
  - simpl. destruct (workResults E w2 s); reflexivity.
  - rewrite <- app_comm_cons, !workResults_cons, IH. reflexivity.
Qed.

Lemma forEachItem_work (feedSource : jsstring) (items : list Item)
    (c : Counters) (s : Store.t) :
  forEachItem E feedSource items c s
  = (fold_left count
       (List.map fst
          (fst (workResults E (List.map (fun item => (item, feedSource)) items) s)))
       c,
     snd (workResults E (List.map (fun item => (item, feedSource)) items) s)).
Proof.
  revert c s. induction items as [|item items IH]; intros c s.
  - reflexivity.
  - cbn [List.map]. rewrite workResults_cons. cbn [forEachItem].
    unfold bind.
    destruct (processRSSItem E item feedSource s) as [r s1].
    rewrite IH. reflexivity.
Qed.

Lemma count_unchanged (rs : list (Result * list Request)) (c : Counters) :
  Forall (fun x => unchanged (fst x)) rs ->
  created (fold_left count (List.map fst rs) c) = created c
  /\ updated (fold_left count (List.map fst rs) c) = updated c.
Proof.
  intros H. revert c. induction H as [|r rs Hr _ IH]; intros c; simpl.
  - tauto.
  - destruct (IH (count c (fst r))) as [-> ->].
    unfold count. destruct Hr as [-> | ->]; simpl; tauto.
Qed.

Lemma forEachFeed_work (feeds : list FeedConfig) (c : Counters) (s : Store.t) :
  snd (forEachFeed E feeds c s) = snd (workResults E (work_of E feeds) s)
  /\ (Forall (fun x => unchanged (fst x))
             (fst (workResults E (work_of E feeds) s)) ->
      created (fst (forEachFeed E feeds c s)) = created c
      /\ updated (fst (forEachFeed E feeds c s)) = updated c).
Proof.
  revert c s. induction feeds as [|f feeds IH]; intros c s.
  - simpl. tauto.
  - simpl forEachFeed. unfold bind.
    change (work_of E (f :: feeds))
      with (match parseURL E (url f) with
            | None => []
            | Some items => List.map (fun item => (item, source f)) items
            end ++ work_of E feeds).
    rewrite workResults_app. simpl fst. simpl snd.
    unfold processFeed.
    destruct (parseURL E (url f)) as [items|].
    + rewrite forEachItem_work.
      set (w := List.map (fun item => (item, source f)) items).
      destruct (IH (add c (fold_left count
                              (List.map fst (fst (workResults E w s)))
                              {| total := List.length items; created := 0;
                                 updated := 0; skipped := 0; failed := 0 |}))
                   (snd (workResults E w s))) as [IH1 IH2].
      split; [exact IH1|].
      intros Hall. apply Forall_app in Hall as [H1 H2].
      destruct (IH2 H2) as [-> ->].
      destruct (@count_unchanged _
                  {| total := List.length items; created := 0;
                     updated := 0; skipped := 0; failed := 0 |} H1)
        as [Hc Hu].
      unfold add. simpl. rewrite Hc, Hu. simpl. lia.
    + simpl. destruct (IH (add c zero) s) as [IH1 IH2].
      split; [exact IH1|]. intros Hall. destruct (IH2 Hall) as [-> ->].
      unfold add. simpl. lia.
Qed.

Lemma idle_unchanged (rs1 rs2 : list (Result * list Request)) :
  Forall2 idle_after rs1 rs2 -> Forall (fun x => unchanged (fst x)) rs2.
Proof.
  induction 1 as [|r1 r2 rs1 rs2 [H _] _ IH]; constructor; assumption.
Qed.

End Pipeline.

(** Counterexample to C2 as stated: with a store that turns down the
    existence query, the second run over the same feed and the store the
    first run left creates the event again. *)
Lemma refused_query_recreates :
  let E := Sample.env_unreadable Sample.new_year in
  let s1 := snd (main E Store.empty) in
  created (fst (main E Store.empty)) = 1%nat
  /\ created (fst (main E s1)) = 1%nat
  /\ List.length (events (snd (main E s1))) = 2%nat.
Proof. vm_compute. repeat split; reflexivity. Qed.

(** C2, amended. When the store answers the existence query, running the
    pipeline again in the same environment, on the store the first run
    left, counts no create and no update and changes no event: every item
    is skipped or fails, and every item the first run created is skipped
    as already existing, under the id it was given and without an update
    request, its patch being empty. *)
Theorem second_run_is_idle (E : Env) (s0 : Store.t) :
  refuses E OpListEvents = false ->
  let s1 := snd (main E s0) in
  created (fst (main E s1)) = 0%nat
  /\ updated (fst (main E s1)) = 0%nat
  /\ events (snd (main E s1)) = events s1
  /\ Forall2 idle_after (fst (workResults E (work E) s0))
                        (fst (workResults E (work E) s1)).
Proof.
  intros Hl s1.
  assert (Hs1 : s1 = snd (workResults E (work E) s0)).
  { subst s1. unfold main.
    destruct (forEachFeed_work E RSS_FEEDS zero s0) as [H _]. exact H. }
  pose proof (@first_run E Hl (work E) s0) as Hdone. rewrite <- Hs1 in Hdone.
  destruct (@second_run E Hl _ _ _ Hdone) as [He Hidle].
  destruct (forEachFeed_work E RSS_FEEDS zero s1) as [Hs2 Hc].
  destruct (Hc (@idle_unchanged _ _ Hidle)) as [Hcr Hup].
  unfold main. rewrite Hcr, Hup, Hs2.
  repeat split; try reflexivity; assumption.
Qed.

Lemma second_run_is_idle_witness :
  let E := Sample.env Sample.new_year in
  let s1 := snd (main E Store.empty) in
  created (fst (main E Store.empty)) = 1%nat
  /\ created (fst (main E s1)) = 0%nat
  /\ updated (fst (main E s1)) = 0%nat
  /\ events (snd (main E s1)) = events s1.
Proof.
  intros E s1. split; [vm_compute; reflexivity|].
  destruct (second_run_is_idle E Store.empty eq_refl) as (H1 & H2 & H3 & _).
  split; [exact H1|]. split; [exact H2 | exact H3].
Defined.

(** A feed of three items, one well-formed and upcoming, one past, one
    without a blockquote: one created, one skipped, one failed. *)
Example three_item_feed :
  fst (main (Sample.env Sample.new_year) Store.empty)
  = {| total := 3; created := 1; updated := 0; skipped := 1; failed := 1 |}.
Proof. vm_compute. reflexivity. Qed.
(* ================================================================== *)
(** ** The requests, the result and the counters of a run *)
(* ================================================================== *)

Section Trace.

Variable E : Env.

(** What [processRSSItem] answers and does, case by case: it stops before
    the store is consulted, or it sends the existence query, auxiliary
    requests and at most one write to the events. *)
Lemma processRSSItem_trace (item : Item) (feedSource : jsstring) (s : Store.t) :
  let r := fst (processRSSItem E item feedSource s) in
  let s' := snd (processRSSItem E item feedSource s) in
  (s' = s
   /\ (r = result Status.failed (Some parse_error) None
       \/ r = result Status.failed (Some date_parse_error) None
       \/ r = result Status.skipped (Some past_event) None))
  \/ exists aux w,
       requests s' = requests s ++ ListEvents (link item) :: aux ++ w
       /\ forallb aux_request aux = true
       /\ EventWrite E item s w
       /\ match w with
          | [] =>
              events s' = events s
              /\ exists e, found (link item) s = Some e /\ r = skip_existing e
          | [UpdateEvent i patch] =>
              exists e,
                found (link item) s = Some e /\ i = ev_id e
                /\ (forall f v, In (f, v) patch ->
                      backfill_field f = true
                      /\ truthy_v (field f e) = false /\ truthy_v v = true)
                /\ if refuses E OpUpdateEvent
                   then events s' = events s /\ r = skip_existing e
                   else events s'
                        = List.map (fun x => if Pos.eqb (ev_id x) i
                                             then patch_event patch x else x)
                                   (events s)
                        /\ r = update_existing e
          | [CreateEvent data] =>
              (exists parsed venueId imageId tagId,
                  parseEventDetails (cheerio E) (contentEncoded item)
                  = Some parsed
                  /\ data = eventData item feedSource parsed
                              (parseDateTime (host E) (p_dateStr parsed)
                                             (p_timeStr parsed))
                              (resolveRsvpUrl E item parsed)
                              venueId imageId tagId)
              /\ if refuses E OpCreateEvent
                 then events s' = events s
                      /\ r = result Status.failed (Some create_error) None
                 else exists i,
                     events s' = events s ++ [{| ev_id := i; ev_data := data |}]
                     /\ r = result Status.created None (Some i)
          | _ => False
          end.
Proof.
  cbv zeta. rewrite processRSSItem_eq.
  destruct (parseEventDetails _ _) as [parsed|] eqn:Hp;
    [|left; split; [reflexivity | tauto]].
  cbv zeta.
  destruct (startDateTime _) as [[|c start]|] eqn:Hs;
    try (left; split; [reflexivity | tauto]).
  destruct (isBefore _ _); [left; split; [reflexivity | tauto]|].
  right.
  set (s0 := log (ListEvents (link item)) s).
  assert (Hcreate :
            refuses E OpListEvents = true \/ found (link item) s = None ->
            let x := createNewEvent E item feedSource parsed
                       (parseDateTime (host E) (p_dateStr parsed)
                                      (p_timeStr parsed))
                       (resolveRsvpUrl E item parsed) s0 in
            exists aux w,
              requests (snd x) = requests s ++ ListEvents (link item) :: aux ++ w
              /\ forallb aux_request aux = true
              /\ EventWrite E item s w
              /\ match w with
                 | [CreateEvent data] =>
                     (exists parsed' venueId imageId tagId,
                         Some parsed = Some parsed'
                         /\ data = eventData item feedSource parsed'
                                     (parseDateTime (host E) (p_dateStr parsed')
                                                    (p_timeStr parsed'))
                                     (resolveRsvpUrl E item parsed')
                                     venueId imageId tagId)
                     /\ if refuses E OpCreateEvent
                        then events (snd x) = events s
                             /\ fst x = result Status.failed (Some create_error) None
                        else exists i,
                            events (snd x)
                            = events s ++ [{| ev_id := i; ev_data := data |}]
                            /\ fst x = result Status.created None (Some i)
                 | _ => False
                 end).
  { intros Hwhy. cbv zeta.
    destruct (createNewEvent_spec E item feedSource parsed
                (parseDateTime (host E) (p_dateStr parsed) (p_timeStr parsed))
                (resolveRsvpUrl E item parsed) s0)
      as (s1 & venueId & imageId & tagId & Ha & _ & _ & Heq).
    cbv zeta in Heq. rewrite Heq.
    destruct Ha as [Hev [aux [Hreq Haux]] _].
    exists aux.
    eexists [CreateEvent _].
    split; [|split; [exact Haux|split; [apply WriteCreate, Hwhy|]]].
    - destruct (refuses E OpCreateEvent); simpl; rewrite Hreq; simpl;
        rewrite <- !app_assoc; reflexivity.
    - split; [exists parsed, venueId, imageId, tagId; split; reflexivity|].
      destruct (refuses E OpCreateEvent); simpl.
      + split; [rewrite Hev; reflexivity | reflexivity].
      + exists (next_id s1). rewrite Hev. split; reflexivity. }
  destruct (refuses E OpListEvents) eqn:Hl.
  { destruct (Hcreate (or_introl eq_refl)) as (aux & w & H1 & H2 & H3 & H4).
    exists aux, w. repeat split; try assumption.
    destruct w as [|[] [|]]; try contradiction.
    destruct H4 as [(p' & v & i & t & [= <-] & Hd) Hrest].
    split; [exists parsed, v, i, t; split; [reflexivity | exact Hd]|].
    exact Hrest. }
  destruct (found (link item) s) as [e|] eqn:Hf.
  2:{ destruct (Hcreate (or_intror eq_refl)) as (aux & w & H1 & H2 & H3 & H4).
      exists aux, w. repeat split; try assumption.
      destruct w as [|[] [|]]; try contradiction.
      destruct H4 as [(p' & v & i & t & [= <-] & Hd) Hrest].
      split; [exists parsed, v, i, t; split; [reflexivity | exact Hd]|].
      exact Hrest. }
  clear Hcreate.
  destruct (updatesNeeded_spec E item parsed (resolveRsvpUrl E item parsed) e s0)
    as [[Hev [aux [Hreq Haux]] _] _].
  pose proof (fun f v => @patch_backfills E item parsed e s0 f v) as Hpatch.
  destruct (updatesNeeded E item parsed (resolveRsvpUrl E item parsed) e s0)
    as [patch s1].
  cbn [fst snd] in *.
  exists aux.
  destruct patch as [|p ps].
  - exists []. cbn [fst snd]. rewrite Hreq, Hev. simpl.
    rewrite <- app_assoc, app_nil_r.
    split; [reflexivity|]. split; [exact Haux|]. split; [constructor|].
    split; [reflexivity|]. exists e. split; reflexivity.
  - exists [UpdateEvent (ev_id e) (p :: ps)].
    split; [|split; [exact Haux|split; [apply WriteUpdate; [exact Hl|exact Hf|discriminate]|]]].
    + destruct (refuses E OpUpdateEvent); simpl; rewrite Hreq; simpl;
        rewrite <- !app_assoc; reflexivity.
    + exists e. split; [reflexivity|]. split; [reflexivity|].
      split; [intros f v Hin; destruct (Hpatch f v Hin); tauto|].
      destruct (refuses E OpUpdateEvent); simpl; rewrite Hev; split; reflexivity.
Qed.

End Trace.

(* ================================================================== *)
(** ** Counters *)
(* ================================================================== *)

Lemma Counters_eq (a b : Counters) :
  total a = total b -> created a = created b -> updated a = updated b ->
  skipped a = skipped b -> failed a = failed b -> a = b.
Proof. destruct a, b; simpl; intros; subst; reflexivity. Qed.

Lemma tally_app (l1 l2 : list Result) :
  tally (l1 ++ l2) = add (tally l1) (tally l2).
Proof.
  unfold tally, add. simpl. rewrite !filter_app, !length_app. reflexivity.
Qed.

Lemma add_assoc (a b c : Counters) : add (add a b) c = add a (add b c).
Proof. unfold add. simpl. apply Counters_eq; simpl; lia. Qed.

Lemma add_zero_r (a : Counters) : add a zero = a.
Proof. apply Counters_eq; simpl; lia. Qed.

Lemma add_zero_l (a : Counters) : add zero a = a.
Proof. apply Counters_eq; simpl; lia. Qed.

(** The loop over the items adds each result to its bucket and leaves
    the total alone. *)
Lemma fold_count_tally (rs : list Result) (c : Counters) :
  fold_left count rs c
  = {| total := total c;
       created := created c + created (tally rs);
       updated := updated c + updated (tally rs);
       skipped := skipped c + skipped (tally rs);
       failed := failed c + failed (tally rs) |}.
Proof.
  revert c. induction rs as [|r rs IH]; intros c.
  - apply Counters_eq; simpl; lia.
  - cbn [fold_left]. rewrite IH. unfold count, tally, has_status.
    destruct (status r) eqn:Hs; apply Counters_eq; simpl; rewrite ?Hs; simpl; lia.
Qed.

Section Counting.

Variable E : Env.

Lemma processFeed_tally (feedConfig : FeedConfig) (s : Store.t) :
  let w := work_of E [feedConfig] in
  processFeed E feedConfig s
  = (tally (List.map fst (fst (workResults E w s))), snd (workResults E w s)).
Proof.
  cbv zeta. unfold processFeed, work_of. cbn [flat_map]. rewrite app_nil_r.
  destruct (parseURL E (url feedConfig)) as [items|]; [|reflexivity].
  rewrite forEachItem_work. f_equal. rewrite fold_count_tally.
  apply Counters_eq; simpl; try reflexivity.
  rewrite !length_map.
  clear. generalize s. induction items as [|item items IH]; intros s0.
  - reflexivity.
  - cbn [List.map]. rewrite workResults_cons. cbn [fst List.length].
    rewrite <- IH. reflexivity.
Qed.

Lemma work_of_cons (f : FeedConfig) (feeds : list FeedConfig) :
  work_of E (f :: feeds) = work_of E [f] ++ work_of E feeds.
Proof. unfold work_of. cbn [flat_map]. rewrite app_nil_r. reflexivity. Qed.

Lemma forEachFeed_tally (feeds : list FeedConfig) (c : Counters) (s : Store.t) :
  forEachFeed E feeds c s
  = (add c (tally (List.map fst (fst (workResults E (work_of E feeds) s)))),
     snd (workResults E (work_of E feeds) s)).
Proof.
  revert c s. induction feeds as [|f feeds IH]; intros c s.
  - simpl. unfold ret. rewrite add_zero_r. reflexivity.
  - cbn [forEachFeed]. unfold bind.
    pose proof (processFeed_tally f s) as Hf. cbv zeta in Hf. rewrite Hf.
    rewrite IH.
    rewrite (work_of_cons f feeds).
    rewrite (workResults_app E (work_of E [f]) (work_of E feeds) s).
    cbn [fst snd]. rewrite map_app, tally_app, add_assoc. reflexivity.
Qed.

End Counting.

Lemma accounted_tally (rs : list Result) : accounted (tally rs).
Proof.
  unfold accounted, tally, has_status. simpl.
  induction rs as [|r rs IH]; [reflexivity|].
  simpl. destruct (status r); simpl; lia.
Qed.

Lemma workResults_length (E : Env) (w : list (Item * jsstring)) (s : Store.t) :
  List.length (fst (workResults E w s)) = List.length w.
Proof.
  revert s. induction w as [|[item feedSource] w IH]; intros s; [reflexivity|].
  rewrite workResults_cons. simpl. rewrite IH. reflexivity.
Qed.

Lemma main_tally (E : Env) (s : Store.t) :
  main E s = (tally (results_of E s), snd (workResults E (work E) s)).
Proof.
  unfold main. rewrite forEachFeed_tally, add_zero_l. reflexivity.
Qed.


(* ================================================================== *)
(** ** What the requests of an item are *)
(* ================================================================== *)

Lemma aux_not_event (p : Request -> bool) (aux : list Request) :
  (forall q, aux_request q = true -> p q = false) ->
  forallb aux_request aux = true -> filter p aux = [].
Proof.
  intros Hp. induction aux as [|q aux IH]; simpl; [reflexivity|].
  intros H. apply andb_true_iff in H as [Hq H].
  rewrite (Hp _ Hq). apply IH, H.
Qed.

Lemma aux_no_create (aux : list Request) :
  forallb aux_request aux = true -> filter is_create aux = [].
Proof. apply aux_not_event. intros []; simpl; congruence. Qed.

Lemma aux_no_update (aux : list Request) :
  forallb aux_request aux = true -> filter is_update aux = [].
Proof. apply aux_not_event. intros []; simpl; congruence. Qed.

Lemma aux_no_query (aux : list Request) :
  forallb aux_request aux = true -> filter is_query aux = [].
Proof. apply aux_not_event. intros []; simpl; congruence. Qed.

(** X2. The requests of one item. The log of the store is only added to.
    An item sends nothing at all, or it sends first the existence query
    for its own link, then nothing but uploads and venue and tag requests,
    and last at most one write to the events: an update, with a patch
    that is not empty, of the event the query found, or a create when the
    query found nothing or failed. *)
Theorem requests_of_an_item
    (E : Env) (item : Item) (feedSource : jsstring) (s : Store.t) :
  let s' := snd (processRSSItem E item feedSource s) in
  requests s' = requests s ++ sent s s'
  /\ (sent s s' = []
      \/ exists aux w,
           sent s s' = ListEvents (link item) :: aux ++ w
           /\ forallb aux_request aux = true
           /\ EventWrite E item s w).
Proof.
  cbv zeta.
  destruct (processRSSItem_trace E item feedSource s)
    as [[Hs _] | (aux & w & Hreq & Haux & Hw & _)].
  - rewrite Hs, sent_same, app_nil_r. split; [reflexivity | left; reflexivity].
  - rewrite (sent_app _ _ _ Hreq). split; [exact Hreq|].
    right. exists aux, w. repeat split; assumption.
Qed.

(* ================================================================== *)
(** ** Counters and store agree *)
(* ================================================================== *)

Section Effects.

Variable E : Env.

(** One item: what its result says is what happened to the store. *)
Lemma item_effects (item : Item) (feedSource : jsstring) (s : Store.t) :
  let r := fst (processRSSItem E item feedSource s) in
  let s' := snd (processRSSItem E item feedSource s) in
  let new := sent s s' in
  requests s' = requests s ++ new
  /\ List.length (events s')
     = (List.length (events s) + one_if (has_status Status.created r))%nat
  /\ one_if (has_status Status.created r)
     = (if refuses E OpCreateEvent then 0
        else List.length (filter is_create new))%nat
  /\ one_if (has_status Status.updated r)
     = (if refuses E OpUpdateEvent then 0
        else List.length (filter is_update new))%nat
  /\ (List.length (filter is_query new) <= 1)%nat.
Proof.
  cbv zeta.
  destruct (processRSSItem_trace E item feedSource s)
    as [[Hs Hr] | (aux & w & Hreq & Haux & Hw & Hcase)].
  - rewrite Hs, sent_same, app_nil_r. split; [reflexivity|].
    assert (Hc : has_status Status.created
                   (fst (processRSSItem E item feedSource s)) = false
                 /\ has_status Status.updated
                      (fst (processRSSItem E item feedSource s)) = false)
      by (destruct Hr as [-> | [-> | ->]]; split; reflexivity).
    destruct Hc as [-> ->]. simpl.
    repeat split; try lia;
      match goal with |- context [refuses E ?o] => destruct (refuses E o) end;
      reflexivity.
  - rewrite (sent_app _ _ _ Hreq). split; [exact Hreq|].
    cbn [filter is_create is_update is_query].
    rewrite !filter_app, (aux_no_create _ Haux), (aux_no_update _ Haux),
      (aux_no_query _ Haux). cbn [app].
    destruct Hw as [|e patch Hl Hf Hne|data Hwhy].
    + destruct Hcase as [He [e [_ ->]]]. rewrite He. simpl.
      repeat split; try lia;
        match goal with |- context [refuses E ?o] => destruct (refuses E o) end;
        reflexivity.
    + destruct Hcase as (e' & _ & _ & _ & Hcase). simpl.
      destruct (refuses E OpUpdateEvent); destruct Hcase as [He ->].
      * rewrite He. simpl.
        repeat split; try lia. destruct (refuses E OpCreateEvent); reflexivity.
      * rewrite He, length_map. simpl.
        repeat split; try lia. destruct (refuses E OpCreateEvent); reflexivity.
    + destruct Hcase as [_ Hcase]. simpl.
      destruct (refuses E OpCreateEvent).
      * destruct Hcase as [He ->]. rewrite He. simpl.
        repeat split; try lia. destruct (refuses E OpUpdateEvent); reflexivity.
      * destruct Hcase as [i [He ->]]. rewrite He, length_app. simpl.
        repeat split; try lia. destruct (refuses E OpUpdateEvent); reflexivity.
Qed.

Lemma tally_cons (r : Result) (rs : list Result) :
  created (tally (r :: rs))
  = (one_if (has_status Status.created r) + created (tally rs))%nat
  /\ updated (tally (r :: rs))
     = (one_if (has_status Status.updated r) + updated (tally rs))%nat
  /\ total (tally (r :: rs)) = S (total (tally rs)).
Proof.
  unfold tally. simpl.
  destruct (has_status Status.created r), (has_status Status.updated r);
    simpl; repeat split; reflexivity.
Qed.

(** A whole list of items. *)
Lemma work_effects (w : list (Item * jsstring)) (s : Store.t) :
  let rs := List.map fst (fst (workResults E w s)) in
  let s' := snd (workResults E w s) in
  let new := sent s s' in
  requests s' = requests s ++ new
  /\ List.length (events s')
     = (List.length (events s) + created (tally rs))%nat
  /\ created (tally rs)
     = (if refuses E OpCreateEvent then 0
        else List.length (filter is_create new))%nat
  /\ updated (tally rs)
     = (if refuses E OpUpdateEvent then 0
        else List.length (filter is_update new))%nat
  /\ (List.length (filter is_query new) <= total (tally rs))%nat.
Proof.
  revert s. induction w as [|[item feedSource] w IH]; intros s.
  - cbv zeta. simpl. rewrite sent_same, app_nil_r. simpl.
    repeat split; try lia;
      match goal with |- context [refuses E ?o] => destruct (refuses E o) end;
      reflexivity.
  - cbv zeta. rewrite workResults_cons. cbn [fst snd List.map].
    destruct (item_effects item feedSource s) as (H1 & H2 & H3 & H4 & H5).
    set (s1 := snd (processRSSItem E item feedSource s)) in *.
    set (r := fst (processRSSItem E item feedSource s)) in *.
    destruct (IH s1) as (I1 & I2 & I3 & I4 & I5).
    set (s2 := snd (workResults E w s1)) in *.
    set (rs := List.map fst (fst (workResults E w s1))) in *.
    assert (Hreq : requests s2 = requests s ++ sent s s1 ++ sent s1 s2)
      by (rewrite I1, H1, <- app_assoc; reflexivity).
    rewrite (sent_app _ _ _ Hreq).
    destruct (tally_cons r rs) as (T1 & T2 & T3). rewrite T1, T2, T3.
    rewrite !filter_app, !length_app.
    split; [exact Hreq|]. split; [lia|].
    split; [|split].
    + rewrite H3, I3. destruct (refuses E OpCreateEvent); reflexivity.
    + rewrite H4, I4. destruct (refuses E OpUpdateEvent); reflexivity.
    + lia.
Qed.

End Effects.


(* ================================================================== *)
(** ** The answer of an item *)
(* ================================================================== *)

Lemma has_url_field (u : jsstring) (e : Event) :
  has_url u e = true -> field Fld.external_url e = VStr u.
Proof.
  unfold has_url. destruct (field Fld.external_url e); try discriminate.
  intros H. apply eqb_eq in H. subst. reflexivity.
Qed.

(** X4. The answers of [processRSSItem]. A created or updated answer
    carries an id and, for updated, the reason fields_updated; a skipped
    answer is past_event without an id or already_exists with one; a
    failed answer has no id and one of the reasons parse_error,
    date_parse_error and create_error. Whenever an answer carries an id,
    the store then holds an event with that id whose external_url is the
    link of the item. *)
Theorem answer_names_a_stored_event
    (E : Env) (item : Item) (feedSource : jsstring) (s : Store.t) :
  let r := fst (processRSSItem E item feedSource s) in
  let s' := snd (processRSSItem E item feedSource s) in
  well_formed_result r
  /\ forall i, id r = Some i ->
       exists e, In e (events s') /\ ev_id e = i
                 /\ field Fld.external_url e = VStr (link item).
Proof.
  cbv zeta.
  destruct (processRSSItem_trace E item feedSource s)
    as [[Hs Hr] | (aux & w & Hreq & Haux & Hw & Hcase)].
  - destruct Hr as [-> | [-> | ->]]; (split; [|discriminate]);
      unfold well_formed_result; simpl; tauto.
  - destruct Hw as [|e patch Hl Hf Hne|data Hwhy].
    + destruct Hcase as [He [e [Hf ->]]]. split.
      * unfold well_formed_result. simpl. right. split; congruence.
      * intros i [= <-]. apply found_In in Hf as [Hin Hu].
        exists e. rewrite He. repeat split; [exact Hin|].
        apply has_url_field, Hu.
    + destruct Hcase as (e' & Hf' & _ & Hp & Hcase).
      rewrite Hf in Hf'. injection Hf' as <-.
      apply found_In in Hf as [Hin Hu].
      destruct (refuses E OpUpdateEvent); destruct Hcase as [He ->].
      * split; [unfold well_formed_result; simpl; right; split; congruence|].
        intros i [= <-]. exists e. rewrite He. repeat split; [exact Hin|].
        apply has_url_field, Hu.
      * split; [unfold well_formed_result; simpl; split; congruence|].
        intros i [= <-]. exists (patch_event patch e). rewrite He.
        split; [|split; [reflexivity|]].
        -- apply in_map_iff. exists e. rewrite Pos.eqb_refl. tauto.
        -- apply has_url_field. rewrite has_url_patch; [exact Hu|].
           intros f v Hv. apply Hp in Hv. tauto.
    + destruct Hcase as [(parsed & v & im & t & _ & ->) Hcase].
      destruct (refuses E OpCreateEvent).
      * destruct Hcase as [_ ->]. split; [|discriminate].
        unfold well_formed_result. simpl. tauto.
      * destruct Hcase as [i [He ->]].
        split; [unfold well_formed_result; simpl; split; congruence|].
        intros i' [= <-]. eexists. rewrite He.
        split; [apply in_or_app; right; left; reflexivity|].
        split; reflexivity.
Qed.

(** X5. A created answer means that exactly one event was added, at the
    end of the collection and under the id of the answer, and that every
    other event is as it was. The new event carries the title, link, guid
    and raw content of the item and the source label of the feed, it is
    marked imported and published, and its start and end are the two
    instants the resolver read. *)
Theorem created_event_is_the_item
    (E : Env) (item : Item) (feedSource : jsstring) (s : Store.t) :
  let r := fst (processRSSItem E item feedSource s) in
  let s' := snd (processRSSItem E item feedSource s) in
  status r = Status.created ->
  exists i e parsed,
    r = result Status.created None (Some i)
    /\ events s' = events s ++ [e]
    /\ ev_id e = i
    /\ parseEventDetails (cheerio E) (contentEncoded item) = Some parsed
    /\ field Fld.title e = VStr (title item)
    /\ field Fld.external_url e = VStr (link item)
    /\ field Fld.external_id e = VStr (guid item)
    /\ field Fld.raw_description e = VStr (contentEncoded item)
    /\ field Fld.source_feed e = VStr feedSource
    /\ field Fld.is_imported e = VBool true
    /\ field Fld.status e = VStr (js "published")
    /\ field Fld.start_date_time e
       = of_str (startDateTime (parseDateTime (host E) (p_dateStr parsed)
                                              (p_timeStr parsed)))
    /\ field Fld.end_date_time e
       = of_str (endDateTime (parseDateTime (host E) (p_dateStr parsed)
                                            (p_timeStr parsed)))
    /\ truthy_v (field Fld.start_date_time e) = true
    /\ truthy_v (field Fld.end_date_time e) = true.
Proof.
  cbv zeta.
  destruct (processRSSItem_trace E item feedSource s)
    as [[Hs Hr] | (aux & w & Hreq & Haux & Hw & Hcase)].
  - destruct Hr as [-> | [-> | ->]]; discriminate.
  - destruct Hw as [|e patch Hl Hf Hne|data Hwhy].
    + destruct Hcase as [_ [e [_ ->]]]. discriminate.
    + destruct Hcase as (e' & _ & _ & _ & Hcase).
      destruct (refuses E OpUpdateEvent); destruct Hcase as [_ ->]; discriminate.
    + destruct Hcase as [(parsed & v & im & t & Hp & ->) Hcase].
      destruct (refuses E OpCreateEvent).
      * destruct Hcase as [_ ->]. discriminate.
      * destruct Hcase as [i [He ->]]. intros _.
        eexists i, _, parsed. split; [reflexivity|]. split; [exact He|].
        split; [reflexivity|]. split; [exact Hp|].
        destruct (parseDateTime_shape (host E) (p_dateStr parsed)
                                      (p_timeStr parsed))
          as [Hd | [a [b Hd]]].
        -- exfalso. clear - Hd Hreq Haux Hwhy He Hp.
           pose proof (processRSSItem_eq E item feedSource s) as Heq.
           rewrite Hp in Heq. cbv zeta in Heq. rewrite Hd in Heq.
           simpl in Heq. rewrite Heq in Hreq. simpl in Hreq.
           apply (f_equal (@List.length _)) in Hreq.
           rewrite length_app in Hreq. simpl in Hreq. lia.
        -- unfold field. cbn [ev_data]. rewrite get_end_date_time.
           rewrite Hd. cbn [startDateTime endDateTime].
           rewrite or_else_end_start.
           repeat split; try reflexivity; simpl; apply format_truthy.
Qed.

Lemma created_event_is_the_item_witness :
  let E := Sample.env Sample.new_year in
  let r := fst (processRSSItem E Sample.item Sample.feed_source Store.empty) in
  let s' := snd (processRSSItem E Sample.item Sample.feed_source Store.empty) in
  status r = Status.created
  /\ exists e, events s' = events Store.empty ++ [e]
               /\ field Fld.external_url e = VStr (link Sample.item)
               /\ field Fld.start_date_time e = VStr (js "2026-01-26T18:00:00").
Proof.
  intros E r s'.
  assert (Hc : status r = Status.created) by (vm_compute; reflexivity).
  split; [exact Hc|].
  assert (Hp' : parseEventDetails (cheerio E) (contentEncoded Sample.item)
                = Some Sample.parsed) by (vm_compute; reflexivity).
  destruct (created_event_is_the_item E Sample.item Sample.feed_source
                                      Store.empty Hc)
    as (i & e & parsed & _ & He & _ & Hp & _ & Hu & _ & _ & _ & _ & _ & Hs & _).
  rewrite Hp' in Hp. injection Hp as <-.
  exists e. split; [exact He|]. split; [exact Hu|].
  rewrite Hs. vm_compute. reflexivity.
Defined.

(* ================================================================== *)
(** ** Venues and tags: one record per name *)
(* ================================================================== *)

Section Combinators.

Variables (E : Env) (P : Store.t -> Prop).

Lemma preserves_ret {A} (a : A) : preserves P (ret a).
Proof. intros s H. exact H. Qed.

Lemma preserves_bind {A B} (m : M A) (f : A -> M B) :
  preserves P m -> (forall a, preserves P (f a)) -> preserves P (bind m f).
Proof.
  intros Hm Hf s H. unfold bind. specialize (Hm s H).
  destruct (m s) as [a s1]. apply Hf, Hm.
Qed.

Lemma preserves_send {A} (r : Request) (accept : Store.t -> A * Store.t) :
  (forall s, P s -> P (log r s)) ->
  (forall s, P s -> P (snd (accept s))) ->
  preserves P (send E r accept).
Proof.
  intros Hl Ha s H. rewrite send_eq.
  destruct (refuses E (op_of r)); simpl; auto.
Qed.

End Combinators.

Lemma filter_name_app {A} (name : A -> jsstring) (l : list A) (x : A) (n : jsstring) :
  filter (fun y => JS.eqb (name y) n) (l ++ [x])
  = filter (fun y => JS.eqb (name y) n) l
      ++ (if JS.eqb (name x) n then [x] else []).
Proof. rewrite filter_app. reflexivity. Qed.

(** Adding a record whose name is not there keeps names unique. *)
Lemma one_per_name_add {A} (name : A -> jsstring) (l : list A) (x : A) :
  filter (fun y => JS.eqb (name y) (name x)) l = [] ->
  one_per_name name l -> one_per_name name (l ++ [x]).
Proof.
  intros Hnew H n. rewrite filter_name_app, length_app.
  destruct (JS.eqb (name x) n) eqn:Hn; simpl.
  - apply eqb_eq in Hn. subst n. rewrite Hnew. simpl. lia.
  - specialize (H n). lia.
Qed.

Lemma firstn_1_nil {A} (l : list A) : firstn 1 l = [] -> l = [].
Proof. destruct l; [reflexivity | discriminate]. Qed.

Section Names.

Variable E : Env.

Lemma names_same (s s' : Store.t) :
  tags s' = tags s -> venues s' = venues s ->
  names_unique s -> names_unique s'.
Proof. unfold names_unique. intros -> ->. tauto. Qed.

Lemma names_log (q : Request) (s : Store.t) :
  names_unique s -> names_unique (log q s).
Proof. apply names_same; reflexivity. Qed.

Lemma findOrCreateTag_names (n : jsstring) :
  preserves names_unique (findOrCreateTag E n).
Proof.
  intros s H. unfold findOrCreateTag.
  destruct n as [|c n]; [exact H|].
  unfold bind, listTags. rewrite send_eq. simpl op_of.
  destruct (refuses E OpListTags); simpl; [apply names_log, H|].
  destruct (filter (fun t => JS.eqb (t_name t) (c :: n)) (tags s))
    as [|t l] eqn:Hf; simpl; [|apply names_log, H].
  unfold createTag. rewrite send_eq. simpl op_of.
  destruct (refuses E OpCreateTag); simpl; [apply names_log, names_log, H|].
  destruct H as [Ht Hv]. split; simpl; [|exact Hv].
  apply one_per_name_add; [exact Hf | exact Ht].
Qed.

Lemma findOrCreateVenue_names (n a : option jsstring) :
  preserves names_unique (findOrCreateVenue E n a).
Proof.
  intros s H. unfold findOrCreateVenue.
  destruct n as [[|c n]|]; try exact H.
  unfold bind, listVenues. rewrite send_eq. simpl op_of.
  destruct (refuses E OpListVenues); simpl; [apply names_log, H|].
  destruct (filter (fun v => JS.eqb (v_name v) (c :: n)) (venues s))
    as [|v l] eqn:Hf; simpl; [|apply names_log, H].
  unfold createVenue. rewrite send_eq. simpl op_of.
  destruct (refuses E OpCreateVenue); simpl; [apply names_log, names_log, H|].
  destruct H as [Ht Hv]. split; simpl; [exact Ht|].
  apply one_per_name_add; [exact Hf | exact Hv].
Qed.

Lemma downloadAndUploadImage_names (u : option jsstring) :
  preserves names_unique (downloadAndUploadImage E u).
Proof.
  unfold downloadAndUploadImage.
  destruct u as [[|c u]|]; try apply preserves_ret.
  destruct (fetch_image E (c :: u)); [|apply preserves_ret].
  apply preserves_send; intros s; apply names_same; reflexivity.
Qed.

Lemma updatesNeeded_names (item : Item) (parsed : Parsed)
    (rsvpUrl : option jsstring) (e : Event) :
  preserves names_unique (updatesNeeded E item parsed rsvpUrl e).
Proof.
  unfold updatesNeeded.
  apply preserves_bind.
  - destruct (_ && _)%bool; [|apply preserves_ret].
    apply preserves_bind; [apply downloadAndUploadImage_names|].
    intros; apply preserves_ret.
  - intros imagePart. apply preserves_bind.
    + destruct (_ && _)%bool; [|apply preserves_ret].
      apply preserves_bind; [apply findOrCreateTag_names|].
      intros; apply preserves_ret.
    + intros; apply preserves_ret.
Qed.

Lemma createNewEvent_names (item : Item) (feedSource : jsstring)
    (parsed : Parsed) (dt : DateTimes) (rsvpUrl : option jsstring) :
  preserves names_unique (createNewEvent E item feedSource parsed dt rsvpUrl).
Proof.
  unfold createNewEvent.
  apply preserves_bind.
  { destruct (truthy _); [apply downloadAndUploadImage_names | apply preserves_ret]. }
  intros imageId. apply preserves_bind.
  { destruct (truthy _); [apply findOrCreateVenue_names | apply preserves_ret]. }
  intros venueId. apply preserves_bind.
  { destruct (test _ _); [apply findOrCreateTag_names | apply preserves_ret]. }
  intros tagId. apply preserves_bind.
  { apply preserves_send; intros s; apply names_same; reflexivity. }
  intros [newId|]; apply preserves_ret.
Qed.

Lemma processRSSItem_names (item : Item) (feedSource : jsstring) :
  preserves names_unique (processRSSItem E item feedSource).
Proof.
  unfold processRSSItem.
  destruct (parseEventDetails _ _) as [parsed|]; [|apply preserves_ret].
  cbv zeta.
  destruct (startDateTime _) as [[|c start]|]; try apply preserves_ret.
  destruct (isBefore _ _); [apply preserves_ret|].
  apply preserves_bind.
  { apply preserves_send; intros s; apply names_same; reflexivity. }
  intros [[|e l]|]; try apply createNewEvent_names.
  apply preserves_bind; [apply updatesNeeded_names|].
  intros [|p ps]; [apply preserves_ret|].
  apply preserves_bind.
  { apply preserves_send; intros s; apply names_same; reflexivity. }
  intros [|]; apply preserves_ret.
Qed.

End Names.

(** X6. Tags and venues are found or created under one [try]: a lookup
    that fails ends the helper, it never falls through to the create. So
    whatever the store refuses and whatever the feeds hold, a store with
    at most one tag and one venue per name still has at most one per name
    after [findOrCreateTag], after [findOrCreateVenue] and after a whole
    run. *)
Theorem names_stay_unique (E : Env) (s : Store.t) :
  names_unique s ->
  (forall tagName, names_unique (snd (findOrCreateTag E tagName s)))
  /\ (forall venueName venueAddress,
         names_unique (snd (findOrCreateVenue E venueName venueAddress s)))
  /\ names_unique (snd (main E s)).
Proof.
  intros H. split; [|split].
  - intros n. apply findOrCreateTag_names, H.
  - intros n a. apply findOrCreateVenue_names, H.
  - apply main_preserves; [|exact H].
    intros item feedSource s0. apply processRSSItem_names.
Qed.

Lemma names_stay_unique_witness :
  let s1 := snd (main (Sample.env Sample.new_year) Store.empty) in
  let s2 := snd (main (env_no_lookup Sample.new_year) s1) in
  names_unique s1
  /\ List.map t_name (tags s1) = [js "bitplebs"]
  /\ List.length (events s2) = 2%nat
  /\ names_unique s2.
Proof.
  intros s1 s2.
  assert (Ht : tags s1 = [{| t_id := 3; t_name := js "bitplebs" |}])
    by (vm_compute; reflexivity).
  assert (Hv : venues s1
               = [{| v_id := 2; v_name := js "The Pub";
                     v_address := js "1 Main St, Washington, DC" |}])
    by (vm_compute; reflexivity).
  assert (H1 : names_unique s1).
  { split; intros n.
    - rewrite Ht. cbn [filter t_name]. destruct (JS.eqb _ n); simpl; lia.
    - rewrite Hv. cbn [filter v_name]. destruct (JS.eqb _ n); simpl; lia. }
  split; [exact H1|]. split; [vm_compute; reflexivity|].
  split; [vm_compute; reflexivity|].
  exact (proj2 (proj2 (names_stay_unique (env_no_lookup Sample.new_year) H1))).
Defined.

(* ================================================================== *)
(** ** Find or create, asked twice *)
(* ================================================================== *)

Lemma hd_filter_name {A} (name : A -> jsstring) (n : jsstring)
    (l : list A) (x : A) (rest : list A) :
  filter (fun y => JS.eqb (name y) n) l = x :: rest ->
  In x l /\ name x = n.
Proof.
  intros H.
  assert (Hin : In x (filter (fun y => JS.eqb (name y) n) l))
    by (rewrite H; left; reflexivity).
  apply filter_In in Hin as [Hin Hn]. apply eqb_eq in Hn. tauto.
Qed.

(** X7. When [findOrCreateTag] answers with an id, the store holds a tag
    of that name under that id: one that was there already (then nothing
    is created), or a new one added at the end. Asking again for the same
    name gives the same id and sends the lookup only. *)
Theorem find_or_create_tag_settles
    (E : Env) (tagName : jsstring) (s : Store.t) (i : positive) :
  fst (findOrCreateTag E tagName s) = Some i ->
  let s1 := snd (findOrCreateTag E tagName s) in
  (exists t, In t (tags s1) /\ tag_named tagName i t)
  /\ (tags s1 = tags s
      \/ (tags s1 = tags s ++ [{| t_id := i; t_name := tagName |}]
          /\ forall t, In t (tags s) -> t_name t <> tagName))
  /\ findOrCreateTag E tagName s1 = (Some i, log (ListTags tagName) s1).
Proof.
  unfold findOrCreateTag.
  destruct tagName as [|c n]; [discriminate|].
  unfold bind, listTags. rewrite send_eq. simpl op_of.
  destruct (refuses E OpListTags) eqn:Hl; [discriminate|].
  cbn [fst snd log tags].
  destruct (filter (fun t => JS.eqb (t_name t) (c :: n)) (tags s))
    as [|t l] eqn:Hf.
  - cbn [firstn]. unfold createTag. rewrite send_eq. simpl op_of.
    destruct (refuses E OpCreateTag);
      cbn [fst snd insert_tag log next_id tags]; [discriminate|].
    intros [= <-]. cbv zeta.
    split; [|split].
    + eexists. split; [apply in_or_app; right; left; reflexivity|].
      split; reflexivity.
    + right. split; [reflexivity|].
      intros t Hin Hn.
      assert (Hx : In t (filter (fun t => JS.eqb (t_name t) (c :: n)) (tags s)))
        by (apply filter_In; split; [exact Hin | apply eqb_eq, Hn]).
      rewrite Hf in Hx. exact Hx.
    + rewrite send_eq. simpl op_of. rewrite Hl.
      cbn [fst snd log tags]. rewrite filter_name_app, Hf.
      cbn [t_name]. rewrite eqb_refl. reflexivity.
  - cbn [firstn ret fst snd]. intros [= <-]. cbv zeta.
    destruct (hd_filter_name _ _ _ Hf) as [Hin Hn].
    split; [|split].
    + exists t. split; [exact Hin|]. split; [reflexivity | exact Hn].
    + left. reflexivity.
    + rewrite send_eq. simpl op_of. rewrite Hl.
      cbn [fst snd log tags]. rewrite Hf. reflexivity.
Qed.

Lemma find_or_create_tag_settles_witness :
  let E := Sample.env Sample.new_year in
  let s1 := snd (findOrCreateTag E (js "bitplebs") Store.empty) in
  fst (findOrCreateTag E (js "bitplebs") Store.empty) = Some 1%positive
  /\ findOrCreateTag E (js "bitplebs") s1
     = (Some 1%positive, log (ListTags (js "bitplebs")) s1).
Proof.
  intros E s1.
  assert (H : fst (findOrCreateTag E (js "bitplebs") Store.empty)
              = Some 1%positive) by (vm_compute; reflexivity).
  split; [exact H|].
  exact (proj2 (proj2 (find_or_create_tag_settles E (js "bitplebs")
                                                  Store.empty H))).
Defined.

(** X8. When [findOrCreateVenue] answers with an id, the store holds a
    venue of that name under that id: one that was there already, or a
    new one added at the end, with the given address or, when none is
    given, the empty string. Asking again for the same name, with whatever
    address, gives the same id, sends the lookup only and leaves every
    venue, and so the address stored first, as it is. *)
Theorem find_or_create_venue_settles
    (E : Env) (venueName : jsstring) (venueAddress : option jsstring)
    (s : Store.t) (i : positive) :
  fst (findOrCreateVenue E (Some venueName) venueAddress s) = Some i ->
  let s1 := snd (findOrCreateVenue E (Some venueName) venueAddress s) in
  (exists v, In v (venues s1) /\ venue_named venueName i v)
  /\ (venues s1 = venues s
      \/ (venues s1
          = venues s ++ [{| v_id := i; v_name := venueName;
                            v_address := match venueAddress with
                                         | Some ((_ :: _) as a) => a
                                         | _ => []
                                         end |}]
          /\ forall v, In v (venues s) -> v_name v <> venueName))
  /\ forall otherAddress,
       findOrCreateVenue E (Some venueName) otherAddress s1
       = (Some i, log (ListVenues venueName) s1).
Proof.
  unfold findOrCreateVenue.
  destruct venueName as [|c n]; [discriminate|].
  unfold bind, listVenues. rewrite send_eq. simpl op_of.
  destruct (refuses E OpListVenues) eqn:Hl; [discriminate|].
  cbn [fst snd log venues].
  destruct (filter (fun v => JS.eqb (v_name v) (c :: n)) (venues s))
    as [|v l] eqn:Hf.
  - cbn [firstn]. unfold createVenue. rewrite send_eq. simpl op_of.
    destruct (refuses E OpCreateVenue);
      cbn [fst snd insert_venue log next_id venues]; [discriminate|].
    intros [= <-]. cbv zeta.
    split; [|split].
    + eexists. split; [apply in_or_app; right; left; reflexivity|].
      split; reflexivity.
    + right. split.
      * f_equal. f_equal. f_equal.
        destruct venueAddress as [[|? ?]|]; reflexivity.
      * intros v Hin Hn.
        assert (Hx : In v (filter (fun v => JS.eqb (v_name v) (c :: n))
                                  (venues s)))
          by (apply filter_In; split; [exact Hin | apply eqb_eq, Hn]).
        rewrite Hf in Hx. exact Hx.
    + intros otherAddress. rewrite send_eq. simpl op_of. rewrite Hl.
      cbn [fst snd log venues]. rewrite filter_name_app, Hf.
      cbn [v_name]. rewrite eqb_refl. reflexivity.
  - cbn [firstn ret fst snd]. intros [= <-]. cbv zeta.
    destruct (hd_filter_name _ _ _ Hf) as [Hin Hn].
    split; [|split].
    + exists v. split; [exact Hin|]. split; [reflexivity | exact Hn].
    + left. reflexivity.
    + intros otherAddress. rewrite send_eq. simpl op_of. rewrite Hl.
      cbn [fst snd log venues]. rewrite Hf. reflexivity.
Qed.

Lemma find_or_create_venue_settles_witness :
  let E := Sample.env Sample.new_year in
  let s1 := snd (findOrCreateVenue E (Some (js "The Pub")) None Store.empty) in
  fst (findOrCreateVenue E (Some (js "The Pub")) None Store.empty)
  = Some 1%positive
  /\ List.map v_address (venues s1) = [[]]
  /\ findOrCreateVenue E (Some (js "The Pub")) (Some (js "1 Main St")) s1
     = (Some 1%positive, log (ListVenues (js "The Pub")) s1).
Proof.
  intros E s1.
  assert (H : fst (findOrCreateVenue E (Some (js "The Pub")) None Store.empty)
              = Some 1%positive) by (vm_compute; reflexivity).
  split; [exact H|]. split; [vm_compute; reflexivity|].
  exact (proj2 (proj2 (find_or_create_venue_settles E (js "The Pub") None
                                                   Store.empty H))
               (Some (js "1 Main St"))).
Defined.
(* ================================================================== *)
(** ** The matcher on input of a known shape *)
(* ================================================================== *)

Lemma at_app (pre w rest : jsstring) (c : caps) :
  MState (List.length pre + List.length w) rest c = at_ (pre ++ w) rest c.
Proof. unfold at_. rewrite length_app. reflexivity. Qed.

Lemma matches_to_cat (a b : re) (p0 r0 : jsstring) (c0 : caps)
    (p1 r1 : jsstring) (c1 : caps) (p2 r2 : jsstring) (c2 : caps) :
  matches_to a p0 r0 c0 p1 r1 c1 -> matches_to b p1 r1 c1 p2 r2 c2 ->
  matches_to (Cat a b) p0 r0 c0 p2 r2 c2.
Proof. intros Ha Hb k x Hk. cbn [run]. apply Ha, Hb, Hk. Qed.

Lemma matches_to_eps (p r : jsstring) (c : caps) : matches_to Eps p r c p r c.
Proof. intros k x Hk. exact Hk. Qed.

Lemma reads_cls (p : N -> bool) (ch : N) (rest : jsstring) :
  p ch = true -> reads (Cls p) [ch] rest.
Proof.
  intros Hp pre c k x Hk. cbn [run app]. unfold at_ at 1, advance.
  cbn [m_rest m_pos m_caps]. rewrite Hp.
  unfold at_ in Hk. rewrite length_app, Nat.add_1_r in Hk. exact Hk.
Qed.

(** A starred class is greedy: it reads a whole run of the class when
    what follows accepts that. *)
Lemma reads_star (p : N -> bool) (w rest : jsstring) :
  forallb p w = true -> stops p rest -> reads (Star (Cls p)) w rest.
Proof.
  intros Hw Hstop pre c k x Hk. cbn [run].
  unfold at_ at 2. cbn [m_rest].
  match goal with
  | |- ?f _ _ = _ => set (loop := f)
  end.
  assert (H : forall w fuel pre,
             (List.length w <= fuel)%nat -> forallb p w = true ->
             k (at_ (pre ++ w) rest c) = Some x ->
             loop fuel (at_ pre (w ++ rest) c) = Some x).
  { clear w Hw pre Hk. induction w as [|a w IH]; intros fuel pre Hf Hw Hk.
    - rewrite app_nil_r in Hk. cbn [app].
      destruct fuel as [|fuel]; [exact Hk|].
      cbn [loop run]. unfold at_ at 1, advance. cbn [m_rest m_pos m_caps].
      destruct rest as [|b rest]; [exact Hk|].
      simpl in Hstop. rewrite Hstop. exact Hk.
    - destruct fuel as [|fuel]; [simpl in Hf; lia|].
      simpl in Hw. apply andb_true_iff in Hw as [Ha Hw].
      cbn [loop run app]. unfold at_ at 1, advance.
      cbn [m_rest m_pos m_caps]. rewrite Ha.
      unfold at_ at 1. cbn [m_pos].
      replace (List.length pre <? S (List.length pre))%nat with true
        by (symmetry; apply Nat.ltb_lt; lia).
      fold loop.
      replace (MState (S (List.length pre)) (w ++ rest) c)
        with (at_ (pre ++ [a]) (w ++ rest) c)
        by (unfold at_; rewrite length_app, Nat.add_1_r; reflexivity).
      rewrite (IH fuel (pre ++ [a])); [reflexivity | simpl in Hf; lia | exact Hw|].
      rewrite <- app_assoc. exact Hk. }
  apply H; [unfold at_; cbn [m_rest]; rewrite length_app; lia | exact Hw | exact Hk].
Qed.

Lemma reads_plus (p : N -> bool) (w rest : jsstring) :
  w <> [] -> forallb p w = true -> stops p rest -> reads (Plus (Cls p)) w rest.
Proof.
  intros Hne Hw Hstop pre c. destruct w as [|a w]; [congruence|].
  simpl in Hw. apply andb_true_iff in Hw as [Ha Hw].
  unfold Plus. eapply matches_to_cat.
  - apply (@reads_cls p a (w ++ rest) Ha pre c).
  - replace (pre ++ a :: w) with ((pre ++ [a]) ++ w)
      by (rewrite <- app_assoc; reflexivity).
    apply (@reads_star p w rest Hw Hstop).
Qed.

Lemma reads_cat (a b : re) (w1 w2 rest : jsstring) :
  reads a w1 (w2 ++ rest) -> reads b w2 rest -> reads (Cat a b) (w1 ++ w2) rest.
Proof.
  intros Ha Hb pre c. eapply matches_to_cat.
  - rewrite <- app_assoc. apply Ha.
  - rewrite app_assoc. apply Hb.
Qed.

Lemma reads_eps (rest : jsstring) : reads Eps [] rest.
Proof.
  intros pre c k x Hk. rewrite app_nil_r in Hk. exact Hk.
Qed.

(** A group records what its pattern reads. *)
Lemma matches_to_grp (i : nat) (a : re) (w rest pre : jsstring) (c : caps) :
  reads a w rest ->
  matches_to (Grp i a) pre (w ++ rest) c (pre ++ w) rest ((i, w) :: c).
Proof.
  intros Ha k x Hk. cbn [run]. apply Ha.
  unfold at_ in *. cbn [m_pos m_rest m_caps].
  replace (List.length (pre ++ w) - List.length pre)%nat with (List.length w)
    by (rewrite length_app; lia).
  rewrite firstn_app, Nat.sub_diag, firstn_all. cbn [firstn].
  rewrite app_nil_r. exact Hk.
Qed.

Lemma matches_to_reads (a : re) (w rest pre : jsstring) (c : caps) :
  reads a w rest -> matches_to a pre (w ++ rest) c (pre ++ w) rest c.
Proof. intros H. apply H. Qed.

Lemma matches_to_bol (rest : jsstring) (c : caps) :
  matches_to Bol [] rest c [] rest c.
Proof. intros k x Hk. exact Hk. Qed.

Lemma matches_to_eol (pre : jsstring) (c : caps) :
  matches_to Eol pre [] c pre [] c.
Proof. intros k x Hk. exact Hk. Qed.

(** When the pattern hands over at the end of a match that starts the
    input, [match_] answers with what was read and the captures. *)
Lemma match_at_start (r : re) (n : nat) (w rest : jsstring) (c : caps) :
  matches_to r [] (w ++ rest) [] w rest c ->
  match_ r n (w ++ rest)
  = Some (w :: List.map (fun i => lookup_cap i c) (seq 1 n)).
Proof.
  intros H. unfold match_, exec.
  assert (Hm : match_here r (MState 0 (w ++ rest) [])
               = Some (RMatch 0 (List.length w) c)).
  { unfold match_here.
    change (MState 0 (w ++ rest) []) with (at_ [] (w ++ rest) []).
    rewrite (H (fun s' => Some s') (at_ w rest c) eq_refl). reflexivity. }
  destruct (w ++ rest) as [|x l] eqn:Hl; cbn [search]; rewrite Hm;
    cbn [r_start r_end r_caps]; unfold slice; cbn [skipn];
    rewrite Nat.sub_0_r, <- Hl, firstn_app, Nat.sub_diag, firstn_all;
    cbn [firstn]; rewrite app_nil_r; reflexivity.
Qed.

(* ================================================================== *)
(** ** Code units and classes *)
(* ================================================================== *)

Ltac bools :=
  repeat match goal with
    | H : (_ && _)%bool = true |- _ => apply andb_true_iff in H; destruct H
    | H : (_ || _)%bool = true |- _ => apply orb_true_iff in H; destruct H
    | H : (_ && _)%bool = false |- _ => apply andb_false_iff in H; destruct H
    | H : (_ || _)%bool = false |- _ => apply orb_false_iff in H; destruct H
    | H : negb _ = true |- _ => apply negb_true_iff in H
    | H : negb _ = false |- _ => apply negb_false_iff in H
    | H : N.leb _ _ = true |- _ => apply N.leb_le in H
    | H : N.leb _ _ = false |- _ => apply N.leb_gt in H
    | H : N.eqb _ _ = true |- _ => apply N.eqb_eq in H
    | H : N.eqb _ _ = false |- _ => apply N.eqb_neq in H
    | H : false = true |- _ => discriminate H
    | H : true = false |- _ => discriminate H
    end.

Ltac decide_false :=
  match goal with
  | |- ?b = false => destruct b eqn:?; [exfalso | reflexivity]
  end.

Lemma is_digit_range (c : N) : is_digit c = true <-> (48 <= c <= 57)%N.
Proof.
  unfold is_digit, in_range. rewrite andb_true_iff, !N.leb_le. tauto.
Qed.

Lemma is_space_range (c : N) :
  is_space c = true -> ((9 <= c <= 13) \/ c = 32 \/ 160 <= c)%N.
Proof.
  unfold is_space, memN, space_units, in_range. cbn [existsb].
  intros H. bools; subst; lia.
Qed.

Lemma is_word_range (c : N) :
  is_word c = true ->
  ((48 <= c <= 57) \/ (65 <= c <= 90) \/ c = 95 \/ (97 <= c <= 122))%N.
Proof.
  unfold is_word, is_digit, in_range. intros H. bools; subst; lia.
Qed.

Lemma digit_is_word (c : N) : is_digit c = true -> is_word c = true.
Proof. unfold is_word. intros ->. rewrite orb_true_r. reflexivity. Qed.

Lemma digit_not_space (c : N) : is_digit c = true -> is_space c = false.
Proof.
  intros H. apply is_digit_range in H. decide_false.
  match goal with H : is_space _ = true |- _ => apply is_space_range in H end.
  lia.
Qed.

Lemma word_not_space (c : N) : is_word c = true -> is_space c = false.
Proof.
  intros H. apply is_word_range in H. decide_false.
  match goal with H : is_space _ = true |- _ => apply is_space_range in H end.
  lia.
Qed.

(** The letters that [upper] sends to an upper-case ASCII letter. *)
Lemma upper_ascii (a v : N) :
  upper a = v -> (65 <= v <= 90)%N -> a = v \/ a = (v + 32)%N.
Proof.
  unfold upper, in_range. intros H Hv.
  destruct (97 <=? a)%N eqn:H1; destruct (a <=? 122)%N eqn:H2;
    cbn [andb] in H; bools; try lia;
    destruct ((224 <=? a)%N && (a <=? 254)%N && negb (a =? 247)%N)%bool eqn:H3;
    bools; lia.
Qed.

Lemma upper_digit (c : N) : is_digit c = true -> upper c = c.
Proof.
  intros H. apply is_digit_range in H. unfold upper, in_range.
  replace (97 <=? c)%N with false by (symmetry; apply N.leb_gt; lia).
  replace (224 <=? c)%N with false by (symmetry; apply N.leb_gt; lia).
  reflexivity.
Qed.

Lemma digit_not_ap (c : N) : is_digit c = true -> is_ap c = false.
Proof.
  intros H. unfold is_ap. cbn [existsb]. rewrite (upper_digit _ H).
  apply is_digit_range in H.
  change (upper 65) with 65%N. change (upper 80) with 80%N.
  decide_false. bools; lia.
Qed.

Section Meridiem.

Variables (pm : bool) (a m : N).

Hypothesis Hap : meridiem pm [a; m].

Lemma meridiem_a : a = 65%N \/ a = 97%N \/ a = 80%N \/ a = 112%N.
Proof.
  destruct Hap as [Ha _].
  destruct pm; apply upper_ascii in Ha; lia.
Qed.

Lemma meridiem_m : m = 77%N \/ m = 109%N.
Proof. destruct Hap as [_ Hm]. apply upper_ascii in Hm; lia. Qed.

Lemma meridiem_is_ap : is_ap a = true.
Proof.
  destruct meridiem_a as [-> | [-> | [-> | ->]]]; reflexivity.
Qed.

Lemma meridiem_is_m : is_m m = true.
Proof. destruct meridiem_m as [-> | ->]; reflexivity. Qed.

Lemma meridiem_a_not_space : is_space a = false.
Proof.
  destruct meridiem_a as [-> | [-> | [-> | ->]]]; reflexivity.
Qed.

Lemma meridiem_m_not_space : is_space m = false.
Proof. destruct meridiem_m as [-> | ->]; reflexivity. Qed.

Lemma meridiem_upper :
  toUpperCase [a; m] = if pm then js "PM" else js "AM".
Proof.
  destruct Hap as [Ha Hm]. unfold toUpperCase. cbn [List.map].
  rewrite Ha, Hm. destruct pm; reflexivity.
Qed.

End Meridiem.

(* ================================================================== *)
(** ** Trimming and the glued meridiem *)
(* ================================================================== *)

(** A string that neither begins nor ends with white space is its own
    trim. *)
Lemma trim_keep (c z : N) (s : jsstring) :
  is_space c = false -> is_space z = false ->
  trim (c :: s ++ [z]) = c :: s ++ [z].
Proof.
  intros Hc Hz. unfold trim. cbn [drop_while]. rewrite Hc.
  change (c :: s ++ [z]) with ((c :: s) ++ [z]).
  rewrite rev_app_distr. cbn [rev app drop_while]. rewrite Hz.
  change (z :: rev s ++ [c]) with ([z] ++ rev (c :: s)).
  rewrite rev_app_distr, rev_involutive. reflexivity.
Qed.

Lemma trim_join (c : N) (a s : jsstring) (z : N) :
  is_space c = false -> is_space z = false ->
  trim ((c :: a) ++ js " " ++ s ++ [z]) = (c :: a) ++ js " " ++ s ++ [z].
Proof.
  intros Hc Hz.
  replace ((c :: a) ++ js " " ++ s ++ [z])
    with (c :: (a ++ js " " ++ s) ++ [z])
    by (cbn [app]; rewrite <- !app_assoc; reflexivity).
  apply trim_keep; assumption.
Qed.

Lemma glue_fails (s : jsstring) (pos : nat) (c : caps) :
  glue_at s = false -> match_here meridiemGluePattern (MState pos s c) = None.
Proof.
  intros H. unfold match_here, meridiemGluePattern, seti, chri. cbn [run].
  unfold advance. cbn [m_rest m_pos m_caps].
  destruct s as [|d [|a [|m r]]]; cbn [m_rest m_pos m_caps];
    try reflexivity;
    (destruct (is_digit d) eqn:Hd; [|reflexivity]);
    cbn [m_rest m_pos m_caps]; try reflexivity;
    change (existsb (fun a0 => N.eqb (upper a0) (upper a)) [65; 80]%N)
      with (is_ap a);
    (destruct (is_ap a) eqn:Ha; [|reflexivity]);
    cbn [m_rest m_pos m_caps]; try reflexivity.
  change (N.eqb (upper m) (upper 77)) with (is_m m).
  unfold glue_at in H. rewrite Hd, Ha in H. cbn [andb] in H.
  rewrite H. reflexivity.
Qed.

Lemma search_glue (s : jsstring) (pos : nat) :
  glued s = false -> search meridiemGluePattern pos s = None.
Proof.
  revert pos. induction s as [|x s IH]; intros pos H.
  - cbn [search]. rewrite glue_fails; reflexivity.
  - cbn [glued] in H. apply orb_false_iff in H as [H1 H2].
    cbn [search]. rewrite (glue_fails _ _ _ H1). apply IH, H2.
Qed.

(** Without a digit right before AM or PM, the time is left as it is. *)
Lemma normalize_time_keep (s : jsstring) :
  glued s = false -> normalize_time s = s.
Proof.
  intros H. unfold normalize_time, replace, exec.
  rewrite (search_glue _ _ H). reflexivity.
Qed.

Lemma glued_nondigit (c : N) (s : jsstring) :
  is_digit c = false -> glued (c :: s) = glued s.
Proof.
  intros H. cbn [glued]. unfold glue_at at 1.
  destruct s as [|a [|m r]]; try reflexivity. rewrite H. reflexivity.
Qed.

Lemma glued_digits (ds rest : jsstring) :
  forallb is_digit ds = true -> stops is_ap rest ->
  glued (ds ++ rest) = glued rest.
Proof.
  intros Hd Hstop. induction ds as [|d ds IH]; [reflexivity|].
  simpl in Hd. apply andb_true_iff in Hd as [Hd Hds].
  cbn [app glued]. rewrite (IH Hds).
  replace (glue_at (d :: ds ++ rest)) with false; [reflexivity|].
  symmetry. unfold glue_at.
  destruct ds as [|d' ds].
  - cbn [app]. destruct rest as [|a [|m r]]; try reflexivity.
    simpl in Hstop. rewrite Hstop, andb_false_r. reflexivity.
  - cbn [app]. simpl in Hds. apply andb_true_iff in Hds as [Hd' _].
    destruct (ds ++ rest); [reflexivity|].
    rewrite (digit_not_ap _ Hd'), andb_false_r. reflexivity.
Qed.

(* ================================================================== *)
(** ** The patterns of the resolver on well-formed input *)
(* ================================================================== *)

Lemma stops_number_space (w rest : jsstring) :
  number w -> stops is_space (w ++ rest).
Proof.
  intros [Hne Hw]. destruct w as [|d w]; [congruence|].
  simpl in Hw. apply andb_true_iff in Hw as [Hd _].
  apply digit_not_space, Hd.
Qed.

Lemma stops_word_space (w rest : jsstring) :
  word w -> stops is_space (w ++ rest).
Proof.
  intros [Hne Hw]. destruct w as [|d w]; [congruence|].
  simpl in Hw. apply andb_true_iff in Hw as [Hd _].
  apply word_not_space, Hd.
Qed.

Lemma step_chr (ch : N) (pre rest : jsstring) (c : caps) :
  matches_to (chr ch) pre (ch :: rest) c (pre ++ [ch]) rest c.
Proof.
  apply (@matches_to_reads (chr ch) [ch] rest pre c).
  apply reads_cls. apply N.eqb_refl.
Qed.

Lemma step_cls (p : N -> bool) (ch : N) (pre rest : jsstring) (c : caps) :
  p ch = true -> matches_to (Cls p) pre (ch :: rest) c (pre ++ [ch]) rest c.
Proof.
  intros H. apply (@matches_to_reads (Cls p) [ch] rest pre c).
  apply reads_cls, H.
Qed.

Lemma step_space0 (pre rest : jsstring) (c : caps) :
  stops is_space rest ->
  matches_to spaces0 pre (32%N :: rest) c (pre ++ [32%N]) rest c.
Proof.
  intros H. apply (@matches_to_reads spaces0 [32%N] rest pre c).
  apply reads_star; [reflexivity | exact H].
Qed.

Lemma step_space1 (pre rest : jsstring) (c : caps) :
  stops is_space rest ->
  matches_to spaces1 pre (32%N :: rest) c (pre ++ [32%N]) rest c.
Proof.
  intros H. apply (@matches_to_reads spaces1 [32%N] rest pre c).
  apply reads_plus; [discriminate | reflexivity | exact H].
Qed.

Lemma step_digits (i : nat) (w pre rest : jsstring) (c : caps) :
  number w -> stops is_digit rest ->
  matches_to (Grp i digits) pre (w ++ rest) c (pre ++ w) rest ((i, w) :: c).
Proof.
  intros [Hne Hw] H. apply matches_to_grp.
  apply reads_plus; assumption.
Qed.

Section Token.

Variables (hour minute ap : jsstring) (pm : bool).

Hypotheses (Hh : number hour) (Hm : number minute) (Hap : meridiem pm ap).

Lemma ap_two : exists a m, ap = [a; m].
Proof.
  destruct ap as [|a [|m [|? ?]]]; try contradiction. eauto.
Qed.

(** [\d+:\d+\s*[AP]M] reads a time of day, whatever comes after it. *)
Lemma reads_time_token (rest : jsstring) :
  reads time_token (time_of_day hour minute ap) rest.
Proof.
  destruct ap_two as (a & m & Hap'). rewrite Hap' in *.
  destruct Hh as [Hhne Hhd], Hm as [Hmne Hmd].
  unfold time_token, time_of_day. cbn [cats].
  change (js ":") with [58%N]. change (js " ") with [32%N].
  change [a; m] with ([a] ++ [m]).
  apply reads_cat.
  { apply reads_plus; [assumption | assumption | reflexivity]. }
  apply reads_cat.
  { apply reads_cls. reflexivity. }
  apply reads_cat.
  { apply reads_plus; [assumption | assumption | reflexivity]. }
  apply reads_cat.
  { apply reads_star; [reflexivity|]. apply (meridiem_a_not_space Hap). }
  apply reads_cat.
  { apply reads_cls. apply (meridiem_is_ap Hap). }
  apply reads_cls. apply (meridiem_is_m Hap).
Qed.

Lemma time_of_day_head :
  exists d s, time_of_day hour minute ap = d :: s /\ is_digit d = true.
Proof.
  destruct Hh as [Hne Hd]. destruct hour as [|d h]; [congruence|].
  simpl in Hd. apply andb_true_iff in Hd as [Hd _].
  exists d. eexists. split; [reflexivity | exact Hd].
Qed.

(** A time of day is its own trim, and has no glued meridiem. *)
Lemma time_of_day_ends :
  exists d s z, time_of_day hour minute ap = d :: s ++ [z]
                /\ is_space d = false /\ is_space z = false.
Proof.
  destruct ap_two as (a & m & Hap'). rewrite Hap' in *.
  destruct Hh as [Hne Hd]. destruct hour as [|d h]; [congruence|].
  simpl in Hd. apply andb_true_iff in Hd as [Hd _].
  exists d, (h ++ js ":" ++ minute ++ js " " ++ [a]), m.
  split; [|split].
  - unfold time_of_day. cbn [app]. f_equal.
    rewrite <- !app_assoc. reflexivity.
  - apply digit_not_space, Hd.
  - apply (meridiem_m_not_space Hap).
Qed.

Lemma trim_time_of_day :
  trim (time_of_day hour minute ap) = time_of_day hour minute ap.
Proof.
  destruct time_of_day_ends as (d & s & z & -> & Hd & Hz).
  apply trim_keep; assumption.
Qed.

Lemma normalize_time_of_day :
  normalize_time (time_of_day hour minute ap) = time_of_day hour minute ap.
Proof.
  apply normalize_time_keep.
  destruct ap_two as (a & m & Hap'). rewrite Hap' in *.
  destruct Hh as [_ Hhd], Hm as [_ Hmd].
  unfold time_of_day. change (js ":") with [58%N]. change (js " ") with [32%N].
  rewrite glued_digits; [|exact Hhd | reflexivity].
  cbn [app]. rewrite glued_nondigit by reflexivity.
  rewrite glued_digits; [|exact Hmd | reflexivity].
  cbn [app]. rewrite glued_nondigit by reflexivity.
  reflexivity.
Qed.

End Token.

Section Range.

Variables (h1 m1 ap1 h2 m2 ap2 : jsstring) (pm1 pm2 : bool).

Hypotheses (Hh1 : number h1) (Hm1 : number m1) (Hap1 : meridiem pm1 ap1)
           (Hh2 : number h2) (Hm2 : number m2) (Hap2 : meridiem pm2 ap2).

Lemma range_steps (pre tail : jsstring) (c : caps) :
  matches_to timeRangePattern pre
    (time_of_day h1 m1 ap1
       ++ 32%N :: 45%N :: 32%N :: time_of_day h2 m2 ap2 ++ tail) c
    ((((pre ++ time_of_day h1 m1 ap1) ++ [32%N]) ++ [45%N]) ++ [32%N]
       ++ time_of_day h2 m2 ap2)
    tail ((2%nat, time_of_day h2 m2 ap2) :: (1%nat, time_of_day h1 m1 ap1) :: c).
Proof.
  unfold timeRangePattern. cbn [cats].
  eapply matches_to_cat.
  { apply matches_to_grp. apply (@reads_time_token h1 m1 ap1 pm1 Hh1 Hm1 Hap1). }
  eapply matches_to_cat.
  { apply step_space0. reflexivity. }
  eapply matches_to_cat.
  { apply step_cls. reflexivity. }
  eapply matches_to_cat.
  { apply step_space0.
    destruct (@time_of_day_head h2 m2 ap2 Hh2) as (d & s & -> & Hd).
    apply digit_not_space, Hd. }
  rewrite app_assoc.
  apply matches_to_grp. apply (@reads_time_token h2 m2 ap2 pm2 Hh2 Hm2 Hap2).
Qed.

(** The time-range pattern finds the two times of a range written with
    a hyphen, whatever follows the range. *)
Lemma time_range_match (tail : jsstring) :
  match_ timeRangePattern 2
         (time_range (time_of_day h1 m1 ap1) hyphen
                     (time_of_day h2 m2 ap2 ++ tail))
  = Some [time_range (time_of_day h1 m1 ap1) hyphen (time_of_day h2 m2 ap2);
          time_of_day h1 m1 ap1; time_of_day h2 m2 ap2].
Proof.
  assert (Hin : time_range (time_of_day h1 m1 ap1) hyphen
                           (time_of_day h2 m2 ap2 ++ tail)
                = time_range (time_of_day h1 m1 ap1) hyphen
                             (time_of_day h2 m2 ap2) ++ tail).
  { unfold time_range. rewrite <- !app_assoc. reflexivity. }
  rewrite Hin.
  rewrite (@match_at_start timeRangePattern 2 _ tail
             [(2%nat, time_of_day h2 m2 ap2); (1%nat, time_of_day h1 m1 ap1)]);
    [reflexivity|].
  pose proof (range_steps [] tail []) as H.
  replace (time_range (time_of_day h1 m1 ap1) hyphen (time_of_day h2 m2 ap2)
             ++ tail)
    with (time_of_day h1 m1 ap1
            ++ 32%N :: 45%N :: 32%N :: time_of_day h2 m2 ap2 ++ tail)
    by (unfold time_range, hyphen; change (js " ") with [32%N];
        rewrite <- !app_assoc; reflexivity).
  replace (time_range (time_of_day h1 m1 ap1) hyphen (time_of_day h2 m2 ap2))
    with (((([] ++ time_of_day h1 m1 ap1) ++ [32%N]) ++ [45%N]) ++ [32%N]
            ++ time_of_day h2 m2 ap2)
    by (unfold time_range, hyphen; change (js " ") with [32%N];
        cbn [app]; rewrite <- !app_assoc; reflexivity).
  exact H.
Qed.

End Range.

Lemma reads_ampm (pm : bool) (ap rest : jsstring) :
  meridiem pm ap ->
  reads (Alt (liti (js "AM")) (liti (js "PM"))) ap rest.
Proof.
  intros Hap. destruct (ap_two _ _ Hap) as (a & m & ->).
  intros pre c k x Hk.
  assert (Hk' : k (MState (S (S (List.length pre))) rest c) = Some x).
  { unfold at_ in Hk. rewrite length_app, Nat.add_comm in Hk. exact Hk. }
  clear Hk.
  change (js "AM") with [65; 77]%N. change (js "PM") with [80; 77]%N.
  unfold at_. cbn [liti run app]. unfold chri. cbn [run]. unfold advance.
  cbn [m_rest m_pos m_caps].
  destruct (meridiem_a Hap) as [-> | [-> | [-> | ->]]];
    destruct (meridiem_m Hap) as [-> | ->];
    repeat match goal with
           | |- context [N.eqb (upper ?a) (upper ?b)] =>
               let v := eval vm_compute in (N.eqb (upper a) (upper b)) in
               change (N.eqb (upper a) (upper b)) with v;
               cbn [m_rest m_pos m_caps]
           end;
    rewrite Hk'; reflexivity.
Qed.

Section DateLine.

Variables (weekday month day year hour minute ap : jsstring) (pm : bool).

Hypotheses (Hwd : comma_free weekday) (Hmon : word month)
           (Hday : number day) (Hyear : number year)
           (Hh : number hour) (Hm : number minute) (Hap : meridiem pm ap).

Lemma date_and_time_flat :
  date_line weekday month day year ++ js " " ++ time_of_day hour minute ap
  = weekday ++ 44%N :: 32%N :: month ++ 32%N :: day ++ 44%N :: 32%N :: year
      ++ 32%N :: hour ++ 58%N :: minute ++ 32%N :: ap.
Proof.
  unfold date_line, time_of_day.
  change (js ", ") with [44; 32]%N. change (js " ") with [32%N].
  change (js ":") with [58%N].
  rewrite <- !app_assoc. reflexivity.
Qed.

Lemma date_steps :
  exists pre',
    pre' = date_line weekday month day year ++ js " "
             ++ time_of_day hour minute ap
    /\ matches_to dateTimePattern []
         (date_line weekday month day year ++ js " "
            ++ time_of_day hour minute ap) []
         pre' []
         [(6%nat, ap); (5%nat, minute); (4%nat, hour); (3%nat, year);
          (2%nat, day); (1%nat, month)].
Proof.
  rewrite date_and_time_flat.
  destruct Hwd as [Hnc Hhead].
  eexists. split.
  2:{ unfold dateTimePattern, date_fields, ampm. cbn [app cats].
      eapply matches_to_cat; [apply matches_to_bol|].
      eapply matches_to_cat.
      { apply matches_to_reads. apply reads_plus.
        - destruct weekday; [contradiction | discriminate].
        - exact Hnc.
        - reflexivity. }
      eapply matches_to_cat; [apply step_chr|].
      eapply matches_to_cat; [apply step_space1, stops_word_space, Hmon|].
      eapply matches_to_cat.
      { apply matches_to_grp. destruct Hmon.
        apply reads_plus; [assumption | assumption | reflexivity]. }
      eapply matches_to_cat; [apply step_space1, stops_number_space, Hday|].
      eapply matches_to_cat; [apply step_digits; [exact Hday | reflexivity]|].
      eapply matches_to_cat; [apply step_chr|].
      eapply matches_to_cat; [apply step_space1, stops_number_space, Hyear|].
      eapply matches_to_cat; [apply step_digits; [exact Hyear | reflexivity]|].
      eapply matches_to_cat; [apply step_space1, stops_number_space, Hh|].
      eapply matches_to_cat; [apply step_digits; [exact Hh | reflexivity]|].
      eapply matches_to_cat; [apply step_chr|].
      eapply matches_to_cat; [apply step_digits; [exact Hm | reflexivity]|].
      eapply matches_to_cat.
      { apply step_space1.
        destruct (ap_two _ _ Hap) as (a & m & Hap'). rewrite Hap' in *.
        apply (meridiem_a_not_space Hap). }
      eapply matches_to_cat.
      { rewrite <- (app_nil_r ap) at 1.
        apply matches_to_grp. apply (@reads_ampm pm ap _ Hap). }
      eapply matches_to_cat.
      { apply (@matches_to_reads spaces0 [] []).
        apply reads_star; reflexivity. }
      apply matches_to_eol. }
  cbn [app]. rewrite <- !app_assoc. cbn [app]. rewrite app_nil_r.
  reflexivity.
Qed.

(** The strict pattern reads a date line followed by a time of day. *)
Lemma strict_match :
  match_ dateTimePattern 6
         (date_line weekday month day year ++ js " "
            ++ time_of_day hour minute ap)
  = Some [date_line weekday month day year ++ js " "
            ++ time_of_day hour minute ap;
          month; day; year; hour; minute; ap].
Proof.
  destruct date_steps as (pre' & -> & H).
  rewrite <- (app_nil_r (date_line weekday month day year ++ js " "
                           ++ time_of_day hour minute ap)) at 1.
  rewrite (@match_at_start dateTimePattern 6 _ []
             [(6%nat, ap); (5%nat, minute); (4%nat, hour); (3%nat, year);
              (2%nat, day); (1%nat, month)]);
    [reflexivity|].
  rewrite app_nil_r. exact H.
Qed.

(** Date and time are joined as they are: nothing is trimmed away and
    the time needs no space put in. *)
Lemma combined_keep :
  combined (date_line weekday month day year) (time_of_day hour minute ap)
  = date_line weekday month day year ++ js " " ++ time_of_day hour minute ap.
Proof.
  unfold combined.
  rewrite (@trim_time_of_day hour minute ap pm Hh Hap),
    (@normalize_time_of_day hour minute ap pm Hh Hm Hap).
  destruct (@time_of_day_ends hour minute ap pm Hh Hap)
    as (d & s & z & -> & Hd & Hz).
  destruct Hwd as [_ Hhead]. unfold date_line.
  destruct weekday as [|c w]; [contradiction|].
  apply (@trim_join c _ (d :: s) z); assumption.
Qed.

Lemma parseComponents_read (whole : jsstring) :
  parseComponents [whole; month; day; year; hour; minute; ap]
  = match indexOf month monthNames 0 with
    | Some index => Some (components_of index day year hour minute pm)
    | None => None
    end.
Proof.
  unfold parseComponents, nth_str. cbn [nth].
  destruct (indexOf month monthNames 0) as [index|]; [|reflexivity].
  destruct (ap_two _ _ Hap) as (a & m & Hap'). rewrite Hap' in *.
  rewrite (meridiem_upper Hap).
  unfold components_of, hour24.
  destruct pm.
  - change (JS.eqb (js "PM") (js "PM")) with true.
    change (JS.eqb (js "PM") (js "AM")) with false.
    cbn [andb]. destruct (parseInt hour =? 12)%Z; reflexivity.
  - change (JS.eqb (js "AM") (js "PM")) with false.
    change (JS.eqb (js "AM") (js "AM")) with true.
    cbn [andb]. destruct (parseInt hour =? 12)%Z; reflexivity.
Qed.

End DateLine.

(* ================================================================== *)
(** ** The resolver on well-formed input *)
(* ================================================================== *)

Lemma parseDateTime_steps (h : Host) (dateStr timeStr : jsstring)
    (tm sm em : list jsstring) :
  dateStr <> [] -> timeStr <> [] ->
  match_ timeRangePattern 2 timeStr = Some tm ->
  match_date_strings (combined dateStr (nth_str tm 1))
                     (combined dateStr (nth_str tm 2)) = Some (sm, em) ->
  parseDateTime h (Some dateStr) (Some timeStr)
  = match parseComponents sm, parseComponents em with
    | Some sc, Some ec => instants h sc ec
    | _, _ => no_dates
    end.
Proof.
  intros Hd Ht Htm Hds.
  destruct dateStr as [|c d]; [congruence|].
  destruct timeStr as [|c' t]; [congruence|].
  unfold parseDateTime. rewrite Htm, Hds. unfold instants.
  destruct (parseComponents sm); [|reflexivity].
  destruct (parseComponents em); reflexivity.
Qed.


(* ================================================================== *)
(** ** The description of an event *)
(* ================================================================== *)

Lemma description_parts_spec (ps : list node) :
  description_parts ps
  = List.map (fun el => trim (text el)) (filter says_something (before_end ps)).
Proof.
  induction ps as [|el ps IH]; [reflexivity|].
  cbn [description_parts before_end]. fold (ends_description el).
  destruct (ends_description el); [reflexivity|].
  cbn [filter]. fold (says_something el).
  destruct (says_something el); cbn [List.map]; rewrite IH; reflexivity.
Qed.

Lemma before_end_clean (ps : list node) (el : node) :
  In el (before_end ps) -> ends_description el = false.
Proof.
  induction ps as [|x ps IH]; [contradiction|].
  cbn [before_end]. destruct (ends_description x) eqn:Hx; [contradiction|].
  intros [<- | H]; [exact Hx | apply IH, H].
Qed.

Lemma before_end_prefix (ps : list node) :
  exists rest, ps = before_end ps ++ rest
               /\ match rest with
                  | [] => True
                  | el :: _ => ends_description el = true
                  end.
Proof.
  induction ps as [|x ps (rest & IH & Hrest)].
  - exists []. split; [reflexivity | exact I].
  - cbn [before_end]. destruct (ends_description x) eqn:Hx.
    + exists (x :: ps). split; [reflexivity | exact Hx].
    + exists rest. split; [cbn [app]; rewrite <- IH; reflexivity | exact Hrest].
Qed.

(** X10. The description of an event is made of the paragraphs of the
    content that come before the first paragraph whose text holds "Time:"
    or "Find Hotels": the trimmed text of each of them that is not blank
    and holds no image, in document order, joined by blank lines. Nothing
    of that paragraph or of a later one gets into it, no part is empty,
    and no part holds "Time:" or "Find Hotels". *)
Theorem description_stops_at_the_details
    (L : Lib) (htmlContent : jsstring) (parsed : Parsed) :
  parseEventDetails L htmlContent = Some parsed ->
  let ps := select_tag (js "p") (load L htmlContent) in
  let parts :=
    List.map (fun el => trim (text el)) (filter says_something (before_end ps)) in
  p_description parsed = join_blank parts
  /\ (exists rest,
         ps = before_end ps ++ rest
         /\ match rest with
            | [] => True
            | el :: _ => ends_description el = true
            end)
  /\ forall part, In part parts ->
       part <> []
       /\ includes (js "Time:") part = false
       /\ includes (js "Find Hotels") part = false.
Proof.
  intros Hp ps parts.
  split; [|split].
  - unfold parseEventDetails in Hp.
    destruct (negb _); [discriminate|]. injection Hp as <-.
    cbn [p_description]. rewrite description_parts_spec. reflexivity.
  - apply before_end_prefix.
  - intros part Hin. apply in_map_iff in Hin as (el & <- & Hin).
    apply filter_In in Hin as [Hin Hs].
    apply before_end_clean in Hin.
    unfold says_something in Hs. apply andb_true_iff in Hs as [Hs _].
    unfold ends_description in Hin. apply orb_false_iff in Hin as [H1 H2].
    split; [|split; assumption].
    destruct (trim (text el)); [discriminate | discriminate].
Qed.

Lemma description_stops_at_the_details_witness :
  p_description Sample.parsed
  = js "An evening of sound money talk." ++ [10; 10]%N ++ js "MeetupLuma".
Proof.
  assert (Hp : parseEventDetails Sample.lib Sample.good_html = Some Sample.parsed)
    by (vm_compute; reflexivity).
  destruct (description_stops_at_the_details Sample.lib Sample.good_html Hp)
    as [H _].
  rewrite H. vm_compute. reflexivity.
Defined.
(* ================================================================== *)
(** ** A meridiem glued to the minutes *)
(* ================================================================== *)

Lemma glue_found (d a m : N) (rest : jsstring) (pos : nat) :
  is_digit d = true -> is_ap a = true -> is_m m = true ->
  match_here meridiemGluePattern (MState pos (d :: a :: m :: rest) [])
  = Some (RMatch pos (3 + pos) [(2%nat, [a; m]); (1%nat, [d])]).
Proof.
  intros Hd Ha Hm.
  unfold match_here, meridiemGluePattern, seti, chri. cbn [run].
  unfold advance. cbn [m_rest m_pos m_caps]. rewrite Hd.
  cbn [m_rest m_pos m_caps].
  change (existsb (fun a0 => N.eqb (upper a0) (upper a)) [65; 80]%N)
    with (is_ap a).
  rewrite Ha. cbn [m_rest m_pos m_caps].
  change (N.eqb (upper m) (upper 77)) with (is_m m). rewrite Hm.
  cbn [m_rest m_pos m_caps].
  replace (S pos - pos)%nat with 1%nat by lia.
  replace (S (S (S pos)) - S pos)%nat with 2%nat by lia.
  reflexivity.
Qed.

Lemma glue_at_quiet (x y : N) (s : jsstring) :
  is_ap y = false -> glue_at (x :: y :: s) = false.
Proof.
  intros H. unfold glue_at. destruct s; [reflexivity|].
  rewrite H, andb_false_r. reflexivity.
Qed.

(** The first digit with AM or PM right after it, behind a stretch that
    has neither an A nor a P. *)
Lemma search_glue_found (pfx : jsstring) (d a m : N) (rest : jsstring)
    (pos : nat) :
  forallb (fun c => negb (is_ap c)) (pfx ++ [d]) = true ->
  is_digit d = true -> is_ap a = true -> is_m m = true ->
  search meridiemGluePattern pos (pfx ++ d :: a :: m :: rest)
  = Some (RMatch (pos + List.length pfx) (3 + (pos + List.length pfx))
            [(2%nat, [a; m]); (1%nat, [d])]).
Proof.
  revert pos. induction pfx as [|x pfx IH]; intros pos Hq Hd Ha Hm.
  - cbn [app List.length search]. rewrite glue_found by assumption.
    rewrite Nat.add_0_r. reflexivity.
  - cbn [app forallb] in Hq. apply andb_true_iff in Hq as [_ Hq].
    cbn [app search]. rewrite glue_fails.
    + rewrite IH by assumption. cbn [List.length].
      rewrite <- Nat.add_succ_comm. reflexivity.
    + destruct pfx as [|y pfx]; cbn [app] in *; apply glue_at_quiet;
        cbn [forallb] in Hq; apply andb_true_iff in Hq as [Hy _];
        apply negb_true_iff, Hy.
Qed.

Lemma normalize_time_glued (pfx : jsstring) (d a m : N) (rest : jsstring) :
  forallb (fun c => negb (is_ap c)) (pfx ++ [d]) = true ->
  is_digit d = true -> is_ap a = true -> is_m m = true ->
  normalize_time (pfx ++ d :: a :: m :: rest)
  = pfx ++ d :: 32%N :: a :: m :: rest.
Proof.
  intros Hq Hd Ha Hm. unfold normalize_time, replace, exec.
  rewrite search_glue_found by assumption.
  cbn [r_start r_end r_caps lookup_cap Nat.eqb Nat.add].
  rewrite firstn_app, Nat.sub_diag, firstn_all. cbn [firstn].
  rewrite app_nil_r.
  replace (S (S (S (List.length pfx))))
    with (List.length pfx + 3)%nat by lia.
  rewrite skipn_app, skipn_all2 by lia.
  replace (List.length pfx + 3 - List.length pfx)%nat with 3%nat by lia.
  cbn [skipn app]. reflexivity.
Qed.

Lemma digits_quiet (w : jsstring) :
  forallb is_digit w = true -> forallb (fun c => negb (is_ap c)) w = true.
Proof.
  induction w as [|c w IH]; [reflexivity|].
  cbn [forallb]. intros H. apply andb_true_iff in H as [Hc Hw].
  rewrite (digit_not_ap _ Hc), IH by assumption. reflexivity.
Qed.

Lemma last_digit (w : jsstring) :
  number w -> exists w' d, w = w' ++ [d] /\ forallb is_digit w' = true
                           /\ is_digit d = true.
Proof.
  intros [Hne Hd]. destruct (exists_last Hne) as (w' & d & ->).
  rewrite forallb_app in Hd. apply andb_true_iff in Hd as [Hw' Hd].
  cbn [forallb] in Hd. rewrite andb_true_r in Hd. eauto.
Qed.

Section Written.

Variables (hour minute ap : jsstring) (pm : bool).

Hypotheses (Hh : number hour) (Hm : number minute) (Hap : meridiem pm ap).

Lemma reads_time_glued (rest : jsstring) :
  reads time_token (time_written false hour minute ap) rest.
Proof.
  destruct (@ap_two ap pm Hap) as (a & m & Hap'). rewrite Hap' in *.
  destruct Hh as [Hhne Hhd], Hm as [Hmne Hmd].
  unfold time_token, time_written. cbn [cats].
  change (js ":") with [58%N].
  change ([] ++ [a; m]) with ([] ++ [a] ++ [m]).
  apply reads_cat.
  { apply reads_plus; [assumption | assumption | reflexivity]. }
  apply reads_cat.
  { apply reads_cls. reflexivity. }
  apply reads_cat.
  { apply reads_plus; [assumption | assumption|].
    cbn [app stops].
    destruct (meridiem_a Hap) as [-> | [-> | [-> | ->]]]; reflexivity. }
  apply reads_cat.
  { apply reads_star; [reflexivity|]. apply (meridiem_a_not_space Hap). }
  apply reads_cat.
  { apply reads_cls. apply (meridiem_is_ap Hap). }
  apply reads_cls. apply (meridiem_is_m Hap).
Qed.

Lemma reads_time_written (space : bool) (rest : jsstring) :
  reads time_token (time_written space hour minute ap) rest.
Proof.
  destruct space; [|apply reads_time_glued].
  apply (@reads_time_token hour minute ap pm Hh Hm Hap).
Qed.

Lemma time_written_head (space : bool) :
  exists d s, time_written space hour minute ap = d :: s /\ is_digit d = true.
Proof.
  destruct Hh as [Hne Hd]. destruct hour as [|d h]; [congruence|].
  simpl in Hd. apply andb_true_iff in Hd as [Hd _].
  exists d. eexists. split; [reflexivity | exact Hd].
Qed.

Lemma trim_time_written (space : bool) :
  trim (time_written space hour minute ap)
  = time_written space hour minute ap.
Proof.
  destruct (@ap_two ap pm Hap) as (a & m & Hap'). rewrite Hap' in *.
  destruct Hh as [Hne Hd]. destruct hour as [|d h]; [congruence|].
  simpl in Hd. apply andb_true_iff in Hd as [Hd _].
  replace (time_written space (d :: h) minute [a; m])
    with (d :: (h ++ js ":" ++ minute ++ (if space then js " " else []) ++ [a])
            ++ [m])
    by (unfold time_written; cbn [app]; f_equal; rewrite <- !app_assoc;
        destruct space; reflexivity).
  apply trim_keep; [apply digit_not_space, Hd|].
  apply (meridiem_m_not_space Hap).
Qed.

(** With the space or without it, the normalized time has the space. *)
Lemma normalize_time_written (space : bool) :
  normalize_time (time_written space hour minute ap)
  = time_of_day hour minute ap.
Proof.
  destruct space;
    [apply (@normalize_time_of_day hour minute ap pm Hh Hm Hap)|].
  destruct (@ap_two ap pm Hap) as (a & m & Hap'). rewrite Hap' in *.
  destruct (last_digit Hm) as (mi & d & -> & Hmi & Hd).
  destruct Hh as [_ Hhd].
  replace (time_written false hour (mi ++ [d]) [a; m])
    with ((hour ++ 58%N :: mi) ++ d :: a :: m :: [])
    by (unfold time_written; change (js ":") with [58%N];
        rewrite <- !app_assoc; reflexivity).
  rewrite normalize_time_glued.
  - unfold time_of_day. change (js ":") with [58%N].
    change (js " ") with [32%N]. rewrite <- !app_assoc. reflexivity.
  - rewrite <- app_assoc. cbn [app]. rewrite forallb_app.
    rewrite (digits_quiet _ Hhd). cbn [forallb andb].
    change (negb (is_ap 58)) with true. cbn [andb].
    rewrite forallb_app, (digits_quiet _ Hmi). cbn [forallb andb].
    rewrite (digit_not_ap _ Hd). reflexivity.
  - exact Hd.
  - apply (meridiem_is_ap Hap).
  - apply (meridiem_is_m Hap).
Qed.

Lemma combined_written (space : bool) (dateStr : jsstring) :
  combined dateStr (time_written space hour minute ap)
  = combined dateStr (time_of_day hour minute ap).
Proof.
  unfold combined.
  rewrite trim_time_written, normalize_time_written.
  rewrite (@trim_time_of_day hour minute ap pm Hh Hap).
  rewrite (@normalize_time_of_day hour minute ap pm Hh Hm Hap).
  reflexivity.
Qed.

End Written.

Section RangeWritten.

Variables (h1 m1 ap1 h2 m2 ap2 : jsstring) (pm1 pm2 sp1 sp2 : bool).

Hypotheses (Hh1 : number h1) (Hm1 : number m1) (Hap1 : meridiem pm1 ap1)
           (Hh2 : number h2) (Hm2 : number m2) (Hap2 : meridiem pm2 ap2).

Lemma written_range_steps (pre tail : jsstring) (c : caps) :
  matches_to timeRangePattern pre
    (time_written sp1 h1 m1 ap1
       ++ 32%N :: 45%N :: 32%N :: time_written sp2 h2 m2 ap2 ++ tail) c
    ((((pre ++ time_written sp1 h1 m1 ap1) ++ [32%N]) ++ [45%N]) ++ [32%N]
       ++ time_written sp2 h2 m2 ap2)
    tail ((2%nat, time_written sp2 h2 m2 ap2)
            :: (1%nat, time_written sp1 h1 m1 ap1) :: c).
Proof.
  unfold timeRangePattern. cbn [cats].
  eapply matches_to_cat.
  { apply matches_to_grp.
    apply (@reads_time_written h1 m1 ap1 pm1 Hh1 Hm1 Hap1). }
  eapply matches_to_cat.
  { apply step_space0. reflexivity. }
  eapply matches_to_cat.
  { apply step_cls. reflexivity. }
  eapply matches_to_cat.
  { apply step_space0.
    destruct (@time_written_head h2 m2 ap2 Hh2 sp2) as (d & s & -> & Hd).
    apply digit_not_space, Hd. }
  rewrite app_assoc.
  apply matches_to_grp.
  apply (@reads_time_written h2 m2 ap2 pm2 Hh2 Hm2 Hap2).
Qed.

Lemma written_range_match (tail : jsstring) :
  match_ timeRangePattern 2
         (time_range (time_written sp1 h1 m1 ap1) hyphen
                     (time_written sp2 h2 m2 ap2 ++ tail))
  = Some [time_range (time_written sp1 h1 m1 ap1) hyphen
                     (time_written sp2 h2 m2 ap2);
          time_written sp1 h1 m1 ap1; time_written sp2 h2 m2 ap2].
Proof.
  assert (Hin : time_range (time_written sp1 h1 m1 ap1) hyphen
                           (time_written sp2 h2 m2 ap2 ++ tail)
                = time_range (time_written sp1 h1 m1 ap1) hyphen
                             (time_written sp2 h2 m2 ap2) ++ tail).
  { unfold time_range. rewrite <- !app_assoc. reflexivity. }
  rewrite Hin.
  rewrite (@match_at_start timeRangePattern 2 _ tail
             [(2%nat, time_written sp2 h2 m2 ap2);
              (1%nat, time_written sp1 h1 m1 ap1)]);
    [reflexivity|].
  pose proof (written_range_steps [] tail []) as H.
  replace (time_range (time_written sp1 h1 m1 ap1) hyphen
                      (time_written sp2 h2 m2 ap2) ++ tail)
    with (time_written sp1 h1 m1 ap1
            ++ 32%N :: 45%N :: 32%N :: time_written sp2 h2 m2 ap2 ++ tail)
    by (unfold time_range, hyphen; change (js " ") with [32%N];
        rewrite <- !app_assoc; reflexivity).
  replace (time_range (time_written sp1 h1 m1 ap1) hyphen
                      (time_written sp2 h2 m2 ap2))
    with (((([] ++ time_written sp1 h1 m1 ap1) ++ [32%N]) ++ [45%N]) ++ [32%N]
            ++ time_written sp2 h2 m2 ap2)
    by (unfold time_range, hyphen; change (js " ") with [32%N];
        cbn [app]; rewrite <- !app_assoc; reflexivity).
  exact H.
Qed.

End RangeWritten.

(** X11. A time range whose times have AM or PM right after the minutes
    ("10:30AM - 12:15PM"), or only one of them has, is resolved as the
    range with a space before each AM and PM is, whatever the date line
    and whatever follows the range. *)
Theorem glued_meridiem_is_read
    (h : Host) (dateStr : option jsstring)
    (h1 m1 ap1 h2 m2 ap2 tail : jsstring) (pm1 pm2 sp1 sp2 : bool) :
  number h1 -> number m1 -> meridiem pm1 ap1 ->
  number h2 -> number m2 -> meridiem pm2 ap2 ->
  parseDateTime h dateStr
    (Some (time_range (time_written sp1 h1 m1 ap1) hyphen
                      (time_written sp2 h2 m2 ap2 ++ tail)))
  = parseDateTime h dateStr
      (Some (time_range (time_of_day h1 m1 ap1) hyphen
                        (time_of_day h2 m2 ap2 ++ tail))).
Proof.
  intros Hh1 Hm1 Hap1 Hh2 Hm2 Hap2.
  pose proof (@written_range_match h1 m1 ap1 h2 m2 ap2 pm1 pm2 sp1 sp2
                Hh1 Hm1 Hap1 Hh2 Hm2 Hap2 tail) as Hw.
  pose proof (@written_range_match h1 m1 ap1 h2 m2 ap2 pm1 pm2 true true
                Hh1 Hm1 Hap1 Hh2 Hm2 Hap2 tail) as Hs.
  change (time_written true h1 m1 ap1) with (time_of_day h1 m1 ap1) in Hs.
  change (time_written true h2 m2 ap2) with (time_of_day h2 m2 ap2) in Hs.
  destruct dateStr as [[|c d]|]; [reflexivity| |reflexivity].
  destruct (@time_written_head h1 m1 ap1 Hh1 sp1) as (x & s & Hx & _).
  destruct (@time_of_day_head h1 m1 ap1 Hh1) as (y & t & Hy & _).
  remember (time_range (time_written sp1 h1 m1 ap1) hyphen
                       (time_written sp2 h2 m2 ap2 ++ tail)) as T1 eqn:E1.
  remember (time_range (time_of_day h1 m1 ap1) hyphen
                       (time_of_day h2 m2 ap2 ++ tail)) as T2 eqn:E2.
  destruct T1 as [|u1 T1]; [rewrite Hx in E1; discriminate E1|].
  destruct T2 as [|u2 T2]; [rewrite Hy in E2; discriminate E2|].
  unfold parseDateTime. rewrite Hw, Hs.
  unfold nth_str. cbn [nth].
  rewrite (@combined_written h1 m1 ap1 pm1 Hh1 Hm1 Hap1),
    (@combined_written h2 m2 ap2 pm2 Hh2 Hm2 Hap2).
  reflexivity.
Qed.

Lemma glued_meridiem_is_read_witness :
  parseDateTime (reference_host Sample.new_year)
    (Some (js "Saturday, November 8, 2025"))
    (Some (time_range (time_written false (js "10") (js "30") (js "AM")) hyphen
                      (time_written true (js "12") (js "15") (js "pm")
                         ++ js " EST")))
  = {| startDateTime := Some (js "2025-11-08T10:30:00");
       endDateTime := Some (js "2025-11-08T12:15:00") |}.
Proof.
  rewrite (@glued_meridiem_is_read (reference_host Sample.new_year)
             (Some (js "Saturday, November 8, 2025"))
             (js "10") (js "30") (js "AM") (js "12") (js "15") (js "pm")
             (js " EST") false true false true);
    [vm_compute; reflexivity | ..];
    first [split; [discriminate | reflexivity] | split; reflexivity].
Defined.
(* ================================================================== *)
(** ** The matcher: where a match is found, and where none is *)
(* ================================================================== *)

Lemma exec_at_start (r : re) (w rest : jsstring) (c : caps) :
  matches_to r [] (w ++ rest) [] w rest c ->
  exec r (w ++ rest) = Some (RMatch 0 (List.length w) c).
Proof.
  intros H. unfold exec.
  assert (Hm : match_here r (MState 0 (w ++ rest) [])
               = Some (RMatch 0 (List.length w) c)).
  { unfold match_here.
    change (MState 0 (w ++ rest) []) with (at_ [] (w ++ rest) []).
    rewrite (H (fun s' => Some s') (at_ w rest c) eq_refl). reflexivity. }
  destruct (w ++ rest); cbn [search]; rewrite Hm; reflexivity.
Qed.

(** Replacing by nothing a match that starts the string leaves what
    comes after the match. *)
Lemma strip_at_start (r : re) (w rest : jsstring) (c : caps) :
  matches_to r [] (w ++ rest) [] w rest c ->
  strip r (w ++ rest) = trim rest.
Proof.
  intros H. unfold strip, replace. rewrite (exec_at_start H).
  cbn [r_start r_end firstn app].
  rewrite skipn_app, skipn_all, Nat.sub_diag. reflexivity.
Qed.

Lemma test_at_start (r : re) (w rest : jsstring) (c : caps) :
  matches_to r [] (w ++ rest) [] w rest c -> test r (w ++ rest) = true.
Proof. intros H. unfold test. rewrite (exec_at_start H). reflexivity. Qed.

Lemma matches_to_passes (r : re) (pre rest : jsstring) (c : caps)
    (pre' rest' : jsstring) (c' : caps) :
  matches_to r pre rest c pre' rest' c' ->
  passes r (at_ pre rest c) (at_ pre' rest' c').
Proof.
  intros H k Hk. destruct (k (at_ pre' rest' c')) as [x|] eqn:Hx; [|congruence].
  rewrite (H k x Hx). discriminate.
Qed.

Lemma passes_cat (a b : re) (s1 s2 s3 : mstate) :
  passes a s1 s2 -> passes b s2 s3 -> passes (Cat a b) s1 s3.
Proof. intros Ha Hb k Hk. cbn [run]. apply Ha, Hb, Hk. Qed.

Lemma passes_cls (p : N -> bool) (ch : N) (pos : nat) (rest : jsstring)
    (c : caps) :
  p ch = true ->
  passes (Cls p) (MState pos (ch :: rest) c) (MState (S pos) rest c).
Proof.
  intros Hp k Hk. cbn [run]. unfold advance. cbn [m_rest m_pos m_caps].
  rewrite Hp. exact Hk.
Qed.

Lemma passes_alt_l (a b : re) (s s' : mstate) :
  passes a s s' -> passes (Alt a b) s s'.
Proof.
  intros Ha k Hk. cbn [run]. specialize (Ha k Hk).
  destruct (run a k s); [discriminate | congruence].
Qed.

Lemma passes_alt_r (a b : re) (s s' : mstate) :
  passes b s s' -> passes (Alt a b) s s'.
Proof.
  intros Hb k Hk. cbn [run]. destruct (run a k s); [discriminate|].
  apply Hb, Hk.
Qed.

Lemma passes_alts (r : re) (rs : list re) (s s' : mstate) :
  In r rs -> passes r s s' -> passes (alts rs) s s'.
Proof.
  intros Hin Hr. induction rs as [|x rs IH]; [contradiction|].
  destruct rs as [|y rs].
  - destruct Hin as [<- | []]. exact Hr.
  - change (alts (x :: y :: rs)) with (Alt x (alts (y :: rs))).
    destruct Hin as [<- | Hin].
    + apply passes_alt_l, Hr.
    + apply passes_alt_r, IH, Hin.
Qed.

Lemma passes_lit (w rest : jsstring) (pos : nat) (c : caps) :
  passes (lit w) (MState pos (w ++ rest) c)
         (MState (pos + List.length w) rest c).
Proof.
  revert pos. induction w as [|a w IH]; intros pos.
  - cbn [lit app List.length]. rewrite Nat.add_0_r. intros k Hk. exact Hk.
  - cbn [lit app List.length]. eapply passes_cat.
    + apply passes_cls. unfold chr. apply N.eqb_refl.
    + rewrite <- Nat.add_succ_comm. apply IH.
Qed.

(** A starred class can stop after any run of the class. *)
Lemma passes_star (p : N -> bool) (w rest : jsstring) (pos : nat) (c : caps) :
  forallb p w = true ->
  passes (Star (Cls p)) (MState pos (w ++ rest) c)
         (MState (pos + List.length w) rest c).
Proof.
  intros Hw k Hk. cbn [run m_rest].
  match goal with
  | |- ?f _ _ <> _ => set (loop := f)
  end.
  assert (H : forall w fuel pos,
             (List.length w <= fuel)%nat -> forallb p w = true ->
             k (MState (pos + List.length w) rest c) <> None ->
             loop fuel (MState pos (w ++ rest) c) <> None).
  { clear w Hw pos Hk. induction w as [|a w IH]; intros fuel pos Hf Hw Hk.
    - cbn [List.length app] in *. rewrite Nat.add_0_r in Hk.
      destruct fuel as [|fuel]; [exact Hk|].
      cbn [loop].
      match goal with
      | |- match ?x with _ => _ end <> _ => destruct x
      end; [discriminate | exact Hk].
    - destruct fuel as [|fuel]; [simpl in Hf; lia|].
      simpl in Hw. apply andb_true_iff in Hw as [Ha Hw].
      cbn [loop run app]. unfold advance. cbn [m_rest m_pos m_caps].
      rewrite Ha.
      replace (pos <? S pos)%nat with true
        by (symmetry; apply Nat.ltb_lt; lia).
      fold loop.
      assert (Hl : loop fuel (MState (S pos) (w ++ rest) c) <> None).
      { apply IH; [simpl in Hf; lia | exact Hw|].
        cbn [List.length] in Hk. rewrite <- Nat.add_succ_comm in Hk.
        exact Hk. }
      destruct (loop fuel (MState (S pos) (w ++ rest) c));
        [discriminate | congruence]. }
  apply H; [rewrite length_app; lia | exact Hw | exact Hk].
Qed.

(** A match that starts somewhere in the string is enough for the
    pattern to be found. *)
Lemma search_some (r : re) (pfx s : jsstring) (pos : nat) :
  match_here r (MState (pos + List.length pfx) s []) <> None ->
  search r pos (pfx ++ s) <> None.
Proof.
  revert pos. induction pfx as [|x pfx IH]; intros pos H.
  - cbn [List.length app] in *. rewrite Nat.add_0_r in H.
    destruct s; cbn [search];
      destruct (match_here r _) eqn:E; try discriminate; congruence.
  - cbn [app search].
    destruct (match_here r (MState pos (x :: pfx ++ s) []));
      [discriminate|].
    apply IH. cbn [List.length] in H. rewrite <- Nat.add_succ_comm in H.
    exact H.
Qed.

Lemma test_some (r : re) (pfx s : jsstring) (s' : mstate) :
  passes r (MState (List.length pfx) s []) s' -> test r (pfx ++ s) = true.
Proof.
  intros H. unfold test, exec.
  assert (Hs : search r 0 (pfx ++ s) <> None).
  { apply search_some. cbn [Nat.add]. unfold match_here.
    specialize (H (fun x => Some x)).
    destruct (run r _ _) eqn:E; [discriminate|]. exfalso.
    apply H; [discriminate | reflexivity]. }
  destruct (search r 0 (pfx ++ s)); [reflexivity | congruence].
Qed.

(** A pattern anchored at the beginning is found there or nowhere. *)
Lemma search_bol (r : re) (s : jsstring) (pos : nat) :
  pos <> 0%nat -> search (Cat Bol r) pos s = None.
Proof.
  revert pos. induction s as [|x s IH]; intros pos Hp;
    cbn [search]; unfold match_here; cbn [run m_pos];
    destruct pos as [|pos]; try congruence; cbn [Nat.eqb].
  - reflexivity.
  - apply IH. discriminate.
Qed.

(* ================================================================== *)
(** ** Symbols, blanks and plain text *)
(* ================================================================== *)

Lemma glyph_not_word (c : N) : is_glyph c = true -> is_word c = false.
Proof.
  unfold is_glyph. intros H. apply negb_true_iff, orb_false_iff in H.
  apply H.
Qed.

Lemma word_not_glyph (c : N) : is_word c = true -> is_glyph c = false.
Proof. unfold is_glyph. intros ->. reflexivity. Qed.

Lemma space_not_glyph (c : N) : is_space c = true -> is_glyph c = false.
Proof. unfold is_glyph. intros ->. rewrite orb_true_r. reflexivity. Qed.

Lemma space_not_word (c : N) : is_space c = true -> is_word c = false.
Proof.
  intros H. destruct (is_word c) eqn:Hw; [|reflexivity].
  rewrite (word_not_space _ Hw) in H. discriminate.
Qed.

Lemma word_is_dot (c : N) : is_word c = true -> is_dot c = true.
Proof.
  intros H. apply is_word_range in H. unfold is_dot, memN. cbn [existsb].
  apply negb_true_iff. decide_false. bools; lia.
Qed.

Lemma word_not_colon (c : N) : is_word c = true -> N.eqb (upper c) 58 = false.
Proof.
  intros H. apply is_word_range in H. unfold upper, in_range.
  destruct (97 <=? c)%N eqn:H1; destruct (c <=? 122)%N eqn:H2;
    cbn [andb]; bools;
    [apply N.eqb_neq; lia | | |];
    (replace (224 <=? c)%N with false by (symmetry; apply N.leb_gt; lia));
    cbn [andb]; apply N.eqb_neq; lia.
Qed.

Lemma upper_colon (c : N) : N.eqb (upper c) 58 = true -> c = 58%N.
Proof.
  unfold upper, in_range. intros H.
  destruct (97 <=? c)%N eqn:H1; destruct (c <=? 122)%N eqn:H2;
    cbn [andb] in H;
    try (destruct ((224 <=? c)%N && (c <=? 254)%N && negb (c =? 247)%N)%bool
           eqn:H3);
    bools; lia.
Qed.

Lemma plain_head (s : jsstring) :
  plain s -> exists c t, s = c :: t /\ is_word c = true.
Proof. intros [H _]. destruct s as [|c t]; [contradiction|]. eauto. Qed.

Lemma plain_truthy (s : jsstring) : plain s -> truthy (Some s) = true.
Proof. intros H. destruct (plain_head H) as (c & t & -> & _). reflexivity. Qed.

Lemma trim_plain (s : jsstring) : plain s -> trim s = s.
Proof.
  intros [Hh Ht]. destruct s as [|c t]; [contradiction|].
  unfold trim. cbn [drop_while]. rewrite (word_not_space _ Hh).
  destruct (rev (c :: t)) as [|z u] eqn:Hr; [contradiction|].
  cbn [drop_while]. rewrite Ht, <- Hr. apply rev_involutive.
Qed.

Lemma stops_plain_space (s rest : jsstring) :
  plain s -> stops is_space (s ++ rest).
Proof.
  intros H. destruct (plain_head H) as (c & t & -> & Hc).
  apply word_not_space, Hc.
Qed.

Lemma stops_glyph_row (sp body : jsstring) :
  blanks sp -> plain body -> stops is_glyph (sp ++ body).
Proof.
  intros Hsp Hb. destruct sp as [|c sp].
  - destruct (plain_head Hb) as (c & t & -> & Hc). apply word_not_glyph, Hc.
  - unfold blanks in Hsp. cbn [forallb] in Hsp.
    apply andb_true_iff in Hsp as [Hc _]. apply space_not_glyph, Hc.
Qed.

Lemma reads_glyphs (g rest : jsstring) :
  symbols g -> stops is_glyph rest -> reads glyphs g rest.
Proof.
  intros [Hne Hg] Hstop. change glyphs with (Plus (Cls is_glyph)).
  apply reads_plus; assumption.
Qed.

Lemma reads_blanks (sp rest : jsstring) :
  blanks sp -> stops is_space rest -> reads spaces0 sp rest.
Proof. intros Hsp Hstop. apply reads_star; assumption. Qed.

Lemma reads_label (rest : jsstring) :
  reads (liti (js "Time:")) (js "Time:") rest.
Proof.
  change (js "Time:") with ([84%N] ++ [105%N] ++ [109%N] ++ [101%N] ++ [58%N] ++ []).
  cbn [liti].
  repeat (apply reads_cat; [apply reads_cls; reflexivity|]).
  apply reads_eps.
Qed.

(* ================================================================== *)
(** ** The patterns of the line loop *)
(* ================================================================== *)

(** Symbols and the white space after them are stripped from a line. *)
Lemma strip_row (g sp body : jsstring) :
  symbols g -> blanks sp -> plain body ->
  strip leadingGlyphPattern (row g sp body) = body.
Proof.
  intros Hg Hsp Hb. unfold row. rewrite app_assoc.
  rewrite (@strip_at_start leadingGlyphPattern (g ++ sp) body []);
    [apply trim_plain, Hb|].
  unfold leadingGlyphPattern. cbn [cats].
  eapply matches_to_cat; [apply matches_to_bol|].
  apply (@matches_to_reads (Cat glyphs spaces0) (g ++ sp) body [] []).
  apply reads_cat.
  - apply reads_glyphs; [exact Hg | apply stops_glyph_row; assumption].
  - apply reads_blanks; [exact Hsp|].
    rewrite <- (app_nil_r body). apply stops_plain_space, Hb.
Qed.

Lemma starts_with_symbols (g sp body : jsstring) :
  symbols g -> blanks sp -> plain body ->
  test glyphStartPattern (row g sp body) = true.
Proof.
  intros Hg Hsp Hb. unfold row.
  apply (@test_at_start glyphStartPattern g (sp ++ body) []).
  unfold glyphStartPattern.
  eapply matches_to_cat; [apply matches_to_bol|].
  apply (@matches_to_reads glyphs g (sp ++ body) [] []).
  apply reads_glyphs; [exact Hg | apply stops_glyph_row; assumption].
Qed.

Lemma plain_starts_plain (s : jsstring) :
  plain s -> test glyphStartPattern s = false.
Proof.
  intros H. destruct (plain_head H) as (c & t & -> & Hc).
  unfold test, exec, glyphStartPattern. cbn [search].
  unfold match_here at 1. unfold glyphs, Plus. cbn [run m_pos Nat.eqb].
  unfold advance. cbn [m_rest m_pos m_caps].
  change (negb (is_word c || is_space c)) with (is_glyph c).
  rewrite (word_not_glyph _ Hc).
  rewrite search_bol by discriminate. reflexivity.
Qed.

(** The label and the symbols before it are stripped from the line of
    the time. *)
Lemma strip_time_row (g sp sp' time : jsstring) :
  symbols g -> blanks sp -> blanks sp' -> plain time ->
  strip timePrefixPattern (time_row g sp sp' time) = time.
Proof.
  intros Hg Hsp Hsp' Ht. unfold time_row.
  replace (g ++ sp ++ js "Time:" ++ sp' ++ time)
    with ((g ++ sp ++ js "Time:" ++ sp') ++ time)
    by (rewrite <- !app_assoc; reflexivity).
  rewrite (@strip_at_start timePrefixPattern _ time []);
    [apply trim_plain, Ht|].
  unfold timePrefixPattern. cbn [cats].
  eapply matches_to_cat; [apply matches_to_bol|].
  apply (@matches_to_reads
           (Cat glyphs (Cat spaces0 (Cat (liti (js "Time:")) spaces0)))
           (g ++ sp ++ js "Time:" ++ sp') time [] []).
  apply reads_cat.
  { apply reads_glyphs; [exact Hg|].
    destruct sp as [|c sp]; [reflexivity|].
    unfold blanks in Hsp. cbn [forallb] in Hsp.
    apply andb_true_iff in Hsp as [Hc _]. apply space_not_glyph, Hc. }
  apply reads_cat.
  { apply reads_blanks; [exact Hsp | reflexivity]. }
  apply reads_cat.
  { apply reads_label. }
  apply reads_blanks; [exact Hsp'|].
  rewrite <- (app_nil_r time). apply stops_plain_space, Ht.
Qed.

Lemma time_row_has_label (g sp sp' time : jsstring) :
  test timeLinePattern (time_row g sp sp' time) = true.
Proof.
  unfold time_row. rewrite app_assoc.
  apply (@test_some timeLinePattern (g ++ sp) (js "Time:" ++ sp' ++ time)
           (at_ ((g ++ sp) ++ js "Time:") (sp' ++ time) [])).
  change (MState (List.length (g ++ sp)) (js "Time:" ++ sp' ++ time) [])
    with (at_ (g ++ sp) (js "Time:" ++ sp' ++ time) []).
  apply matches_to_passes. apply reads_label.
Qed.

Lemma includes_skip (p w s : jsstring) :
  includes p s = true -> includes p (w ++ s) = true.
Proof.
  intros H. induction w as [|c w IH]; [exact H|].
  cbn [app].
  change (includes p (c :: w ++ s))
    with (starts_with p (c :: w ++ s) || includes p (w ++ s))%bool.
  rewrite IH. apply orb_true_r.
Qed.

Lemma time_row_says_time (g sp sp' time : jsstring) :
  includes (js "Time") (time_row g sp sp' time) = true.
Proof.
  unfold time_row. rewrite app_assoc. apply includes_skip. reflexivity.
Qed.

(** A word that begins with a word character is not found in a run
    that has none. *)
Lemma includes_after (p w s : jsstring) :
  match p with
  | c :: _ => is_word c = true
  | [] => False
  end ->
  forallb (fun c => negb (is_word c)) w = true ->
  includes p (w ++ s) = includes p s.
Proof.
  intros Hp Hw. destruct p as [|c p]; [contradiction|].
  induction w as [|x w IH]; [reflexivity|].
  cbn [forallb] in Hw. apply andb_true_iff in Hw as [Hx Hw].
  cbn [app].
  change (includes (c :: p) (x :: w ++ s))
    with (starts_with (c :: p) (x :: w ++ s)
          || includes (c :: p) (w ++ s))%bool.
  rewrite (IH Hw). cbn [starts_with].
  destruct (N.eqb c x) eqn:E; [|reflexivity].
  apply N.eqb_eq in E. subst x. rewrite Hp in Hx. discriminate.
Qed.

Lemma row_quiet (g sp : jsstring) :
  symbols g -> blanks sp ->
  forallb (fun c => negb (is_word c)) (g ++ sp) = true.
Proof.
  intros [_ Hg] Hsp. rewrite forallb_app. apply andb_true_iff. split.
  - apply forallb_forall. intros x Hx.
    rewrite forallb_forall in Hg. rewrite (glyph_not_word _ (Hg x Hx)).
    reflexivity.
  - apply forallb_forall. intros x Hx. unfold blanks in Hsp.
    rewrite forallb_forall in Hsp. rewrite (space_not_word _ (Hsp x Hx)).
    reflexivity.
Qed.

Lemma row_says_time (g sp body : jsstring) :
  symbols g -> blanks sp ->
  includes (js "Time") (row g sp body) = includes (js "Time") body.
Proof.
  intros Hg Hsp. unfold row. rewrite app_assoc.
  apply includes_after; [reflexivity | apply row_quiet; assumption].
Qed.

(* ================================================================== *)
(** ** Lines with and without the label of the time *)
(* ================================================================== *)

Lemma label_fails (s : jsstring) (pos : nat) (c : caps) :
  label_at s = false -> match_here timeLinePattern (MState pos s c) = None.
Proof.
  intros H. unfold match_here, timeLinePattern.
  change (js "Time:") with [84%N; 105%N; 109%N; 101%N; 58%N].
  cbn [liti]. unfold chri. cbn [run]. unfold advance.
  change (upper 84) with 84%N. change (upper 105) with 73%N.
  change (upper 109) with 77%N. change (upper 101) with 69%N.
  change (upper 58) with 58%N.
  destruct s as [|t [|i [|m [|e [|k r]]]]]; cbn [m_rest m_pos m_caps];
    try reflexivity;
    repeat match goal with
      | |- context [if N.eqb ?a ?b then _ else _] =>
          destruct (N.eqb a b) eqn:?; cbn [m_rest m_pos m_caps];
          try reflexivity
      end.
  unfold label_at in H.
  repeat match goal with
    | E : N.eqb _ _ = true |- _ => rewrite E in H; clear E
    end.
  discriminate H.
Qed.

Lemma search_label (s : jsstring) (pos : nat) :
  labelled s = false -> search timeLinePattern pos s = None.
Proof.
  revert pos. induction s as [|x s IH]; intros pos H.
  - cbn [search]. rewrite label_fails; reflexivity.
  - cbn [labelled] in H. apply orb_false_iff in H as [H1 H2].
    cbn [search]. rewrite (label_fails _ _ _ H1). apply IH, H2.
Qed.

Lemma labelled_quiet (w s : jsstring) :
  forallb (fun c => negb (is_word c)) w = true ->
  labelled (w ++ s) = labelled s.
Proof.
  intros Hw. induction w as [|x w IH]; [reflexivity|].
  cbn [forallb] in Hw. apply andb_true_iff in Hw as [Hx Hw].
  cbn [app labelled]. rewrite (IH Hw).
  replace (label_at (x :: w ++ s)) with false; [reflexivity|].
  symmetry. unfold label_at.
  destruct (w ++ s) as [|i [|m [|e [|k r]]]]; try reflexivity.
  destruct (N.eqb (upper x) 84) eqn:E; [|reflexivity].
  apply N.eqb_eq in E.
  destruct (upper_ascii x E) as [-> | ->]; [lia | discriminate Hx
                                                | discriminate Hx].
Qed.

Lemma labelled_no_colon (s : jsstring) :
  forallb (fun c => negb (N.eqb c 58)) s = true -> labelled s = false.
Proof.
  induction s as [|x s IH]; intros H; [reflexivity|].
  cbn [forallb] in H. apply andb_true_iff in H as [Hx Hs].
  cbn [labelled]. rewrite (IH Hs), orb_false_r.
  unfold label_at. destruct s as [|i [|m [|e [|k r]]]]; try reflexivity.
  cbn [forallb] in Hs. bools.
  destruct (N.eqb (upper k) 58) eqn:E;
    [|rewrite !andb_false_r; reflexivity].
  apply upper_colon in E. congruence.
Qed.

Lemma word_no_colon (w : jsstring) :
  forallb is_word w = true -> forallb (fun c => negb (N.eqb c 58)) w = true.
Proof.
  intros H. apply forallb_forall. intros x Hx.
  rewrite forallb_forall in H. specialize (H x Hx).
  apply is_word_range in H. apply negb_true_iff, N.eqb_neq. lia.
Qed.

Lemma digits_word (w : jsstring) :
  forallb is_digit w = true -> forallb is_word w = true.
Proof.
  intros H. apply forallb_forall. intros x Hx.
  rewrite forallb_forall in H. apply digit_is_word, H, Hx.
Qed.

Lemma words_dot (w : jsstring) :
  forallb is_word w = true -> forallb is_dot w = true.
Proof.
  intros H. apply forallb_forall. intros x Hx.
  rewrite forallb_forall in H. apply word_is_dot, H, Hx.
Qed.

Lemma weekday_word (w : jsstring) : In w weekdays -> word w.
Proof.
  intros H. vm_compute in H.
  repeat (destruct H as [<- | H]; [split; [discriminate | reflexivity]|]).
  contradiction.
Qed.

Section DateRow.

Variables (g sp weekday month day year : jsstring).

Hypotheses (Hg : symbols g) (Hsp : blanks sp)
           (Hwd : In weekday weekdays) (Hmon : word month)
           (Hday : number day) (Hyear : number year)
           (Hlen : List.length year = 4%nat).

Lemma year_digits :
  exists a b c d, year = [a; b; c; d]
                  /\ is_digit a = true /\ is_digit b = true
                  /\ is_digit c = true /\ is_digit d = true.
Proof.
  destruct Hyear as [_ H].
  destruct year as [|a [|b [|c [|d [|? ?]]]]]; try discriminate Hlen.
  cbn [forallb] in H. bools. exists a, b, c, d. auto.
Qed.

Lemma date_line_plain : plain (date_line weekday month day year).
Proof.
  destruct year_digits as (a & b & c & d & -> & _ & _ & _ & Hd).
  destruct (weekday_word Hwd) as [Hne Hw]. split.
  - unfold date_line. destruct weekday as [|x w]; [congruence|].
    cbn [forallb] in Hw. apply andb_true_iff in Hw as [Hx _]. exact Hx.
  - unfold date_line. rewrite !app_assoc, rev_app_distr.
    cbn [rev app]. apply digit_not_space, Hd.
Qed.

Lemma date_row_found :
  test dateLinePattern (row g sp (date_line weekday month day year)) = true.
Proof.
  destruct year_digits as (a & b & c & d & -> & Ha & Hb & Hc & Hd).
  destruct Hmon as [_ Hm], Hday as [_ Hdd].
  unfold row. rewrite app_assoc.
  set (mid := js ", " ++ month ++ js " " ++ day ++ js ", ").
  replace (date_line weekday month day [a; b; c; d])
    with (weekday ++ mid ++ [a; b; c; d])
    by (unfold date_line, mid; rewrite <- !app_assoc; reflexivity).
  apply (@test_some dateLinePattern (g ++ sp) _
           (MState (List.length (g ++ sp) + List.length weekday
                    + List.length mid + 4) [] [])).
  unfold dateLinePattern. cbn [cats].
  eapply passes_cat.
  { apply (@passes_alts (lit weekday)); [apply in_map, Hwd|].
    apply passes_lit. }
  eapply passes_cat.
  { apply passes_star. unfold mid.
    change (js ", ") with [44%N; 32%N]. change (js " ") with [32%N].
    rewrite !forallb_app, (words_dot _ Hm), (words_dot _ (digits_word _ Hdd)).
    reflexivity. }
  unfold digit.
  eapply passes_cat; [apply passes_cls, Ha|].
  eapply passes_cat; [apply passes_cls, Hb|].
  eapply passes_cat; [apply passes_cls, Hc|].
  replace (List.length (g ++ sp) + List.length weekday + List.length mid + 4)%nat
    with (S (S (S (S (List.length (g ++ sp) + List.length weekday
                        + List.length mid))))) by lia.
  apply passes_cls, Hd.
Qed.

Lemma date_row_no_label :
  test timeLinePattern (row g sp (date_line weekday month day year)) = false.
Proof.
  unfold test, exec. rewrite search_label; [reflexivity|].
  unfold row. rewrite app_assoc, labelled_quiet by (apply row_quiet; assumption).
  apply labelled_no_colon.
  destruct (weekday_word Hwd) as [_ Hw].
  destruct Hmon as [_ Hm], Hday as [_ Hdd], Hyear as [_ Hy].
  unfold date_line. change (js ", ") with [44%N; 32%N].
  change (js " ") with [32%N].
  rewrite !forallb_app, (word_no_colon _ Hw), (word_no_colon _ Hm),
    (word_no_colon _ (digits_word _ Hdd)), (word_no_colon _ (digits_word _ Hy)).
  reflexivity.
Qed.

End DateRow.

(* ================================================================== *)
(** ** The line loop on a blockquote of the feed *)
(* ================================================================== *)

(** Once the date, the time and the venue are found, no line changes
    anything. *)
Lemma scan_line_settled (lines : list jsstring) (st : LineState) (i : nat) :
  truthy (ls_date st) = true -> truthy (ls_time st) = true ->
  truthy (ls_venueName st) = true ->
  scan_line lines st i = st.
Proof.
  intros Hd Ht Hv. unfold scan_line. rewrite Hd, Ht, Hv.
  destruct st. reflexivity.
Qed.

Lemma scan_settled (lines : list jsstring) (st : LineState) (idx : list nat) :
  truthy (ls_date st) = true -> truthy (ls_time st) = true ->
  truthy (ls_venueName st) = true ->
  fold_left (scan_line lines) idx st = st.
Proof.
  intros Hd Ht Hv. induction idx as [|i idx IH]; [reflexivity|].
  cbn [fold_left]. rewrite scan_line_settled; assumption.
Qed.

(** X12. A blockquote written as the feed writes it: a line with
    symbols (an emoji, say) before "Weekday, Month D, YYYY", a line with
    symbols before the label "Time:" and the time, a line with symbols
    before the name of the venue, then the address on a line of its own,
    and whatever lines after that. The loop over the lines finds the
    four fields as written, without the symbols, the label and the
    white space around them. Each text begins with a word character and
    does not end with white space, and neither the name of the venue
    nor the address holds "Time". *)
Theorem lines_of_the_feed_are_read
    (g0 sp0 weekday month day year g1 sp1 sp1' time g2 sp2 venue address
       : jsstring)
    (more : list jsstring) :
  symbols g0 -> blanks sp0 ->
  In weekday weekdays -> word month -> number day -> number year ->
  List.length year = 4%nat ->
  symbols g1 -> blanks sp1 -> blanks sp1' -> plain time ->
  symbols g2 -> blanks sp2 -> plain venue ->
  includes (js "Time") venue = false ->
  plain address -> includes (js "Time") address = false ->
  scan_lines (row g0 sp0 (date_line weekday month day year)
                :: time_row g1 sp1 sp1' time
                :: row g2 sp2 venue
                :: address
                :: more)
  = fields_found (date_line weekday month day year) time venue address.
Proof.
  intros Hg0 Hsp0 Hwd Hmon Hday Hyear Hlen Hg1 Hsp1 Hsp1' Htime
         Hg2 Hsp2 Hvenue Hvt Haddr Hat.
  pose proof (@date_line_plain weekday month day year Hwd Hyear Hlen) as Hdate.
  unfold scan_lines. cbn [List.length seq fold_left].
  set (lines := row g0 sp0 (date_line weekday month day year)
                  :: time_row g1 sp1 sp1' time
                  :: row g2 sp2 venue :: address :: more).
  (* the line of the date *)
  assert (S0 : scan_line lines
                 {| ls_date := None; ls_time := None;
                    ls_venueName := None; ls_venueAddress := None |} 0
               = {| ls_date := Some (date_line weekday month day year);
                    ls_time := None;
                    ls_venueName := None; ls_venueAddress := None |}).
  { unfold scan_line, lines.
    cbn [nth ls_date ls_time ls_venueName ls_venueAddress truthy negb andb
           Nat.ltb Nat.leb].
    rewrite (@date_row_found g0 sp0 weekday month day year
               Hwd Hmon Hday Hyear Hlen).
    rewrite (@date_row_no_label g0 sp0 weekday month day year
               Hg0 Hsp0 Hwd Hmon Hday Hyear).
    rewrite (strip_row Hg0 Hsp0 Hdate). reflexivity. }
  rewrite S0. clear S0.
  (* the line of the time *)
  assert (S1 : scan_line lines
                 {| ls_date := Some (date_line weekday month day year);
                    ls_time := None;
                    ls_venueName := None; ls_venueAddress := None |} 1
               = {| ls_date := Some (date_line weekday month day year);
                    ls_time := Some time;
                    ls_venueName := None; ls_venueAddress := None |}).
  { unfold scan_line, lines.
    cbn [nth ls_date ls_time ls_venueName ls_venueAddress].
    rewrite (plain_truthy Hdate).
    cbn [truthy negb andb Nat.ltb Nat.leb].
    rewrite time_row_has_label, time_row_says_time.
    rewrite (strip_time_row Hg1 Hsp1 Hsp1' Htime).
    cbn [negb]. rewrite andb_false_r. reflexivity. }
  rewrite S1. clear S1.
  (* the line of the venue *)
  assert (S2 : scan_line lines
                 {| ls_date := Some (date_line weekday month day year);
                    ls_time := Some time;
                    ls_venueName := None; ls_venueAddress := None |} 2
               = fields_found (date_line weekday month day year)
                              time venue address).
  { unfold scan_line, lines.
    cbn [nth ls_date ls_time ls_venueName ls_venueAddress].
    rewrite (plain_truthy Hdate), (plain_truthy Htime).
    cbn [Nat.add]. cbn [nth].
    rewrite (trim_plain Haddr), (plain_truthy Haddr).
    cbn [truthy negb andb Nat.ltb Nat.leb Nat.add List.length].
    rewrite (starts_with_symbols Hg2 Hsp2 Hvenue).
    rewrite (row_says_time venue Hg2 Hsp2), Hvt.
    rewrite (strip_row Hg2 Hsp2 Hvenue).
    rewrite Hat, (plain_starts_plain Haddr).
    reflexivity. }
  rewrite S2. clear S2.
  (* the address and the lines after it *)
  rewrite scan_line_settled;
    [|cbn [fields_found ls_date ls_time ls_venueName];
      apply plain_truthy; assumption ..].
  apply scan_settled; cbn [fields_found ls_date ls_time ls_venueName];
    apply plain_truthy; assumption.
Qed.

Lemma lines_of_the_feed_are_read_witness :
  scan_lines
    [row [55357; 56517]%N (js " ")
         (date_line (js "Monday") (js "January") (js "26") (js "2026"));
     time_row [55357; 56661]%N (js " ") (js " ") (js "6:00 PM - 10:00 PM EST");
     row [55357; 56525]%N (js " ") (js "The Satoshi Room");
     js "1 Main St NW, Washington, DC"]
  = fields_found (js "Monday, January 26, 2026") (js "6:00 PM - 10:00 PM EST")
                 (js "The Satoshi Room") (js "1 Main St NW, Washington, DC").
Proof.
  apply (@lines_of_the_feed_are_read
           [55357; 56517]%N (js " ") (js "Monday") (js "January") (js "26")
           (js "2026") [55357; 56661]%N (js " ") (js " ")
           (js "6:00 PM - 10:00 PM EST") [55357; 56525]%N (js " ")
           (js "The Satoshi Room") (js "1 Main St NW, Washington, DC") []);
    first [ reflexivity
          | split; [discriminate | reflexivity]
          | split; reflexivity
          | left; reflexivity ].
Defined.
(* ================================================================== *)
(** ** Where the fields of the line loop come from *)
(* ================================================================== *)

Lemma scan_line_sound (lines : list jsstring) (st : LineState) (i : nat) :
  (i < List.length lines)%nat -> sound lines st ->
  sound lines (scan_line lines st i).
Proof.
  intros Hi (Hd & Ht & Hv & Ha).
  assert (Hd' : forall d,
             (if (negb (truthy (ls_date st))
                  && test dateLinePattern (nth i lines []))%bool
              then Some (strip leadingGlyphPattern (nth i lines []))
              else ls_date st) = Some d -> date_from lines d).
  { intros d. destruct (negb _ && test dateLinePattern _)%bool eqn:E.
    - intros [= <-]. apply andb_true_iff in E as [_ E].
      exists i. auto.
    - apply Hd. }
  assert (Ht' : forall t,
             (if (negb (truthy (ls_time st))
                  && test timeLinePattern (nth i lines []))%bool
              then Some (strip timePrefixPattern (nth i lines []))
              else ls_time st) = Some t -> time_from lines t).
  { intros t. destruct (negb _ && test timeLinePattern _)%bool eqn:E.
    - intros [= <-]. apply andb_true_iff in E as [_ E].
      exists i. auto.
    - apply Ht. }
  unfold scan_line.
  destruct (negb (truthy (ls_venueName st)) && Nat.ltb 0 i
            && test glyphStartPattern (nth i lines [])
            && negb (includes (js "Time") (nth i lines [])))%bool eqn:E;
    cbn [ls_date ls_time ls_venueName ls_venueAddress];
    (split; [exact Hd' | split; [exact Ht' | split; [|]]]);
    try assumption.
  - intros v [= <-]. bools. exists i. split; [|reflexivity].
    repeat split; try assumption.
    match goal with H : Nat.ltb 0 i = true |- _ => apply Nat.ltb_lt, H end.
  - intros a. bools.
    assert (Hl : venue_line lines i).
    { repeat split; try assumption.
      match goal with H : Nat.ltb 0 i = true |- _ => apply Nat.ltb_lt, H end. }
    destruct (Nat.ltb (i + 1) (List.length lines)) eqn:Hn; [|apply Ha].
    destruct (truthy (Some (trim (nth (i + 1) lines [])))
              && negb (includes (js "Time") (trim (nth (i + 1) lines [])))
              && negb (test glyphStartPattern (trim (nth (i + 1) lines []))))%bool
      eqn:E'; [|apply Ha].
    intros [= <-]. bools. exists i.
    split; [exact Hl|]. split; [apply Nat.ltb_lt, Hn|].
    split; [reflexivity|].
    split; [|split; assumption].
    unfold line. destruct (trim (nth (i + 1) lines [])); discriminate.
Qed.

Lemma scan_sound (lines : list jsstring) (idx : list nat) (st : LineState) :
  (forall i, In i idx -> (i < List.length lines)%nat) ->
  sound lines st -> sound lines (fold_left (scan_line lines) idx st).
Proof.
  revert st. induction idx as [|i idx IH]; intros st Hidx Hst; [exact Hst|].
  cbn [fold_left]. apply IH.
  - intros j Hj. apply Hidx. right. exact Hj.
  - apply scan_line_sound; [apply Hidx; left; reflexivity | exact Hst].
Qed.

(** X13. Whatever the lines of the blockquote, a field that the loop
    finds comes from a line that passes the test of the field: the date
    from a line with the name of a weekday and four digits later on, the
    time from a line with the label "Time:", the name of the venue from a
    line that opens with symbols and does not hold "Time", and never
    from the first line, the address from the line right after such a
    line, when it is not blank, does not open with symbols and does not
    hold "Time". *)
Theorem fields_come_from_lines (lines : list jsstring) :
  sound lines (scan_lines lines).
Proof.
  unfold scan_lines. apply scan_sound.
  - intros i Hi. apply in_seq in Hi. lia.
  - repeat split; intros ? [=].
Qed.
(* ================================================================== *)
(** ** Events refer to records of the store *)
(* ================================================================== *)

Lemma extends_refl (s : Store.t) : extends s s.
Proof. repeat split; apply incl_refl. Qed.

Lemma extends_trans (s1 s2 s3 : Store.t) :
  extends s1 s2 -> extends s2 s3 -> extends s1 s3.
Proof.
  intros (He & Hv & Hf & Ht) (He' & Hv' & Hf' & Ht').
  split; [congruence|].
  repeat split; eapply incl_tran; eassumption.
Qed.

Lemma extends_log (r : Request) (s : Store.t) : extends s (log r s).
Proof. repeat split; apply incl_refl. Qed.

Lemma venue_stored_incl (s s' : Store.t) (i : positive) :
  incl (venues s) (venues s') -> venue_stored s i -> venue_stored s' i.
Proof. intros Hv (v & Hin & Hi). exists v. auto. Qed.

Lemma file_stored_incl (s s' : Store.t) (i : positive) :
  incl (files s) (files s') -> file_stored s i -> file_stored s' i.
Proof. intros Hf Hin. apply Hf, Hin. Qed.

Lemma tag_stored_incl (s s' : Store.t) (i : positive) :
  incl (tags s) (tags s') -> tag_stored s i -> tag_stored s' i.
Proof. intros Ht (t & Hin & Hi). exists t. auto. Qed.

Lemma venue_stored_extends (s s' : Store.t) (i : positive) :
  extends s s' -> venue_stored s i -> venue_stored s' i.
Proof. intros (_ & Hv & _) (v & Hin & Hi). exists v. auto. Qed.

Lemma file_stored_extends (s s' : Store.t) (i : positive) :
  extends s s' -> file_stored s i -> file_stored s' i.
Proof. intros (_ & _ & Hf & _) Hin. apply Hf, Hin. Qed.

Lemma tag_stored_extends (s s' : Store.t) (i : positive) :
  extends s s' -> tag_stored s i -> tag_stored s' i.
Proof. intros (_ & _ & _ & Ht) (t & Hin & Hi). exists t. auto. Qed.

Lemma event_valid_extends (s s' : Store.t) (e : Event) :
  extends s s' -> event_valid s e -> event_valid s' e.
Proof.
  intros Hx (Hv & Hf & Ht). repeat split; intros i Hi.
  - eapply venue_stored_extends; eauto.
  - eapply file_stored_extends; eauto.
  - eapply tag_stored_extends; eauto.
Qed.

Lemma refs_valid_extends (s s' : Store.t) :
  extends s s' -> refs_valid s -> refs_valid s'.
Proof.
  intros Hx H e Hin. destruct Hx as [He Hx'] eqn:E. rewrite He in Hin.
  apply (event_valid_extends Hx), H, Hin.
Qed.

Section Refs.

Variable E : Env.

Lemma helper_none (holds : Store.t -> positive -> Prop) :
  helper_ok holds (ret None).
Proof. intros s. split; [apply extends_refl | intros i [=]]. Qed.

Lemma downloadAndUploadImage_ok (u : option jsstring) :
  helper_ok file_stored (downloadAndUploadImage E u).
Proof.
  unfold downloadAndUploadImage.
  destruct u as [[|c u]|]; try apply helper_none.
  destruct (fetch_image E (c :: u)); [|apply helper_none].
  intros s. unfold uploadFile. rewrite send_eq. simpl op_of.
  destruct (refuses E OpUploadFile); simpl.
  - split; [apply extends_log | intros i [=]].
  - split.
    + repeat split; simpl; try apply incl_refl. apply incl_appl, incl_refl.
    + intros i [= <-]. unfold file_stored. simpl.
      apply in_or_app. right. left. reflexivity.
Qed.

Lemma findOrCreateVenue_ok (n a : option jsstring) :
  helper_ok venue_stored (findOrCreateVenue E n a).
Proof.
  unfold findOrCreateVenue.
  destruct n as [[|c n]|]; try apply helper_none.
  intros s. unfold bind, listVenues. rewrite send_eq. simpl op_of.
  destruct (refuses E OpListVenues); simpl;
    [split; [apply extends_log | intros i [=]]|].
  destruct (filter (fun v => JS.eqb (v_name v) (c :: n)) (venues s))
    as [|v l] eqn:Hf; simpl.
  - unfold createVenue. rewrite send_eq. simpl op_of.
    destruct (refuses E OpCreateVenue); simpl.
    + split; [|intros i [=]].
      eapply extends_trans; apply extends_log.
    + split.
      * repeat split; simpl; try apply incl_refl. apply incl_appl, incl_refl.
      * intros i [= <-]. eexists. simpl.
        split; [apply in_or_app; right; left; reflexivity | reflexivity].
  - split; [apply extends_log|].
    intros i [= <-]. exists v. split; [|reflexivity].
    assert (Hin : In v (filter (fun v => JS.eqb (v_name v) (c :: n)) (venues s)))
      by (rewrite Hf; left; reflexivity).
    apply filter_In in Hin. apply Hin.
Qed.

Lemma findOrCreateTag_ok (n : jsstring) :
  helper_ok tag_stored (findOrCreateTag E n).
Proof.
  unfold findOrCreateTag.
  destruct n as [|c n]; [apply helper_none|].
  intros s. unfold bind, listTags. rewrite send_eq. simpl op_of.
  destruct (refuses E OpListTags); simpl;
    [split; [apply extends_log | intros i [=]]|].
  destruct (filter (fun t => JS.eqb (t_name t) (c :: n)) (tags s))
    as [|t l] eqn:Hf; simpl.
  - unfold createTag. rewrite send_eq. simpl op_of.
    destruct (refuses E OpCreateTag); simpl.
    + split; [|intros i [=]].
      eapply extends_trans; apply extends_log.
    + split.
      * repeat split; simpl; try apply incl_refl. apply incl_appl, incl_refl.
      * intros i [= <-]. eexists. simpl.
        split; [apply in_or_app; right; left; reflexivity | reflexivity].
  - split; [apply extends_log|].
    intros i [= <-]. exists t. split; [|reflexivity].
    assert (Hin : In t (filter (fun t => JS.eqb (t_name t) (c :: n)) (tags s)))
      by (rewrite Hf; left; reflexivity).
    apply filter_In in Hin. apply Hin.
Qed.

Lemma helper_if (holds : Store.t -> positive -> Prop) (b : bool)
    (m : M (option positive)) :
  helper_ok holds m -> helper_ok holds (if b then m else ret None).
Proof. intros H. destruct b; [exact H | apply helper_none]. Qed.

(** The event that [createNewEvent] adds refers to records of the
    store. *)
Lemma createNewEvent_refs (item : Item) (feedSource : jsstring)
    (parsed : Parsed) (dt : DateTimes) (rsvpUrl : option jsstring) :
  preserves refs_valid (createNewEvent E item feedSource parsed dt rsvpUrl).
Proof.
  intros s H. unfold createNewEvent, bind.
  destruct (helper_if (truthy (p_imageUrl parsed))
              (downloadAndUploadImage_ok (p_imageUrl parsed)) s)
    as [X1 I1].
  destruct ((if truthy (p_imageUrl parsed)
             then downloadAndUploadImage E (p_imageUrl parsed)
             else ret None) s) as [im s1].
  cbn [fst snd] in X1, I1.
  destruct (helper_if (truthy (p_venueName parsed))
              (findOrCreateVenue_ok (p_venueName parsed)
                 (p_venueAddress parsed)) s1)
    as [X2 I2].
  destruct ((if truthy (p_venueName parsed)
             then findOrCreateVenue E (p_venueName parsed)
                    (p_venueAddress parsed)
             else ret None) s1) as [v s2].
  cbn [fst snd] in X2, I2.
  destruct (helper_if (test bitplebsPattern (title item))
              (findOrCreateTag_ok (js "bitplebs")) s2)
    as [X3 I3].
  destruct ((if test bitplebsPattern (title item)
             then findOrCreateTag E (js "bitplebs")
             else ret None) s2) as [t s3].
  cbn [fst snd] in X3, I3.
  assert (X : extends s s3)
    by (eapply extends_trans; [|exact X3];
        eapply extends_trans; eassumption).
  unfold createEvent. rewrite send_eq. simpl op_of.
  destruct (refuses E OpCreateEvent); cbn [fst snd ret].
  - apply (refs_valid_extends (s := s)); [|exact H].
    eapply extends_trans; [exact X | apply extends_log].
  - set (data := eventData item feedSource parsed dt rsvpUrl v im t).
    set (s4 := snd (insert_event data (log (CreateEvent data) s3))).
    assert (X4 : incl (venues s3) (venues s4) /\ incl (files s3) (files s4)
                 /\ incl (tags s3) (tags s4))
      by (repeat split; apply incl_refl).
    assert (Hold : forall e, event_valid s e -> event_valid s4 e).
    { intros e (Hv & Hf & Ht). destruct X as (_ & Xv & Xf & Xt).
      destruct X4 as (Yv & Yf & Yt).
      repeat split; intros i Hi.
      - destruct (Hv i Hi) as (x & Hx & <-). exists x. auto.
      - apply Yf, Xf, Hf, Hi.
      - destruct (Ht i Hi) as (x & Hx & <-). exists x. auto. }
    intros e Hin.
    change (events s4)
      with (events s3 ++ [{| ev_id := next_id s3; ev_data := data |}]) in Hin.
    apply in_app_or in Hin as [Hin | [<- | []]].
    + apply Hold, H. destruct X as [He _]. rewrite <- He. exact Hin.
    + repeat split; intros i Hi.
      * change (field Fld.location {| ev_id := next_id s3; ev_data := data |})
          with (of_id v) in Hi.
        destruct v as [j|]; [|discriminate]. injection Hi as <-.
        apply venue_stored_incl with (s := s3); [apply X4|].
        apply venue_stored_extends with (s := s2); [exact X3|].
        apply I2. reflexivity.
      * change (field Fld.image {| ev_id := next_id s3; ev_data := data |})
          with (of_id im) in Hi.
        destruct im as [j|]; [|discriminate]. injection Hi as <-.
        apply file_stored_incl with (s := s3); [apply X4|].
        apply file_stored_extends with (s := s1);
          [exact (extends_trans X2 X3)|].
        apply I1. reflexivity.
      * change (field Fld.tags {| ev_id := next_id s3; ev_data := data |})
          with (of_id t) in Hi.
        destruct t as [j|]; [|discriminate]. injection Hi as <-.
        apply tag_stored_incl with (s := s3); [apply X4|].
        apply I3. reflexivity.
Qed.

Lemma bind_eq {A B} (m : M A) (f : A -> M B) (s : Store.t) :
  bind m f s = f (fst (m s)) (snd (m s)).
Proof. unfold bind. destruct (m s). reflexivity. Qed.

(** A part of the patch: empty, or one field with the id that a helper
    answered. *)
Lemma part_ok (holds : Store.t -> positive -> Prop) (f : Fld.t) (c : bool)
    (m : M (option positive)) (s : Store.t) :
  helper_ok holds m ->
  let x := (if c
            then a <- m ;; ret (match a with
                                | Some i => [(f, VNum (Zpos i))]
                                | None => []
                                end)
            else ret []) s in
  extends s (snd x)
  /\ (fst x = [] \/ exists i, fst x = [(f, VNum (Zpos i))] /\ holds (snd x) i).
Proof.
  intros Hm. cbv zeta. destruct c.
  - rewrite bind_eq. destruct (Hm s) as [X I].
    destruct (m s) as [[i|] s1]; cbn [fst snd ret] in *.
    + split; [exact X|]. right. exists i.
      split; [reflexivity | apply I; reflexivity].
    + split; [exact X | left; reflexivity].
  - split; [apply extends_refl | left; reflexivity].
Qed.

(** What [updatesNeeded] puts into the patch refers to records of the
    store, and the patch leaves the venue of the event alone. *)
Lemma updatesNeeded_refs (item : Item) (parsed : Parsed)
    (rsvpUrl : option jsstring) (existingEvent : Event) (s : Store.t) :
  let x := updatesNeeded E item parsed rsvpUrl existingEvent s in
  extends s (snd x)
  /\ forall e, event_valid (snd x) e ->
               event_valid (snd x) (patch_event (fst x) e).
Proof.
  cbv zeta. unfold updatesNeeded. rewrite bind_eq.
  destruct (part_ok Fld.image
              (negb (truthy_v (field Fld.image existingEvent))
               && truthy (p_imageUrl parsed)) s
              (downloadAndUploadImage_ok (p_imageUrl parsed)))
    as [X1 Hip].
  match type of X1 with
  | extends _ (snd ?x) => destruct x as [ip s1]
  end.
  cbn [fst snd] in X1, Hip |- *.
  rewrite bind_eq.
  destruct (part_ok Fld.tags
              (test bitplebsPattern (title item)
               && negb (truthy_v (field Fld.tags existingEvent))) s1
              (findOrCreateTag_ok (js "bitplebs")))
    as [X2 Htp].
  match type of X2 with
  | extends _ (snd ?x) => destruct x as [tp s2]
  end.
  cbn [fst snd ret] in X2, Htp |- *.
  split; [eapply extends_trans; eassumption|].
  intros e (Hv & Hf & Ht).
  set (rp := if (negb (truthy_v (field Fld.rsvp_url existingEvent))
                 && truthy rsvpUrl)%bool
             then [(Fld.rsvp_url, of_str rsvpUrl)] else []).
  assert (Hrp : rp = [] \/ rp = [(Fld.rsvp_url, of_str rsvpUrl)])
    by (unfold rp; destruct (_ && _)%bool; auto).
  clearbody rp.
  unfold event_valid, field, patch_event. cbn [ev_data].
  destruct Hip as [-> | (i1 & -> & F1)];
    destruct Hrp as [-> | ->];
    destruct Htp as [-> | (i2 & -> & F2)];
    cbn [app get Fld.eqb];
    repeat split; intros i Hi;
    try (apply Hv, Hi); try (apply Hf, Hi); try (apply Ht, Hi);
    try (injection Hi as <-; assumption);
    try (injection Hi as <-;
         apply file_stored_extends with (s := s1); assumption).
Qed.

Lemma processRSSItem_refs (item : Item) (feedSource : jsstring) :
  preserves refs_valid (processRSSItem E item feedSource).
Proof.
  intros s H. rewrite processRSSItem_eq.
  destruct (parseEventDetails _ _) as [parsed|]; [|exact H].
  cbv zeta.
  destruct (startDateTime _) as [[|c start]|]; try exact H.
  destruct (isBefore _ _); [exact H|].
  assert (H0 : refs_valid (log (ListEvents (link item)) s))
    by (apply (refs_valid_extends (extends_log _ s)), H).
  destruct (if refuses E OpListEvents then None else found (link item) s)
    as [e0|]; [|apply createNewEvent_refs, H0].
  destruct (updatesNeeded_refs item parsed (resolveRsvpUrl E item parsed) e0
              (log (ListEvents (link item)) s)) as [X P].
  destruct (updatesNeeded E item parsed (resolveRsvpUrl E item parsed) e0
              (log (ListEvents (link item)) s)) as [patch s1].
  cbn [fst snd] in X, P.
  assert (H1 : refs_valid s1) by (apply (refs_valid_extends X), H0).
  destruct patch as [|p ps]; [exact H1|].
  cbn [snd].
  destruct (refuses E OpUpdateEvent); cbn [snd].
  - apply (refs_valid_extends (extends_log _ s1)), H1.
  - intros e Hin. cbn [modify_event events log] in Hin.
    apply in_map_iff in Hin as (e' & <- & Hin).
    assert (Hs : forall x, event_valid s1 x ->
                 event_valid
                   (modify_event (ev_id e0) (p :: ps)
                      (log (UpdateEvent (ev_id e0) (p :: ps)) s1)) x).
    { intros x (Hv & Hf & Ht). repeat split; intros i Hi.
      - apply Hv, Hi.
      - apply Hf, Hi.
      - apply Ht, Hi. }
    apply Hs. destruct (Pos.eqb (ev_id e') (ev_id e0)).
    + apply P, H1, Hin.
    + apply H1, Hin.
Qed.

End Refs.

(** X14. The venue, the image and the tag that an event points to are
    records of the store: if that holds of every stored event, it still
    holds after an item is processed and after a whole run, whatever the
    feeds hold and whatever the store refuses. An id gets into an event
    only as the answer of a helper, and a helper that fails answers with
    null. *)
Theorem references_stay_valid (E : Env) (s : Store.t) :
  refs_valid s ->
  (forall item feedSource,
      refs_valid (snd (processRSSItem E item feedSource s)))
  /\ refs_valid (snd (main E s)).
Proof.
  intros H. split.
  - intros item feedSource. apply processRSSItem_refs, H.
  - apply main_preserves; [|exact H].
    intros item feedSource s0. apply processRSSItem_refs.
Qed.

Lemma references_stay_valid_witness :
  let s1 := snd (main (Sample.env Sample.new_year) Store.empty) in
  List.map (fun e => (field Fld.location e, field Fld.image e,
                      field Fld.tags e)) (events s1)
  = [(VNum 2, VNum 1, VNum 3)]
  /\ List.map v_id (venues s1) = [2%positive]
  /\ files s1 = [1%positive]
  /\ List.map t_id (tags s1) = [3%positive]
  /\ refs_valid s1.
Proof.
  intros s1.
  split; [vm_compute; reflexivity|].
  split; [vm_compute; reflexivity|].
  split; [vm_compute; reflexivity|].
  split; [vm_compute; reflexivity|].
  apply (references_stay_valid (Sample.env Sample.new_year)
           (s := Store.empty)).
  intros e [].
Defined.
